(** * Csnake: the game-state machine and simulation step of [src/main.cpp]

    A shallow embedding of class [Application]: its fields become a record,
    its member functions become functions on that record.  [std::rand()] is
    the only source of non-determinism that the simulation reads; it is
    modelled by a sequence of values consumed from the left.  Rendering
    and audio never feed back into the simulation and are left out, but
    for the mask [renderFlashlight] draws; the values [generateGrass]
    reads in the constructor come before the sequences considered for
    the simulation.

    [int] fields are embedded as [Z]: signed overflow is undefined in C++,
    so the model covers the executions that stay within [int].  The
    [Uint32] tick arithmetic of [update] wraps, and the wrap is written out.
    [float] is IEEE binary32, taken from [SpecFloat] at precision 24. *)

From Stdlib Require Import ZArith List Bool Lia.
From Stdlib Require Import Floats.SpecFloat.
Import ListNotations.
Local Open Scope Z_scope.

(** ** Constants *)

Definition SCREEN_WIDTH : Z := 800.
Definition SCREEN_HEIGHT : Z := 600.
Definition GRID_SIZE : Z := 20.
Definition DEFAULT_SNAKE_SPEED : Z := 100.

(** ** binary32 arithmetic *)

Definition f32 : Type := spec_float.
Definition f32_add : f32 -> f32 -> f32 := SFadd 24 128.
Definition f32_sub : f32 -> f32 -> f32 := SFsub 24 128.
Definition f32_leb : f32 -> f32 -> bool := SFleb.
Definition f32_ltb : f32 -> f32 -> bool := SFltb.

(** [(float)z] for an [int] z. *)
Definition f32_of_int (z : Z) : f32 := binary_normalize 24 128 z 0 false.

(** The binary32 value nearest to the decimal literal [n / 10^k]: a
    correctly rounded quotient of two exactly representable integers. *)
Definition f32_lit (n : Z) (k : nat) : f32 :=
  SFdiv 24 128 (f32_of_int n) (f32_of_int (10 ^ Z.of_nat k)).

(** [std::max(a, b)] is [(a < b) ? b : a]. *)
Definition f32_max (a b : f32) : f32 := if f32_ltb a b then b else a.

Definition DEFAULT_GRASS_WAVE_SPEED : f32 := f32_lit 5 2.
Definition DEFAULT_GRASS_WAVE_AMPLITUDE : f32 := f32_of_int 15.

(** ** Enumerations and structs *)

Inductive GameState : Type :=
  MAIN_MENU | CONFIG_MENU | MODE_MENU | PLAYING | PAUSED | QUIT.

Inductive ConfigOption : Type :=
  SPEED | NUM_FOOD | NUM_OBSTACLES | AMPLITUDE | WAVE_SPEED | EXIT.

Inductive GameMode : Type := NORMAL | FLASHLIGHT.

(** The key codes [onKeyDown] distinguishes; every other key is
    [SDLK_other] and falls to [default]. *)
Inductive SDL_Keycode : Type :=
  | SDLK_ESCAPE | SDLK_UP | SDLK_w | SDLK_DOWN | SDLK_s
  | SDLK_LEFT | SDLK_a | SDLK_RIGHT | SDLK_d | SDLK_RETURN
  | SDLK_other.

Definition GameState_eqb (a b : GameState) : bool :=
  match a, b with
  | MAIN_MENU, MAIN_MENU | CONFIG_MENU, CONFIG_MENU | MODE_MENU, MODE_MENU
  | PLAYING, PLAYING | PAUSED, PAUSED | QUIT, QUIT => true
  | _, _ => false
  end.

(** [(ConfigOption)configOption]: the enumerator with that value, if any. *)
Definition ConfigOption_of_int (i : Z) : option ConfigOption :=
  match i with
  | 0 => Some SPEED
  | 1 => Some NUM_FOOD
  | 2 => Some NUM_OBSTACLES
  | 3 => Some AMPLITUDE
  | 4 => Some WAVE_SPEED
  | 5 => Some EXIT
  | _ => None
  end.

Definition ConfigOption_to_int (c : ConfigOption) : Z :=
  match c with
  | SPEED => 0 | NUM_FOOD => 1 | NUM_OBSTACLES => 2
  | AMPLITUDE => 3 | WAVE_SPEED => 4 | EXIT => 5
  end.

(** [struct Point]; the fields are [x] and [y] in the source. *)
Record Point : Type := mkPoint { pt_x : Z; pt_y : Z }.

(** [Point::operator==]. *)
Definition Point_eqb (p q : Point) : bool :=
  (pt_x p =? pt_x q) && (pt_y p =? pt_y q).

(** [struct Sparkle]; the fields are [x], [y] and [life] in the source. *)
Record Sparkle : Type := mkSparkle { sp_x : f32; sp_y : f32; sp_life : f32 }.

(** The simulation state of [class Application].  The projections are
    primitive, so that reading a field of a state built by many
    assignments reduces without comparing the states themselves. *)
#[projections(primitive)] Record Application : Type := Build_Application {
  state : GameState;
  gameMode : GameMode;
  running : bool;
  snake : list Point;
  foodItems : list Point;
  obstacles : list Point;
  direction : Point;
  lastMoveTime : Z;
  score : Z;
  highScore : Z;
  animationTime : f32;
  sparkles : list Sparkle;
  selectedOption : Z;
  pauseMenuOption : Z;
  configOption : Z;
  modeMenuOption : Z;
  snakeSpeed : Z;
  numFoodItems : Z;
  numObstacles : Z;
  grassWaveSpeed : f32;
  grassWaveAmplitude : f32
}.

(** Assignments to one field. *)

Definition set_state (v : GameState) (a : Application) : Application :=
  Build_Application v (gameMode a) (running a) (snake a) (foodItems a)
    (obstacles a) (direction a) (lastMoveTime a) (score a) (highScore a)
    (animationTime a) (sparkles a) (selectedOption a) (pauseMenuOption a)
    (configOption a) (modeMenuOption a) (snakeSpeed a) (numFoodItems a)
    (numObstacles a) (grassWaveSpeed a) (grassWaveAmplitude a).

Definition set_gameMode (v : GameMode) (a : Application) : Application :=
  Build_Application (state a) v (running a) (snake a) (foodItems a)
    (obstacles a) (direction a) (lastMoveTime a) (score a) (highScore a)
    (animationTime a) (sparkles a) (selectedOption a) (pauseMenuOption a)
    (configOption a) (modeMenuOption a) (snakeSpeed a) (numFoodItems a)
    (numObstacles a) (grassWaveSpeed a) (grassWaveAmplitude a).

Definition set_running (v : bool) (a : Application) : Application :=
  Build_Application (state a) (gameMode a) v (snake a) (foodItems a)
    (obstacles a) (direction a) (lastMoveTime a) (score a) (highScore a)
    (animationTime a) (sparkles a) (selectedOption a) (pauseMenuOption a)
    (configOption a) (modeMenuOption a) (snakeSpeed a) (numFoodItems a)
    (numObstacles a) (grassWaveSpeed a) (grassWaveAmplitude a).

Definition set_snake (v : list Point) (a : Application) : Application :=
  Build_Application (state a) (gameMode a) (running a) v (foodItems a)
    (obstacles a) (direction a) (lastMoveTime a) (score a) (highScore a)
    (animationTime a) (sparkles a) (selectedOption a) (pauseMenuOption a)
    (configOption a) (modeMenuOption a) (snakeSpeed a) (numFoodItems a)
    (numObstacles a) (grassWaveSpeed a) (grassWaveAmplitude a).

Definition set_foodItems (v : list Point) (a : Application) : Application :=
  Build_Application (state a) (gameMode a) (running a) (snake a) v
    (obstacles a) (direction a) (lastMoveTime a) (score a) (highScore a)
    (animationTime a) (sparkles a) (selectedOption a) (pauseMenuOption a)
    (configOption a) (modeMenuOption a) (snakeSpeed a) (numFoodItems a)
    (numObstacles a) (grassWaveSpeed a) (grassWaveAmplitude a).

Definition set_obstacles (v : list Point) (a : Application) : Application :=
  Build_Application (state a) (gameMode a) (running a) (snake a)
    (foodItems a) v (direction a) (lastMoveTime a) (score a) (highScore a)
    (animationTime a) (sparkles a) (selectedOption a) (pauseMenuOption a)
    (configOption a) (modeMenuOption a) (snakeSpeed a) (numFoodItems a)
    (numObstacles a) (grassWaveSpeed a) (grassWaveAmplitude a).

Definition set_direction (v : Point) (a : Application) : Application :=
  Build_Application (state a) (gameMode a) (running a) (snake a)
    (foodItems a) (obstacles a) v (lastMoveTime a) (score a) (highScore a)
    (animationTime a) (sparkles a) (selectedOption a) (pauseMenuOption a)
    (configOption a) (modeMenuOption a) (snakeSpeed a) (numFoodItems a)
    (numObstacles a) (grassWaveSpeed a) (grassWaveAmplitude a).

Definition set_lastMoveTime (v : Z) (a : Application) : Application :=
  Build_Application (state a) (gameMode a) (running a) (snake a)
    (foodItems a) (obstacles a) (direction a) v (score a) (highScore a)
    (animationTime a) (sparkles a) (selectedOption a) (pauseMenuOption a)
    (configOption a) (modeMenuOption a) (snakeSpeed a) (numFoodItems a)
    (numObstacles a) (grassWaveSpeed a) (grassWaveAmplitude a).

Definition set_score (v : Z) (a : Application) : Application :=
  Build_Application (state a) (gameMode a) (running a) (snake a)
    (foodItems a) (obstacles a) (direction a) (lastMoveTime a) v
    (highScore a) (animationTime a) (sparkles a) (selectedOption a)
    (pauseMenuOption a) (configOption a) (modeMenuOption a) (snakeSpeed a)
    (numFoodItems a) (numObstacles a) (grassWaveSpeed a)
    (grassWaveAmplitude a).

Definition set_highScore (v : Z) (a : Application) : Application :=
  Build_Application (state a) (gameMode a) (running a) (snake a)
    (foodItems a) (obstacles a) (direction a) (lastMoveTime a) (score a) v
    (animationTime a) (sparkles a) (selectedOption a) (pauseMenuOption a)
    (configOption a) (modeMenuOption a) (snakeSpeed a) (numFoodItems a)
    (numObstacles a) (grassWaveSpeed a) (grassWaveAmplitude a).

Definition set_animationTime (v : f32) (a : Application) : Application :=
  Build_Application (state a) (gameMode a) (running a) (snake a)
    (foodItems a) (obstacles a) (direction a) (lastMoveTime a) (score a)
    (highScore a) v (sparkles a) (selectedOption a) (pauseMenuOption a)
    (configOption a) (modeMenuOption a) (snakeSpeed a) (numFoodItems a)
    (numObstacles a) (grassWaveSpeed a) (grassWaveAmplitude a).

Definition set_sparkles (v : list Sparkle) (a : Application) : Application :=
  Build_Application (state a) (gameMode a) (running a) (snake a)
    (foodItems a) (obstacles a) (direction a) (lastMoveTime a) (score a)
    (highScore a) (animationTime a) v (selectedOption a) (pauseMenuOption a)
    (configOption a) (modeMenuOption a) (snakeSpeed a) (numFoodItems a)
    (numObstacles a) (grassWaveSpeed a) (grassWaveAmplitude a).

Definition set_selectedOption (v : Z) (a : Application) : Application :=
  Build_Application (state a) (gameMode a) (running a) (snake a)
    (foodItems a) (obstacles a) (direction a) (lastMoveTime a) (score a)
    (highScore a) (animationTime a) (sparkles a) v (pauseMenuOption a)
    (configOption a) (modeMenuOption a) (snakeSpeed a) (numFoodItems a)
    (numObstacles a) (grassWaveSpeed a) (grassWaveAmplitude a).

Definition set_pauseMenuOption (v : Z) (a : Application) : Application :=
  Build_Application (state a) (gameMode a) (running a) (snake a)
    (foodItems a) (obstacles a) (direction a) (lastMoveTime a) (score a)
    (highScore a) (animationTime a) (sparkles a) (selectedOption a) v
    (configOption a) (modeMenuOption a) (snakeSpeed a) (numFoodItems a)
    (numObstacles a) (grassWaveSpeed a) (grassWaveAmplitude a).

Definition set_configOption (v : Z) (a : Application) : Application :=
  Build_Application (state a) (gameMode a) (running a) (snake a)
    (foodItems a) (obstacles a) (direction a) (lastMoveTime a) (score a)
    (highScore a) (animationTime a) (sparkles a) (selectedOption a)
    (pauseMenuOption a) v (modeMenuOption a) (snakeSpeed a) (numFoodItems a)
    (numObstacles a) (grassWaveSpeed a) (grassWaveAmplitude a).

Definition set_modeMenuOption (v : Z) (a : Application) : Application :=
  Build_Application (state a) (gameMode a) (running a) (snake a)
    (foodItems a) (obstacles a) (direction a) (lastMoveTime a) (score a)
    (highScore a) (animationTime a) (sparkles a) (selectedOption a)
    (pauseMenuOption a) (configOption a) v (snakeSpeed a) (numFoodItems a)
    (numObstacles a) (grassWaveSpeed a) (grassWaveAmplitude a).

Definition set_snakeSpeed (v : Z) (a : Application) : Application :=
  Build_Application (state a) (gameMode a) (running a) (snake a)
    (foodItems a) (obstacles a) (direction a) (lastMoveTime a) (score a)
    (highScore a) (animationTime a) (sparkles a) (selectedOption a)
    (pauseMenuOption a) (configOption a) (modeMenuOption a) v
    (numFoodItems a) (numObstacles a) (grassWaveSpeed a)
    (grassWaveAmplitude a).

Definition set_numFoodItems (v : Z) (a : Application) : Application :=
  Build_Application (state a) (gameMode a) (running a) (snake a)
    (foodItems a) (obstacles a) (direction a) (lastMoveTime a) (score a)
    (highScore a) (animationTime a) (sparkles a) (selectedOption a)
    (pauseMenuOption a) (configOption a) (modeMenuOption a) (snakeSpeed a) v
    (numObstacles a) (grassWaveSpeed a) (grassWaveAmplitude a).

Definition set_numObstacles (v : Z) (a : Application) : Application :=
  Build_Application (state a) (gameMode a) (running a) (snake a)
    (foodItems a) (obstacles a) (direction a) (lastMoveTime a) (score a)
    (highScore a) (animationTime a) (sparkles a) (selectedOption a)
    (pauseMenuOption a) (configOption a) (modeMenuOption a) (snakeSpeed a)
    (numFoodItems a) v (grassWaveSpeed a) (grassWaveAmplitude a).

Definition set_grassWaveSpeed (v : f32) (a : Application) : Application :=
  Build_Application (state a) (gameMode a) (running a) (snake a)
    (foodItems a) (obstacles a) (direction a) (lastMoveTime a) (score a)
    (highScore a) (animationTime a) (sparkles a) (selectedOption a)
    (pauseMenuOption a) (configOption a) (modeMenuOption a) (snakeSpeed a)
    (numFoodItems a) (numObstacles a) v (grassWaveAmplitude a).

Definition set_grassWaveAmplitude (v : f32) (a : Application) : Application :=
  Build_Application (state a) (gameMode a) (running a) (snake a)
    (foodItems a) (obstacles a) (direction a) (lastMoveTime a) (score a)
    (highScore a) (animationTime a) (sparkles a) (selectedOption a)
    (pauseMenuOption a) (configOption a) (modeMenuOption a) (snakeSpeed a)
    (numFoodItems a) (numObstacles a) (grassWaveSpeed a) v.

(** ** The random source

    A computation reads [std::rand()] values from a sequence and returns
    its result with the unread rest.  [None] means that the sequence ended
    before the call returned (the sampling loops of the spawner have no
    retry bound), or that the call indexed an empty vector. *)

Definition M (A : Type) : Type := list Z -> option (A * list Z).

Definition ret {A : Type} (a : A) : M A := fun rs => Some (a, rs).

Definition bind {A B : Type} (m : M A) (f : A -> M B) : M B :=
  fun rs => match m rs with
            | Some (a, rs') => f a rs'
            | None => None
            end.

Notation "x <- c1 ;; c2" := (bind c1 (fun x => c2))
  (at level 61, c1 at next level, right associativity).

(** ** Spawning food and obstacles *)

(** The linear scans [for (auto& seg : v) if (p == seg) ...]. *)
Definition hits (p : Point) (v : list Point) : bool :=
  existsb (Point_eqb p) v.

(** The cell drawn from two consecutive [std::rand()] values. *)
Definition randomCell (rx ry : Z) : Point :=
  mkPoint (Z.rem rx (Z.quot SCREEN_WIDTH GRID_SIZE) * GRID_SIZE)
          (Z.rem ry (Z.quot SCREEN_HEIGHT GRID_SIZE) * GRID_SIZE).

(** [while (!validPos) { draw a cell; validPos = ... }], with the test
    of the loop body as [valid]. *)
Fixpoint spawn_while (valid : Point -> bool) (rs : list Z)
  : option (Point * list Z) :=
  match rs with
  | rx :: ry :: rs' =>
      let p := randomCell rx ry in
      if valid p then Some (p, rs') else spawn_while valid rs'
  | _ => None
  end.

(** [validPos] at the end of one pass of the loop body in [spawnFood]. *)
Definition foodValid (a : Application) (food : Point) : bool :=
  negb (hits food (snake a)) && negb (hits food (obstacles a)).

(** [validPos] at the end of one pass of the loop body in [spawnObstacles]. *)
Definition obstacleValid (a : Application) (obs : Point) : bool :=
  negb (hits obs (snake a)) && negb (hits obs (foodItems a)).

(** The [for] loop of [spawnFood], with [n] iterations left. *)
Fixpoint spawnFood_for (n : nat) (a : Application) : M Application :=
  match n with
  | O => ret a
  | S n' =>
      food <- spawn_while (foodValid a) ;;
      spawnFood_for n' (set_foodItems (foodItems a ++ [food]) a)
  end.

Definition spawnFood (a : Application) : M Application :=
  spawnFood_for (Z.to_nat (numFoodItems a)) a.

(** The [for] loop of [spawnObstacles], with [n] iterations left. *)
Fixpoint spawnObstacles_for (n : nat) (a : Application) : M Application :=
  match n with
  | O => ret a
  | S n' =>
      obs <- spawn_while (obstacleValid a) ;;
      spawnObstacles_for n' (set_obstacles (obstacles a ++ [obs]) a)
  end.

Definition spawnObstacles (count : Z) (a : Application) : M Application :=
  spawnObstacles_for (Z.to_nat count) a.

(** ** Start and reset *)

Definition resetGame (a : Application) : M Application :=
  let a := set_snake [mkPoint (Z.quot SCREEN_WIDTH 2) (Z.quot SCREEN_HEIGHT 2)] a in
  let a := set_direction (mkPoint 1 0) a in
  let a := set_score 0 a in
  let a := set_foodItems [] a in
  let a := set_obstacles [] a in
  a <- spawnFood a ;;
  spawnObstacles (numObstacles a) a.

Definition startGame (a : Application) : M Application :=
  resetGame (set_state PLAYING a).

(** ** Menus *)

Definition mainMenuSelection (a : Application) : M Application :=
  match selectedOption a with
  | 0 => startGame a
  | 1 => ret (set_state CONFIG_MENU a)
  | 2 => ret (set_state MODE_MENU a)
  | 3 => ret (set_state QUIT a)
  | _ => ret a
  end.

Definition adjustConfigOption (increase : bool) (a : Application)
  : Application :=
  match ConfigOption_of_int (configOption a) with
  | Some SPEED =>
      if increase
      then set_snakeSpeed
             (if 1 <? snakeSpeed a then snakeSpeed a - 1 else -20) a
      else set_snakeSpeed (snakeSpeed a + 1) a
  | Some NUM_FOOD =>
      if increase then set_numFoodItems (numFoodItems a + 1) a
      else if 0 <? numFoodItems a
           then set_numFoodItems (numFoodItems a - 1) a
           else a
  | Some NUM_OBSTACLES =>
      if increase then set_numObstacles (numObstacles a + 1) a
      else if 0 <? numObstacles a
           then set_numObstacles (numObstacles a - 1) a
           else a
  | Some AMPLITUDE =>
      if increase
      then set_grassWaveAmplitude
             (f32_add (grassWaveAmplitude a) (f32_of_int 1)) a
      else set_grassWaveAmplitude
             (f32_max (f32_of_int 0)
                      (f32_sub (grassWaveAmplitude a) (f32_of_int 1))) a
  | Some WAVE_SPEED =>
      if increase
      then set_grassWaveSpeed
             (f32_add (grassWaveSpeed a) (f32_lit 1 2)) a
      else set_grassWaveSpeed
             (f32_max (f32_of_int 0)
                      (f32_sub (grassWaveSpeed a) (f32_lit 1 2))) a
  | Some EXIT => set_state MAIN_MENU a
  | None => a
  end.

Definition modeSelection (a : Application) : Application :=
  let a := if modeMenuOption a =? 0
           then set_gameMode NORMAL a
           else set_gameMode FLASHLIGHT a in
  set_state MAIN_MENU a.

(** ** Key events *)

Definition onKeyDown (key : SDL_Keycode) (a : Application) : M Application :=
  match key with
  | SDLK_ESCAPE =>
      match state a with
      | PLAYING => ret (set_state PAUSED a)
      | PAUSED => ret (set_state PLAYING a)
      | CONFIG_MENU | MODE_MENU => ret (set_state MAIN_MENU a)
      | _ => ret a
      end
  | SDLK_UP | SDLK_w =>
      match state a with
      | MAIN_MENU =>
          ret (set_selectedOption (Z.rem (selectedOption a + 3) 4) a)
      | PLAYING =>
          if pt_y (direction a) =? 0
          then ret (set_direction (mkPoint 0 (-1)) a)
          else ret a
      | PAUSED =>
          ret (set_pauseMenuOption
                 (if pauseMenuOption a =? 0 then 1 else 0) a)
      | CONFIG_MENU =>
          ret (set_configOption
                 (if configOption a =? 0
                  then ConfigOption_to_int EXIT
                  else configOption a - 1) a)
      | MODE_MENU =>
          ret (set_modeMenuOption
                 (if modeMenuOption a =? 0 then 1 else 0) a)
      | QUIT => ret a
      end
  | SDLK_DOWN | SDLK_s =>
      match state a with
      | MAIN_MENU =>
          ret (set_selectedOption (Z.rem (selectedOption a + 1) 4) a)
      | PLAYING =>
          if pt_y (direction a) =? 0
          then ret (set_direction (mkPoint 0 1) a)
          else ret a
      | PAUSED =>
          ret (set_pauseMenuOption
                 (if pauseMenuOption a =? 0 then 1 else 0) a)
      | CONFIG_MENU =>
          ret (set_configOption
                 (Z.rem (configOption a + 1)
                        (ConfigOption_to_int EXIT + 1)) a)
      | MODE_MENU =>
          ret (set_modeMenuOption
                 (if modeMenuOption a =? 0 then 1 else 0) a)
      | QUIT => ret a
      end
  | SDLK_LEFT | SDLK_a =>
      match state a with
      | PLAYING =>
          if pt_x (direction a) =? 0
          then ret (set_direction (mkPoint (-1) 0) a)
          else ret a
      | CONFIG_MENU => ret (adjustConfigOption false a)
      | _ => ret a
      end
  | SDLK_RIGHT | SDLK_d =>
      match state a with
      | PLAYING =>
          if pt_x (direction a) =? 0
          then ret (set_direction (mkPoint 1 0) a)
          else ret a
      | CONFIG_MENU => ret (adjustConfigOption true a)
      | _ => ret a
      end
  | SDLK_RETURN =>
      match state a with
      | MAIN_MENU => mainMenuSelection a
      | PAUSED =>
          if pauseMenuOption a =? 0
          then ret (set_state PLAYING a)
          else ret (set_state MAIN_MENU a)
      | MODE_MENU => ret (modeSelection a)
      | _ => ret a
      end
  | SDLK_other => ret a
  end.

(** ** The update step *)

(** Conversion to [Uint32]. *)
Definition to_u32 (z : Z) : Z := z mod 2 ^ 32.

(** The head computed at the top of the movement block of [update]:
    one grid step from [head] along [dir], then the two wrap tests. *)
Definition newHead (head dir : Point) : Point :=
  let nx := pt_x head + pt_x dir * GRID_SIZE in
  let ny := pt_y head + pt_y dir * GRID_SIZE in
  let nx := if nx <? 0 then SCREEN_WIDTH - GRID_SIZE
            else if SCREEN_WIDTH <=? nx then 0 else nx in
  let ny := if ny <? 0 then SCREEN_HEIGHT - GRID_SIZE
            else if SCREEN_HEIGHT <=? ny then 0 else ny in
  mkPoint nx ny.

(** The burst pushed by [handleCollision]: one sparkle at the centre of
    the head cell, life [1.0f]. *)
Definition collisionSparkle (head : Point) : Sparkle :=
  mkSparkle (f32_add (f32_of_int (pt_x head)) (f32_of_int (Z.quot GRID_SIZE 2)))
            (f32_add (f32_of_int (pt_y head)) (f32_of_int (Z.quot GRID_SIZE 2)))
            (f32_of_int 1).

Definition handleCollision (a : Application) : M Application :=
  match snake a with
  | [] => fun _ => None
  | head :: _ =>
      let a := set_sparkles
                 (sparkles a ++ repeat (collisionSparkle head) 20) a in
      let a := if highScore a <? score a
               then set_highScore (score a) a else a in
      resetGame a
  end.

(** The tail of [update]: every sparkle loses [0.05f] of life, then the
    dead ones are erased. *)
Definition decaySparkles (a : Application) : Application :=
  let aged := map (fun sp => mkSparkle (sp_x sp) (sp_y sp)
                               (f32_sub (sp_life sp) (f32_lit 5 2)))
                  (sparkles a) in
  set_sparkles
    (filter (fun s => negb (f32_leb (sp_life s) (f32_of_int 0))) aged) a.

(** [update], with [currentTime] the value [SDL_GetTicks()] returns. *)
Definition update (currentTime : Z) (a : Application) : M Application :=
  let a := set_animationTime (f32_add (animationTime a) (f32_lit 2 2)) a in
  if negb (GameState_eqb (state a) PLAYING) then ret a else
  if to_u32 (currentTime - lastMoveTime a) <? to_u32 (snakeSpeed a)
  then ret a else
  let a := set_lastMoveTime currentTime a in
  match snake a with
  | [] => ret (decaySparkles a)
  | head :: _ =>
      let h := newHead head (direction a) in
      if hits h (snake a) then handleCollision a
      else if hits h (obstacles a) then handleCollision a
      else
        let a := set_snake (h :: snake a) a in
        if hits h (foodItems a) then
          let a := set_score (score a + 1) a in
          let a := if highScore a <? score a
                   then set_highScore (score a) a else a in
          let a := set_foodItems [] a in
          a <- spawnFood a ;;
          a <- spawnObstacles 5 a ;;
          ret (decaySparkles a)
        else
          ret (decaySparkles (set_snake (removelast (snake a)) a))
  end.

(** ** Events and the frame loop *)

Inductive SDL_Event : Type :=
  | SDL_QUIT
  | SDL_KEYDOWN (sym : SDL_Keycode)
  | SDL_other_event.

(** One pass of the body of the polling loop in [handleEvents]. *)
Definition handleEvent (event : SDL_Event) (a : Application) : M Application :=
  match event with
  | SDL_QUIT => ret (set_state QUIT (set_running false a))
  | SDL_KEYDOWN sym => onKeyDown sym a
  | SDL_other_event => ret a
  end.

Fixpoint handleEvents (events : list SDL_Event) (a : Application)
  : M Application :=
  match events with
  | [] => ret a
  | e :: es => a <- handleEvent e a ;; handleEvents es a
  end.

(** The values the constructor gives the fields. *)
Definition Application_init : Application :=
  {| state := MAIN_MENU;
     gameMode := NORMAL;
     running := true;
     snake := [];
     foodItems := [];
     obstacles := [];
     direction := mkPoint 1 0;
     lastMoveTime := 0;
     score := 0;
     highScore := 0;
     animationTime := f32_of_int 0;
     sparkles := [];
     selectedOption := 0;
     pauseMenuOption := 0;
     configOption := 0;
     modeMenuOption := 0;
     snakeSpeed := DEFAULT_SNAKE_SPEED;
     numFoodItems := 10;
     numObstacles := 15;
     grassWaveSpeed := DEFAULT_GRASS_WAVE_SPEED;
     grassWaveAmplitude := DEFAULT_GRASS_WAVE_AMPLITUDE |}.

(** The states [run] can go through: from the constructed state, any
    number of handled events and update calls, each reading some random
    sequence.  The guard [running && state != QUIT] of the loop is not
    tracked, so this is a superset of the states of real runs. *)
Inductive reachable : Application -> Prop :=
  | reach_init : reachable Application_init
  | reach_event : forall a event rs a' rs',
      reachable a -> handleEvent event a rs = Some (a', rs') ->
      reachable a'
  | reach_update : forall a currentTime rs a' rs',
      reachable a -> update currentTime a rs = Some (a', rs') ->
      reachable a'.

(** Runs from one state to another: any number of handled events and
    update calls. *)
Inductive steps : Application -> Application -> Prop :=
  | steps_refl : forall a, steps a a
  | steps_event : forall a event rs a1 rs1 b,
      handleEvent event a rs = Some (a1, rs1) -> steps a1 b -> steps a b
  | steps_update : forall a currentTime rs a1 rs1 b,
      update currentTime a rs = Some (a1, rs1) -> steps a1 b -> steps a b.

(** ** Predicates used in the statements *)

(** A cell inside the canvas. *)
Definition inBounds (p : Point) : Prop :=
  0 <= pt_x p < SCREEN_WIDTH /\ 0 <= pt_y p < SCREEN_HEIGHT.

(** The four directions of the data model. *)
Definition unitDirection (d : Point) : Prop :=
  d = mkPoint 1 0 \/ d = mkPoint (-1) 0 \/
  d = mkPoint 0 1 \/ d = mkPoint 0 (-1).

(** The movement timer of [update] has elapsed at [currentTime]. *)
Definition intervalElapsed (currentTime : Z) (a : Application) : Prop :=
  to_u32 (snakeSpeed a) <= to_u32 (currentTime - lastMoveTime a).

(** What every state of a run satisfies. *)
Record Inv (a : Application) : Prop := {
  inv_numFoodItems : 0 <= numFoodItems a;
  inv_numObstacles : 0 <= numObstacles a;
  inv_direction : unitDirection (direction a);
  inv_snake : Forall inBounds (snake a);
  inv_food : forall p, In p (foodItems a) ->
               ~ In p (snake a) /\ ~ In p (obstacles a)
}.

(** The snake of a fresh session. *)
Definition centre : Point :=
  mkPoint (Z.quot SCREEN_WIDTH 2) (Z.quot SCREEN_HEIGHT 2).

(** The state after the two bookkeeping assignments of [update]:
    [animationTime += 0.02f] and [lastMoveTime = currentTime]. *)
Definition ticked (currentTime : Z) (a : Application) : Application :=
  set_lastMoveTime currentTime
    (set_animationTime (f32_add (animationTime a) (f32_lit 2 2)) a).

(** ** Concrete sessions to evaluate the step functions on *)

Definition result_of (m : option (Application * list Z)) (d : Application)
  : Application :=
  match m with Some (a, _) => a | None => d end.

(** The constructed application with "Start Game" confirmed, the cells
    drawn from the values 0, 1, 2, ... *)
Definition demo_rs : list Z := map Z.of_nat (seq 0 50).

Definition demo_playing : Application :=
  Eval vm_compute in
    result_of (onKeyDown SDLK_RETURN Application_init demo_rs)
              Application_init.

(** A session whose first food item lies one step ahead of the head. *)
Definition eat_rs : list Z := 21 :: 15 :: map Z.of_nat (seq 0 48).

Definition demo_eating : Application :=
  Eval vm_compute in
    result_of (onKeyDown SDLK_RETURN Application_init eat_rs)
              Application_init.

(** A session whose first obstacle lies one step ahead of the head. *)
Definition collide_rs : list Z :=
  map Z.of_nat (seq 0 20) ++ 21 :: 15 :: map Z.of_nat (seq 20 28).

Definition demo_colliding : Application :=
  Eval vm_compute in
    result_of (onKeyDown SDLK_RETURN Application_init collide_rs)
              Application_init.

(** The values read by the tick that follows, and the states after the
    tick at time 100. *)
Definition tick_rs : list Z := map Z.of_nat (seq 100 60).

Definition demo_eaten : Application :=
  Eval vm_compute in result_of (update 100 demo_eating tick_rs) demo_eating.

Definition demo_collided : Application :=
  Eval vm_compute in
    result_of (update 100 demo_colliding collide_rs) demo_colliding.

Definition demo_collided_twice : Application :=
  Eval vm_compute in
    result_of (update 200 demo_collided collide_rs) demo_collided.

(** Key presses as polled events. *)
Definition key_events (keys : list SDL_Keycode) : list SDL_Event :=
  map SDL_KEYDOWN keys.

(** The configuration menu, opened from the constructed application;
    the same with "Back to Main Menu" highlighted. *)
Definition demo_config : Application :=
  Eval vm_compute in
    result_of (handleEvents (key_events [SDLK_DOWN; SDLK_RETURN])
                            Application_init [])
              Application_init.

Definition demo_config_exit : Application :=
  Eval vm_compute in
    result_of (handleEvents (key_events [SDLK_DOWN; SDLK_RETURN; SDLK_UP])
                            Application_init [])
              Application_init.

(** A session started after "speed up" was pressed one hundred times on
    the speed item: 99 presses take the interval from 100 to 1, the last
    one to -20. *)
Definition turbo_events : list SDL_Event :=
  key_events ([SDLK_DOWN; SDLK_RETURN] ++ repeat SDLK_RIGHT 100
              ++ [SDLK_ESCAPE; SDLK_UP; SDLK_RETURN]).

Definition demo_turbo : Application :=
  Eval vm_compute in
    result_of (handleEvents turbo_events Application_init demo_rs)
              Application_init.

(** ** Proof automation *)

(** Unfold [update] past the state test and the timer test. *)
Ltac enter_update Hst Hel :=
  unfold update; cbn [state set_animationTime lastMoveTime snakeSpeed];
  rewrite Hst; cbn [GameState_eqb negb];
  rewrite (proj2 (Z.ltb_ge _ _) Hel);
  match goal with
  | |- context [set_lastMoveTime ?t (set_animationTime ?v ?a)] =>
      change (set_lastMoveTime t (set_animationTime v a)) with (ticked t a);
      change (snake (ticked t a)) with (snake a);
      change (direction (ticked t a)) with (direction a);
      change (obstacles (ticked t a)) with (obstacles a)
  end.
(** ** The frame loop *)

(** One pass of the body of the loop of [run]: the polled events, then
    [update] at the tick count [currentTime].  [render] and [SDL_Delay]
    change nothing the simulation reads. *)
Definition frame (events : list SDL_Event) (currentTime : Z)
  (a : Application) : M Application :=
  a <- handleEvents events a ;;
  update currentTime a.

(** [run] over the frames given: the loop stops as soon as [running] is
    false or the state is [QUIT]. *)
Fixpoint run (frames : list (list SDL_Event * Z)) (a : Application)
  : M Application :=
  match frames with
  | [] => ret a
  | (events, currentTime) :: rest =>
      if running a && negb (GameState_eqb (state a) QUIT)
      then a <- frame events currentTime a ;; run rest a
      else ret a
  end.

(** ** The flashlight mask *)

Definition FLASHLIGHT_RADIUS_BLOCKS : Z := 5.

(** [SDL_Rect]; the fields are [x], [y], [w] and [h] in the source. *)
Record SDL_Rect : Type :=
  mkRect { rect_x : Z; rect_y : Z; rect_w : Z; rect_h : Z }.

(** The values [i] takes in [for (int i = start; i < stop; i += GRID_SIZE)],
    at most [fuel] of them. *)
Fixpoint grid_loop (fuel : nat) (i stop : Z) : list Z :=
  match fuel with
  | O => []
  | S fuel' =>
      if i <? stop then i :: grid_loop fuel' (i + GRID_SIZE) stop else []
  end.

(** The loop from 0; [stop] passes are enough, the step being positive. *)
Definition grid_steps (stop : Z) : list Z := grid_loop (Z.to_nat stop) 0 stop.

(** [renderFlashlight]: the blocks it fills with black, in drawing
    order.  [snake.front()] of an empty snake is undefined. *)
Definition renderFlashlight (a : Application) : option (list SDL_Rect) :=
  match snake a with
  | [] => None
  | head :: _ =>
      let radiusPixels := FLASHLIGHT_RADIUS_BLOCKS * GRID_SIZE in
      let headCenterX := pt_x head + Z.quot GRID_SIZE 2 in
      let headCenterY := pt_y head + Z.quot GRID_SIZE 2 in
      Some
        (flat_map
           (fun y =>
              flat_map
                (fun x =>
                   let cx := x + Z.quot GRID_SIZE 2 in
                   let cy := y + Z.quot GRID_SIZE 2 in
                   let dx := cx - headCenterX in
                   let dy := cy - headCenterY in
                   let distSquared := dx * dx + dy * dy in
                   if radiusPixels * radiusPixels <? distSquared
                   then [mkRect x y GRID_SIZE GRID_SIZE]
                   else [])
                (grid_steps SCREEN_WIDTH))
           (grid_steps SCREEN_HEIGHT))
  end.

(** ** The grass field *)

Definition f32_mul : f32 -> f32 -> f32 := SFmul 24 128.

(** [struct GrassBlade]; the fields are [x], [y], [height],
    [waveOffset] and [randomAmplitude] in the source. *)
Record GrassBlade : Type := mkGrassBlade {
  blade_x : f32;
  blade_y : f32;
  blade_height : f32;
  blade_waveOffset : f32;
  blade_randomAmplitude : f32
}.

(** The blade built from five consecutive [std::rand()] values. *)
Definition randomBlade (r1 r2 r3 r4 r5 : Z) : GrassBlade :=
  mkGrassBlade
    (f32_of_int (Z.rem r1 SCREEN_WIDTH))
    (f32_of_int (SCREEN_HEIGHT - Z.rem r2 (Z.quot SCREEN_HEIGHT 2)))
    (f32_add (f32_of_int 10) (f32_of_int (Z.rem r3 40)))
    (f32_mul (f32_of_int (Z.rem r4 100)) (f32_lit 1 1))
    (f32_add (f32_lit 5 1) (f32_of_int (Z.rem r5 10))).

(** The [for] loop of [generateGrass], with [n] iterations left. *)
Fixpoint generateGrass_for (n : nat) (grassBlades : list GrassBlade)
  : M (list GrassBlade) :=
  match n with
  | O => ret grassBlades
  | S n' =>
      fun rs =>
        match rs with
        | r1 :: r2 :: r3 :: r4 :: r5 :: rs' =>
            generateGrass_for n' (grassBlades ++ [randomBlade r1 r2 r3 r4 r5])
                              rs'
        | _ => None
        end
  end.

(** [generateGrass]: the vector [grassBlades] it leaves, whatever the
    vector held before. *)
Definition generateGrass : M (list GrassBlade) := generateGrass_for 3000 [].

(** ** Sessions and the invariants of runs *)

(** The session fields: what a key press leaves alone unless it starts
    a game. *)
Definition sameSession (a a' : Application) : Prop :=
  snake a' = snake a /\ foodItems a' = foodItems a /\
  obstacles a' = obstacles a /\ score a' = score a /\
  highScore a' = highScore a /\ sparkles a' = sparkles a /\
  lastMoveTime a' = lastMoveTime a /\ animationTime a' = animationTime a.

Definition inSession (a : Application) : Prop :=
  state a = PLAYING \/ state a = PAUSED.

(** What a session keeps under a key press that does not start a game:
    it stays a session only if it was one, with the same counts
    configured. *)
Definition staysSession (a a' : Application) : Prop :=
  inSession a' ->
  inSession a /\ numFoodItems a' = numFoodItems a /\
  numObstacles a' = numObstacles a.

Ltac session_step Hst :=
  let H := fresh "H" in
  unfold staysSession; intros H; unfold inSession in *;
  first [ split; [exact H | split; reflexivity]
        | split; [rewrite Hst; solve [auto] | split; reflexivity]
        | destruct H as [H | H]; discriminate H ].

(** A cell whose coordinates are multiples of the grid step. *)
Definition onGrid (p : Point) : Prop :=
  (GRID_SIZE | pt_x p) /\ (GRID_SIZE | pt_y p).

(** Each segment is one wrapped grid step ahead of the next one. *)
Fixpoint chained (l : list Point) : Prop :=
  match l with
  | p :: (q :: _) as rest =>
      (exists d, unitDirection d /\ p = newHead q d) /\ chained rest
  | _ => True
  end.

(** The shape every snake of a run has. *)
Record SnakeInv (a : Application) : Prop := {
  snake_nodup : NoDup (snake a);
  snake_onGrid : Forall onGrid (snake a);
  snake_chained : chained (snake a);
  snake_nonempty : inSession a -> snake a <> []
}.

(** The bounds every score of a run has. *)
Definition ScoreInv (a : Application) : Prop :=
  0 <= score a <= highScore a.

(** The range every highlighted index of a run has. *)
Record MenuInv (a : Application) : Prop := {
  menu_selectedOption : 0 <= selectedOption a < 4;
  menu_pauseMenuOption : pauseMenuOption a = 0 \/ pauseMenuOption a = 1;
  menu_configOption : 0 <= configOption a <= ConfigOption_to_int EXIT;
  menu_modeMenuOption : modeMenuOption a = 0 \/ modeMenuOption a = 1
}.

(** The sizes a session of a run has. *)
Definition CountInv (a : Application) : Prop :=
  inSession a ->
  Z.of_nat (length (snake a)) = score a + 1 /\
  Z.of_nat (length (foodItems a)) = numFoodItems a /\
  Z.of_nat (length (obstacles a)) = numObstacles a + 5 * score a.

(** No obstacle under the snake. *)
Definition ObstInv (a : Application) : Prop :=
  forall p, In p (obstacles a) -> ~ In p (snake a).

(** Frames in which no event is polled. *)
Definition idle_frames (ticks : list Z) : list (list SDL_Event * Z) :=
  map (fun currentTime => ([], currentTime)) ticks.

(** [animationTime] after [n] update calls. *)
Definition animationTime_after (n : nat) (v : f32) : f32 :=
  Nat.iter n (fun x => f32_add x (f32_lit 2 2)) v.

(** A run of two frames from the constructed application: "Start
    Game" is confirmed in the first, the snake eats in the second. *)
Definition demo_frames : list (list SDL_Event * Z) :=
  [([SDL_KEYDOWN SDLK_RETURN], 0); ([], 100)].

Definition demo_frames_result : Application :=
  Eval vm_compute in
    result_of (run demo_frames Application_init (eat_rs ++ tick_rs))
              Application_init.

(** ** Where the spawners put cells *)

(** A cell of the playing field: inside the canvas, on the grid. *)
Definition fieldCell (p : Point) : Prop := inBounds p /\ onGrid p.

(** The values [std::rand()] returns are not negative. *)
Definition randValues (rs : list Z) : Prop := Forall (fun r => 0 <= r) rs.

Definition FieldInv (a : Application) : Prop :=
  Forall fieldCell (foodItems a) /\ Forall fieldCell (obstacles a).

(** ** Two turns between two ticks *)

Definition opposite (d : Point) : Point := mkPoint (- pt_x d) (- pt_y d).

(** A key that turns the snake off the axis of [d], and the key that
    asks for the direction opposite to [d]. *)
Definition sideKey (d : Point) : SDL_Keycode :=
  if pt_y d =? 0 then SDLK_UP else SDLK_LEFT.

Definition backKey (d : Point) : SDL_Keycode :=
  if pt_y d =? 0
  then (if 0 <? pt_x d then SDLK_LEFT else SDLK_RIGHT)
  else (if 0 <? pt_y d then SDLK_UP else SDLK_DOWN).

(** ** How long a sparkle lives *)

(** The life of a sparkle of a collision burst after [k] decay passes. *)
Definition life_after (k : nat) : f32 :=
  Nat.iter k (fun life => f32_sub life (f32_lit 5 2)) (f32_of_int 1).

(** Every sparkle has been through at least [n] and fewer than 20
    decay passes. *)
Definition agedFrom (n : nat) (a : Application) : Prop :=
  Forall (fun s => exists k, (n <= k < 20)%nat /\ sp_life s = life_after k)
         (sparkles a).

(** ** The game mode is display only *)

(** The result [r] of a computation, with the game mode set to [m]. *)
Definition with_gameMode (m : GameMode) (r : option (Application * list Z))
  : option (Application * list Z) :=
  match r with
  | Some (a, rs) => Some (set_gameMode m a, rs)
  | None => None
  end.

(** ** The sampling loop *)

(** The cell drawn by pass [k] of the sampling loop on [rs]. *)
Definition cellAt (rs : list Z) (k : nat) : Point :=
  randomCell (nth (2 * k) rs 0) (nth (2 * k + 1) rs 0).

(** ** The draws of the sampling loops, read off the random sequence *)

(** The cells a random sequence draws, pair by pair. *)
Fixpoint cells (rs : list Z) : list Point :=
  match rs with
  | rx :: ry :: rs' => randomCell rx ry :: cells rs'
  | _ => []
  end.

(** The values left after the first pair whose cell passes [valid]. *)
Fixpoint skip_valid (valid : Point -> bool) (rs : list Z) : list Z :=
  match rs with
  | rx :: ry :: rs' =>
      if valid (randomCell rx ry) then rs' else skip_valid valid rs'
  | _ => []
  end.

(** The values left after [n] cells that pass [valid]. *)
Definition unread (valid : Point -> bool) (n : nat) (rs : list Z) : list Z :=
  Nat.iter n (skip_valid valid) rs.

(** The first [n] cells of the sequence that pass [valid], with the
    values left after them; nothing when fewer than [n] cells pass. *)
Definition drawn (valid : Point -> bool) (n : nat) (rs : list Z)
  : option (list Point * list Z) :=
  let free := filter valid (cells rs) in
  if (n <=? length free)%nat
  then Some (firstn n free, unread valid n rs)
  else None.

(** What an eating tick draws once the new head [h] is on the snake:
    the configured number of cells off the snake and off the obstacles,
    then five cells off the snake and off that food. *)
Definition eatDraws (a : Application) (h : Point) (rs : list Z)
  : option (list Point * list Point * list Z) :=
  match drawn (fun p => negb (hits p (h :: snake a))
                        && negb (hits p (obstacles a)))
              (Z.to_nat (numFoodItems a)) rs with
  | None => None
  | Some (food, rs1) =>
      match drawn (fun p => negb (hits p (h :: snake a))
                            && negb (hits p food)) 5 rs1 with
      | None => None
      | Some (obs, rs2) => Some (food, obs, rs2)
      end
  end.

(** What a reset draws: the configured number of food cells off the
    centre, then the configured number of obstacle cells off the centre
    and off that food. *)
Definition resetDraws (a : Application) (rs : list Z)
  : option (list Point * list Point * list Z) :=
  match drawn (fun p => negb (Point_eqb p centre))
              (Z.to_nat (numFoodItems a)) rs with
  | None => None
  | Some (food, rs1) =>
      match drawn (fun p => negb (Point_eqb p centre) && negb (hits p food))
                  (Z.to_nat (numObstacles a)) rs1 with
      | None => None
      | Some (obs, rs2) => Some (food, obs, rs2)
      end
  end.

(** The cells of the board. *)
Definition board : list Point :=
  flat_map (fun x => map (fun y => mkPoint x y) (grid_steps SCREEN_HEIGHT))
           (grid_steps SCREEN_WIDTH).

(** ** Sessions on a board with no free cell *)










(** The session of [demo_playing] after nineteen moves to the right:
    the head is on the last column. *)
Definition edge_ticks : list Z :=
  map (fun k => 100 * Z.of_nat k) (seq 1 19).

Definition demo_edge : Application :=
  Eval vm_compute in
    result_of (run (idle_frames edge_ticks) demo_playing []) demo_playing.


(** * Properties *)

(** ** Cells and scans *)

Lemma Point_eqb_eq (p q : Point) : Point_eqb p q = true <-> p = q.
Proof.
  destruct p as [px py], q as [qx qy]; unfold Point_eqb; simpl.
  rewrite andb_true_iff, !Z.eqb_eq.
  split; [intros [-> ->]; reflexivity | intros H; inversion H; auto].
Qed.

Lemma hits_In (p : Point) (v : list Point) : hits p v = true <-> In p v.
Proof.
  unfold hits; rewrite existsb_exists; split.
  - intros [q [Hq Heq]]. apply Point_eqb_eq in Heq. now subst.
  - intros Hin. exists p. split; [assumption | now apply Point_eqb_eq].
Qed.

Lemma hits_false (p : Point) (v : list Point) :
  hits p v = false <-> ~ In p v.
Proof.
  rewrite <- hits_In. destruct (hits p v); split; congruence.
Qed.

Lemma foodValid_spec (a : Application) (p : Point) :
  foodValid a p = true <-> ~ In p (snake a) /\ ~ In p (obstacles a).
Proof.
  unfold foodValid. now rewrite andb_true_iff, !negb_true_iff, !hits_false.
Qed.

Lemma obstacleValid_spec (a : Application) (p : Point) :
  obstacleValid a p = true <-> ~ In p (snake a) /\ ~ In p (foodItems a).
Proof.
  unfold obstacleValid.
  now rewrite andb_true_iff, !negb_true_iff, !hits_false.
Qed.

(** ** The sampling loop *)

(** Induction two values at a time, the way the loop reads them. *)
Lemma list_pair_ind (P : list Z -> Prop) :
  P [] -> (forall r, P [r]) ->
  (forall rx ry rs, P rs -> P (rx :: ry :: rs)) ->
  forall rs, P rs.
Proof.
  intros H0 H1 H2.
  fix IH 1. intros [|rx [|ry rs]]; [exact H0 | apply H1 | apply H2, IH].
Qed.

Lemma spawn_while_valid (valid : Point -> bool) (rs : list Z) p rs' :
  spawn_while valid rs = Some (p, rs') -> valid p = true.
Proof.
  induction rs as [| r | rx ry rs IH] using list_pair_ind;
    simpl; try discriminate.
  destruct (valid (randomCell rx ry)) eqn:Hv; [|exact IH].
  now intros [= <- _].
Qed.

(** ** The two spawners *)

Lemma spawnFood_for_spec (n : nat) : forall a rs a' rs',
  spawnFood_for n a rs = Some (a', rs') ->
  exists fresh,
    a' = set_foodItems (foodItems a ++ fresh) a /\
    length fresh = n /\
    Forall (fun p => foodValid a p = true) fresh.
Proof.
  induction n as [|n IH]; intros a rs a' rs'; simpl.
  - intros [= <- _]. exists []. rewrite app_nil_r. now destruct a.
  - unfold bind. destruct (spawn_while (foodValid a) rs) as [[p rs1]|] eqn:Hp;
      [|discriminate].
    intros Hrun. apply IH in Hrun as (fresh & -> & Hlen & Hall).
    exists (p :: fresh). simpl. rewrite <- app_assoc. simpl.
    repeat split; [now rewrite Hlen|].
    constructor; [now apply spawn_while_valid in Hp | exact Hall].
Qed.

Lemma spawnObstacles_for_spec (n : nat) : forall a rs a' rs',
  spawnObstacles_for n a rs = Some (a', rs') ->
  exists fresh,
    a' = set_obstacles (obstacles a ++ fresh) a /\
    length fresh = n /\
    Forall (fun p => obstacleValid a p = true) fresh.
Proof.
  induction n as [|n IH]; intros a rs a' rs'; simpl.
  - intros [= <- _]. exists []. rewrite app_nil_r. now destruct a.
  - unfold bind.
    destruct (spawn_while (obstacleValid a) rs) as [[p rs1]|] eqn:Hp;
      [|discriminate].
    intros Hrun. apply IH in Hrun as (fresh & -> & Hlen & Hall).
    exists (p :: fresh). simpl. rewrite <- app_assoc. simpl.
    repeat split; [now rewrite Hlen|].
    constructor; [now apply spawn_while_valid in Hp | exact Hall].
Qed.

(** [spawnFood] reads the snake, the obstacles and the food list only. *)
Lemma spawn_while_ext (v1 v2 : Point -> bool) (rs : list Z) :
  (forall p, v1 p = v2 p) -> spawn_while v1 rs = spawn_while v2 rs.
Proof.
  intros Hext.
  induction rs as [| r | rx ry rs IH] using list_pair_ind;
    simpl; try reflexivity.
  rewrite Hext, IH. reflexivity.
Qed.

Lemma spawnFood_for_agree (n : nat) : forall a b rs,
  snake a = snake b -> obstacles a = obstacles b ->
  foodItems a = foodItems b ->
  match spawnFood_for n a rs, spawnFood_for n b rs with
  | Some (a', ra), Some (b', rb) => foodItems a' = foodItems b' /\ ra = rb
  | None, None => True
  | _, _ => False
  end.
Proof.
  induction n as [|n IH]; intros a b rs Hs Ho Hf; simpl.
  - now split.
  - unfold bind.
    rewrite (spawn_while_ext (foodValid a) (foodValid b)).
    + destruct (spawn_while (foodValid b) rs) as [[p rs1]|]; [|exact I].
      apply IH; simpl; congruence.
    + intros p. unfold foodValid. now rewrite Hs, Ho.
Qed.

(** ** Reset *)

Lemma resetGame_spec (a : Application) rs a' rs' :
  resetGame a rs = Some (a', rs') ->
  exists food obs,
    a' = set_obstacles obs
           (set_foodItems food
              (set_score 0
                 (set_direction (mkPoint 1 0) (set_snake [centre] a)))) /\
    length food = Z.to_nat (numFoodItems a) /\
    length obs = Z.to_nat (numObstacles a) /\
    (forall p, In p food -> p <> centre) /\
    (forall p, In p obs -> p <> centre /\ ~ In p food).
Proof.
  unfold resetGame, bind, spawnFood.
  match goal with
  | |- context [spawnFood_for ?n ?b rs] =>
      destruct (spawnFood_for n b rs) as [[a1 rs1]|] eqn:Hfood
  end; [|discriminate].
  intros Hobs.
  apply spawnFood_for_spec in Hfood as (food & -> & Hlf & Hvf).
  apply spawnObstacles_for_spec in Hobs as (obs & -> & Hlo & Hvo).
  exists food, obs. simpl in *.
  rewrite Forall_forall in Hvf, Hvo.
  split; [reflexivity|]. split; [assumption|]. split; [assumption|].
  split.
  - intros p Hp ->. apply Hvf, foodValid_spec in Hp. simpl in Hp.
    apply (proj1 Hp). now left.
  - intros p Hp. apply Hvo, obstacleValid_spec in Hp. simpl in Hp.
    split; [|exact (proj2 Hp)].
    intros ->. apply (proj1 Hp). now left.
Qed.

(** ** The invariant *)

Lemma centre_inBounds : inBounds centre.
Proof. unfold inBounds, centre; simpl. vm_compute. intuition congruence. Qed.

Lemma newHead_inBounds (head dir : Point) :
  inBounds head -> unitDirection dir -> inBounds (newHead head dir).
Proof.
  unfold inBounds, newHead, SCREEN_WIDTH, SCREEN_HEIGHT, GRID_SIZE.
  intros [Hx Hy] [-> | [-> | [-> | ->]]]; simpl;
    repeat match goal with
           | |- context [?u <? ?v] => destruct (Z.ltb_spec u v)
           | |- context [?u <=? ?v] => destruct (Z.leb_spec u v)
           end; simpl; lia.
Qed.

Lemma Inv_init : Inv Application_init.
Proof.
  constructor; simpl.
  - lia.
  - lia.
  - now left.
  - constructor.
  - intros p [].
Qed.

(** The invariant reads six fields; a state that agrees on them has it. *)
Lemma Inv_ext (a b : Application) :
  numFoodItems b = numFoodItems a -> numObstacles b = numObstacles a ->
  direction b = direction a -> snake b = snake a ->
  foodItems b = foodItems a -> obstacles b = obstacles a ->
  Inv a -> Inv b.
Proof.
  intros E1 E2 E3 E4 E5 E6 [H1 H2 H3 H4 H5].
  constructor; rewrite ?E1, ?E2, ?E3, ?E4, ?E5, ?E6; assumption.
Qed.

Lemma Inv_resetGame (a : Application) rs a' rs' :
  0 <= numFoodItems a -> 0 <= numObstacles a ->
  resetGame a rs = Some (a', rs') -> Inv a'.
Proof.
  intros Hf Ho Hrun.
  apply resetGame_spec in Hrun as (food & obs & -> & _ & _ & Hfc & Hoc).
  constructor; simpl; try assumption.
  - now left.
  - constructor; [exact centre_inBounds | constructor].
  - intros p Hp. split.
    + intros [<- | []]. now apply (Hfc centre).
    + intros Hin. now apply Hoc in Hin.
Qed.

(** ** The paths through [update] *)

Lemma highScore_commit (a : Application) :
  (if highScore a <? score a then set_highScore (score a) a else a)
  = set_highScore (Z.max (highScore a) (score a)) a.
Proof.
  destruct a; unfold set_highScore; simpl.
  destruct (Z.ltb_spec highScore0 score0); f_equal; lia.
Qed.

Lemma update_not_playing (currentTime : Z) (a : Application) :
  state a <> PLAYING ->
  update currentTime a
  = ret (set_animationTime (f32_add (animationTime a) (f32_lit 2 2)) a).
Proof.
  intros Hst. unfold update. cbn [state set_animationTime].
  destruct (state a); try reflexivity. now elim Hst.
Qed.

Lemma update_waiting (currentTime : Z) (a : Application) :
  state a = PLAYING -> ~ intervalElapsed currentTime a ->
  update currentTime a
  = ret (set_animationTime (f32_add (animationTime a) (f32_lit 2 2)) a).
Proof.
  intros Hst Hwait. unfold update.
  cbn [state set_animationTime lastMoveTime snakeSpeed].
  rewrite Hst. cbn [GameState_eqb negb].
  unfold intervalElapsed in Hwait.
  destruct (Z.ltb_spec (to_u32 (currentTime - lastMoveTime a))
                       (to_u32 (snakeSpeed a))); [reflexivity | contradiction].
Qed.

Lemma update_empty (currentTime : Z) (a : Application) :
  state a = PLAYING -> intervalElapsed currentTime a -> snake a = [] ->
  update currentTime a = ret (decaySparkles (ticked currentTime a)).
Proof.
  intros Hst Hel Hsn. enter_update Hst Hel. now rewrite Hsn.
Qed.

Lemma update_collision (currentTime : Z) (a : Application) head tl :
  state a = PLAYING -> intervalElapsed currentTime a ->
  snake a = head :: tl ->
  In (newHead head (direction a)) (snake a) \/
  In (newHead head (direction a)) (obstacles a) ->
  update currentTime a = handleCollision (ticked currentTime a).
Proof.
  intros Hst Hel Hsn Hhit. enter_update Hst Hel. rewrite Hsn in *.
  destruct (hits _ (head :: tl)) eqn:Hself; [reflexivity|].
  destruct Hhit as [Hhit | Hhit].
  - apply hits_In in Hhit. congruence.
  - apply hits_In in Hhit. now rewrite Hhit.
Qed.

Lemma update_move (currentTime : Z) (a : Application) head tl :
  state a = PLAYING -> intervalElapsed currentTime a ->
  snake a = head :: tl ->
  ~ In (newHead head (direction a)) (snake a) ->
  ~ In (newHead head (direction a)) (obstacles a) ->
  ~ In (newHead head (direction a)) (foodItems a) ->
  update currentTime a
  = ret (decaySparkles
           (set_snake (removelast (newHead head (direction a) :: snake a))
                      (ticked currentTime a))).
Proof.
  intros Hst Hel Hsn Hself Hobst Hfood. enter_update Hst Hel.
  apply hits_false in Hself, Hobst, Hfood.
  rewrite Hsn in *. rewrite Hself, Hobst.
  cbn [foodItems set_snake ticked set_lastMoveTime set_animationTime].
  now rewrite Hfood.
Qed.

Lemma update_eat (currentTime : Z) (a : Application) head tl :
  state a = PLAYING -> intervalElapsed currentTime a ->
  snake a = head :: tl ->
  ~ In (newHead head (direction a)) (snake a) ->
  ~ In (newHead head (direction a)) (obstacles a) ->
  In (newHead head (direction a)) (foodItems a) ->
  update currentTime a
  = (a1 <- spawnFood
             (set_foodItems []
                (set_highScore (Z.max (highScore a) (score a + 1))
                   (set_score (score a + 1)
                      (set_snake (newHead head (direction a) :: snake a)
                                 (ticked currentTime a))))) ;;
     a2 <- spawnObstacles 5 a1 ;;
     ret (decaySparkles a2)).
Proof.
  intros Hst Hel Hsn Hself Hobst Hfood. enter_update Hst Hel.
  apply hits_false in Hself, Hobst. apply hits_In in Hfood.
  rewrite Hsn in *. rewrite Hself, Hobst.
  cbn [foodItems set_snake ticked set_lastMoveTime set_animationTime].
  rewrite Hfood. rewrite highScore_commit. reflexivity.
Qed.

Lemma handleCollision_spec (a : Application) head tl rs a' rs' :
  snake a = head :: tl ->
  handleCollision a rs = Some (a', rs') ->
  exists food obs,
    a' = set_obstacles obs
           (set_foodItems food
              (set_score 0
                 (set_direction (mkPoint 1 0)
                    (set_snake [centre]
                       (set_highScore (Z.max (highScore a) (score a))
                          (set_sparkles
                             (sparkles a ++ repeat (collisionSparkle head) 20)
                             a)))))) /\
    length food = Z.to_nat (numFoodItems a) /\
    length obs = Z.to_nat (numObstacles a) /\
    (forall p, In p food -> p <> centre) /\
    (forall p, In p obs -> p <> centre /\ ~ In p food).
Proof.
  intros Hsn. unfold handleCollision. rewrite Hsn.
  rewrite highScore_commit. intros Hrun.
  apply resetGame_spec in Hrun as (food & obs & -> & Hrest).
  exists food, obs. split; [reflexivity | exact Hrest].
Qed.

(** ** Preservation of the invariant *)

Lemma In_removelast_In (p : Point) (l : list Point) :
  In p (removelast l) -> In p l.
Proof.
  induction l as [|q [|q' l] IH]; simpl; [tauto | tauto |].
  intros [-> | Hin]; [now left | right; exact (IH Hin)].
Qed.

Lemma Inv_set_state (st : GameState) (a : Application) :
  Inv a -> Inv (set_state st a).
Proof. now apply Inv_ext. Qed.

Lemma mainMenuSelection_cases (a : Application) :
  (selectedOption a = 0 /\ mainMenuSelection a = startGame a) \/
  (selectedOption a = 1 /\
   mainMenuSelection a = ret (set_state CONFIG_MENU a)) \/
  (selectedOption a = 2 /\
   mainMenuSelection a = ret (set_state MODE_MENU a)) \/
  (selectedOption a = 3 /\ mainMenuSelection a = ret (set_state QUIT a)) \/
  ((selectedOption a < 0 \/ 3 < selectedOption a) /\
   mainMenuSelection a = ret a).
Proof.
  unfold mainMenuSelection.
  destruct (selectedOption a) as [|p|p].
  - now left.
  - destruct p as [[p|p|]|[p|p|]|]; auto 6;
      do 4 right; (split; [right; lia | reflexivity]).
  - do 4 right. split; [left; lia | reflexivity].
Qed.

Lemma Inv_adjustConfigOption (increase : bool) (a : Application) :
  Inv a -> Inv (adjustConfigOption increase a).
Proof.
  intros HInv. unfold adjustConfigOption.
  destruct (ConfigOption_of_int (configOption a)) as [[]|];
    destruct increase; try assumption;
    repeat match goal with
           | |- context [?u <? ?v] => destruct (Z.ltb_spec u v)
           end;
    try assumption; try (now apply (Inv_ext a));
    destruct HInv; constructor; simpl; auto; lia.
Qed.

Lemma Inv_onKeyDown (key : SDL_Keycode) (a : Application) rs a' rs' :
  Inv a -> onKeyDown key a rs = Some (a', rs') -> Inv a'.
Proof.
  intros HInv.
  destruct key; simpl; destruct (state a) eqn:Hst; unfold modeSelection;
    repeat match goal with
           | |- context [if ?c then _ else _] => destruct c
           end;
    try (unfold ret; intros [= <- _];
         first [ assumption
               | now apply (Inv_ext a)
               | now apply Inv_adjustConfigOption
               | apply Inv_set_state; now apply (Inv_ext a)
               | solve [ destruct HInv; constructor; simpl; auto;
                         unfold unitDirection; auto ] ]).
  destruct (mainMenuSelection_cases a)
    as [[_ ->] | [[_ ->] | [[_ ->] | [[_ ->] | [_ ->]]]]];
    try (unfold ret; intros [= <- _];
         first [assumption | now apply Inv_set_state]).
  unfold startGame. intros Hrun.
  apply Inv_resetGame in Hrun; [assumption | apply HInv | apply HInv].
Qed.

Lemma Inv_handleEvent (event : SDL_Event) (a : Application) rs a' rs' :
  Inv a -> handleEvent event a rs = Some (a', rs') -> Inv a'.
Proof.
  intros HInv. destruct event; simpl.
  - unfold ret. intros [= <- _]. now apply (Inv_ext a).
  - now apply Inv_onKeyDown.
  - unfold ret. now intros [= <- _].
Qed.

Lemma Inv_handleCollision (a : Application) rs a' rs' :
  0 <= numFoodItems a -> 0 <= numObstacles a ->
  handleCollision a rs = Some (a', rs') -> Inv a'.
Proof.
  intros Hf Ho. unfold handleCollision.
  destruct (snake a) as [|head tl]; [discriminate|].
  destruct (highScore _ <? score _); intros Hrun;
    now apply Inv_resetGame in Hrun.
Qed.


(** What a tick that eats leaves behind. *)
Lemma update_eat_spec (currentTime : Z) (a : Application) head tl
  rs a' rs' :
  state a = PLAYING -> intervalElapsed currentTime a ->
  snake a = head :: tl ->
  ~ In (newHead head (direction a)) (snake a) ->
  ~ In (newHead head (direction a)) (obstacles a) ->
  In (newHead head (direction a)) (foodItems a) ->
  update currentTime a rs = Some (a', rs') ->
  exists food obs rs1,
    a' = decaySparkles
           (set_obstacles (obstacles a ++ obs)
              (set_foodItems food
                 (set_highScore (Z.max (highScore a) (score a + 1))
                    (set_score (score a + 1)
                       (set_snake (newHead head (direction a) :: snake a)
                          (ticked currentTime a)))))) /\
    spawnFood (set_foodItems []
                 (set_snake (newHead head (direction a) :: snake a) a)) rs
    = Some (set_foodItems food
              (set_snake (newHead head (direction a) :: snake a) a), rs1) /\
    length food = Z.to_nat (numFoodItems a) /\
    length obs = 5%nat /\
    (forall p, In p food ->
       ~ In p (newHead head (direction a) :: snake a) /\
       ~ In p (obstacles a)) /\
    (forall p, In p obs ->
       ~ In p (newHead head (direction a) :: snake a) /\ ~ In p food).
Proof.
  intros Hst Hel Hsn Hself Hobst Hfood Hrun.
  rewrite (update_eat currentTime a head tl Hst Hel Hsn Hself Hobst Hfood)
    in Hrun.
  unfold bind in Hrun.
  match type of Hrun with
  | context [spawnFood ?b rs] =>
      pose proof (spawnFood_for_agree (Z.to_nat (numFoodItems a))
                    (set_foodItems []
                       (set_snake (newHead head (direction a) :: snake a) a))
                    b rs eq_refl eq_refl eq_refl) as Hagree;
      destruct (spawnFood b rs) as [[a1 rs1]|] eqn:Hsf
  end; [|discriminate].
  destruct (spawnObstacles 5 a1 rs1) as [[a2 rs2]|] eqn:Hso; [|discriminate].
  injection Hrun as <- _.
  unfold spawnFood in Hsf.
  change (Z.to_nat (numFoodItems _)) with (Z.to_nat (numFoodItems a)) in Hsf.
  rewrite Hsf in Hagree.
  destruct (spawnFood_for (Z.to_nat (numFoodItems a))
              (set_foodItems []
                 (set_snake (newHead head (direction a) :: snake a) a)) rs)
    as [[b rb]|] eqn:Hb; [|contradiction].
  destruct Hagree as [Hfoods ->].
  apply spawnFood_for_spec in Hsf as (food & -> & Hlf & Hvf).
  apply spawnObstacles_for_spec in Hso as (obs & -> & Hlo & Hvo).
  destruct (spawnFood_for_spec _ _ _ _ _ Hb) as (food' & -> & _ & _).
  cbn [foodItems set_foodItems app] in Hfoods. subst food'.
  rewrite Forall_forall in Hvf, Hvo.
  exists food, obs, rs1.
  split; [reflexivity|].
  split; [exact Hb|].
  split; [exact Hlf|]. split; [exact Hlo|].
  split.
  - intros p Hp. apply Hvf, foodValid_spec in Hp. exact Hp.
  - intros p Hp. apply Hvo, obstacleValid_spec in Hp. exact Hp.
Qed.

Lemma Inv_update (currentTime : Z) (a : Application) rs a' rs' :
  Inv a -> update currentTime a rs = Some (a', rs') -> Inv a'.
Proof.
  intros HInv Hrun.
  destruct (state a) eqn:Hst;
    try (rewrite update_not_playing in Hrun by congruence;
         injection Hrun as <- _; now apply (Inv_ext a)).
  destruct (Z_le_gt_dec (to_u32 (snakeSpeed a))
                        (to_u32 (currentTime - lastMoveTime a)))
    as [Hel | Hwait].
  2:{ rewrite update_waiting in Hrun
        by (try assumption; unfold intervalElapsed; lia).
      injection Hrun as <- _. now apply (Inv_ext a). }
  destruct (snake a) as [|head tl] eqn:Hsn.
  { rewrite update_empty in Hrun by assumption.
    injection Hrun as <- _. now apply (Inv_ext a). }
  destruct HInv as [Hf Ho Hdir Hsnake Hfree].
  assert (Hnew : inBounds (newHead head (direction a))).
  { apply newHead_inBounds; [|assumption].
    rewrite Hsn in Hsnake. now inversion Hsnake. }
  destruct (hits (newHead head (direction a)) (snake a)) eqn:Hself.
  { apply hits_In in Hself.
    rewrite (update_collision currentTime a head tl) in Hrun
      by (try assumption; now left).
    now apply Inv_handleCollision in Hrun. }
  destruct (hits (newHead head (direction a)) (obstacles a)) eqn:Hobst.
  { apply hits_In in Hobst.
    rewrite (update_collision currentTime a head tl) in Hrun
      by (try assumption; now right).
    now apply Inv_handleCollision in Hrun. }
  apply hits_false in Hself, Hobst.
  destruct (hits (newHead head (direction a)) (foodItems a)) eqn:Heat.
  - apply hits_In in Heat.
    destruct (update_eat_spec currentTime a head tl rs a' rs'
                Hst Hel Hsn Hself Hobst Heat Hrun)
      as (food & obs & rs1 & -> & _ & _ & _ & Hvf & Hvo).
    constructor; try assumption.
    + change (Forall inBounds (newHead head (direction a) :: snake a)).
      constructor; assumption.
    + intros p Hp. change (In p food) in Hp.
      change (~ In p (newHead head (direction a) :: snake a) /\
              ~ In p (obstacles a ++ obs)).
      split; [exact (proj1 (Hvf p Hp))|].
      rewrite in_app_iff. intros [Hin | Hin].
      * exact (proj2 (Hvf p Hp) Hin).
      * exact (proj2 (Hvo p Hin) Hp).
  - apply hits_false in Heat.
    rewrite (update_move currentTime a head tl) in Hrun by assumption.
    injection Hrun as <- _.
    constructor; try assumption.
    + change (Forall inBounds
                (removelast (newHead head (direction a) :: snake a))).
      apply Forall_forall. intros p Hp.
      apply In_removelast_In in Hp.
      destruct Hp as [<- | Hp]; [assumption|].
      rewrite Forall_forall in Hsnake. now apply Hsnake.
    + intros p Hp.
      change (~ In p (removelast (newHead head (direction a) :: snake a))
              /\ ~ In p (obstacles a)).
      change (In p (foodItems a)) in Hp.
      split; [|now apply Hfree].
      intros Hin. apply In_removelast_In in Hin.
      destruct Hin as [<- | Hin]; [now apply Heat|].
      exact (proj1 (Hfree p Hp) Hin).
Qed.
(** Every state of a run has the invariant. *)
Lemma reachable_Inv (a : Application) : reachable a -> Inv a.
Proof.
  induction 1 as [| a event rs a' rs' _ IH Hrun
                  | a currentTime rs a' rs' _ IH Hrun].
  - exact Inv_init.
  - exact (Inv_handleEvent _ _ _ _ _ IH Hrun).
  - exact (Inv_update _ _ _ _ _ IH Hrun).
Qed.

(** ** The high score never decreases *)

Lemma adjustConfigOption_highScore (increase : bool) (a : Application) :
  highScore (adjustConfigOption increase a) = highScore a.
Proof.
  unfold adjustConfigOption.
  destruct (ConfigOption_of_int (configOption a)) as [[]|];
    destruct increase; try reflexivity;
    match goal with
    | |- context [?u <? ?v] => destruct (u <? v); reflexivity
    end.
Qed.

Lemma resetGame_highScore (a : Application) rs a' rs' :
  resetGame a rs = Some (a', rs') -> highScore a' = highScore a.
Proof.
  intros Hrun.
  apply resetGame_spec in Hrun as (food & obs & -> & _). reflexivity.
Qed.

Lemma handleEvent_highScore (event : SDL_Event) (a : Application)
  rs a' rs' :
  handleEvent event a rs = Some (a', rs') -> highScore a' = highScore a.
Proof.
  destruct event as [|key|]; simpl;
    try (unfold ret; intros [= <- _]; reflexivity).
  destruct key; simpl; destruct (state a) eqn:Hst; unfold modeSelection;
    repeat match goal with
           | |- context [if ?c then _ else _] => destruct c
           end;
    try (unfold ret; intros [= <- _];
         first [reflexivity | apply adjustConfigOption_highScore]).
  destruct (mainMenuSelection_cases a)
    as [[_ ->] | [[_ ->] | [[_ ->] | [[_ ->] | [_ ->]]]]];
    try (unfold ret; intros [= <- _]; reflexivity).
  unfold startGame. intros Hrun.
  now apply resetGame_highScore in Hrun.
Qed.

Lemma update_highScore (currentTime : Z) (a : Application) rs a' rs' :
  update currentTime a rs = Some (a', rs') -> highScore a <= highScore a'.
Proof.
  intros Hrun.
  destruct (state a) eqn:Hst;
    try (rewrite update_not_playing in Hrun by congruence;
         injection Hrun as <- _; apply Z.le_refl).
  destruct (Z_le_gt_dec (to_u32 (snakeSpeed a))
                        (to_u32 (currentTime - lastMoveTime a)))
    as [Hel | Hwait].
  2:{ rewrite update_waiting in Hrun
        by (try assumption; unfold intervalElapsed; lia).
      injection Hrun as <- _. apply Z.le_refl. }
  destruct (snake a) as [|head tl] eqn:Hsn.
  { rewrite update_empty in Hrun by assumption.
    injection Hrun as <- _. apply Z.le_refl. }
  assert (Hcollide :
            In (newHead head (direction a)) (snake a) \/
            In (newHead head (direction a)) (obstacles a) ->
            highScore a <= highScore a').
  { intros Hhit.
    rewrite (update_collision currentTime a head tl Hst Hel Hsn Hhit)
      in Hrun.
    apply (handleCollision_spec _ head tl) in Hrun; [|exact Hsn].
    destruct Hrun as (food & obs & -> & _).
    change (highScore a <= Z.max (highScore a) (score a)). lia. }
  destruct (hits (newHead head (direction a)) (snake a)) eqn:Hself;
    [apply hits_In in Hself; now apply Hcollide; left|].
  destruct (hits (newHead head (direction a)) (obstacles a)) eqn:Hobst;
    [apply hits_In in Hobst; now apply Hcollide; right|].
  apply hits_false in Hself, Hobst.
  destruct (hits (newHead head (direction a)) (foodItems a)) eqn:Heat.
  - apply hits_In in Heat.
    destruct (update_eat_spec currentTime a head tl rs a' rs'
                Hst Hel Hsn Hself Hobst Heat Hrun)
      as (food & obs & rs1 & -> & _).
    change (highScore a <= Z.max (highScore a) (score a + 1)). lia.
  - apply hits_false in Heat.
    rewrite (update_move currentTime a head tl) in Hrun by assumption.
    injection Hrun as <- _. apply Z.le_refl.
Qed.

Lemma steps_highScore (a b : Application) :
  steps a b -> highScore a <= highScore b.
Proof.
  induction 1 as [a | a event rs a1 rs1 b Hev _ IH
                    | a currentTime rs a1 rs1 b Hup _ IH].
  - apply Z.le_refl.
  - apply handleEvent_highScore in Hev. lia.
  - apply update_highScore in Hup. lia.
Qed.

(** ** Sequences on which the spawners return *)

(** A sequence that draws one free cell [n] times: the loop returns at
    once each time, and the same cell is placed [n] times. *)
Lemma spawnFood_for_returns (n : nat) : forall a rx ry,
  foodValid a (randomCell rx ry) = true ->
  spawnFood_for n a (concat (repeat [rx; ry] n))
  = Some (set_foodItems (foodItems a ++ repeat (randomCell rx ry) n) a, []).
Proof.
  induction n as [|n IH]; intros a rx ry Hvalid.
  - simpl. unfold ret. now rewrite app_nil_r.
  - change (concat (repeat [rx; ry] (S n)))
      with (rx :: ry :: concat (repeat [rx; ry] n)).
    cbn [spawnFood_for]. unfold bind. cbn [spawn_while]. rewrite Hvalid.
    rewrite (IH _ rx ry) by exact Hvalid.
    cbn [repeat]. do 2 f_equal.
    change (set_foodItems
              ((foodItems a ++ [randomCell rx ry])
               ++ repeat (randomCell rx ry) n) a
            = set_foodItems
                (foodItems a ++ randomCell rx ry :: repeat (randomCell rx ry) n)
                a).
    now rewrite <- app_assoc.
Qed.

Lemma spawnObstacles_for_returns (n : nat) : forall a rx ry,
  obstacleValid a (randomCell rx ry) = true ->
  spawnObstacles_for n a (concat (repeat [rx; ry] n))
  = Some (set_obstacles (obstacles a ++ repeat (randomCell rx ry) n) a, []).
Proof.
  induction n as [|n IH]; intros a rx ry Hvalid.
  - simpl. unfold ret. now rewrite app_nil_r.
  - change (concat (repeat [rx; ry] (S n)))
      with (rx :: ry :: concat (repeat [rx; ry] n)).
    cbn [spawnObstacles_for]. unfold bind. cbn [spawn_while]. rewrite Hvalid.
    rewrite (IH _ rx ry) by exact Hvalid.
    cbn [repeat]. do 2 f_equal.
    change (set_obstacles
              ((obstacles a ++ [randomCell rx ry])
               ++ repeat (randomCell rx ry) n) a
            = set_obstacles
                (obstacles a ++ randomCell rx ry :: repeat (randomCell rx ry) n)
                a).
    now rewrite <- app_assoc.
Qed.

(** ** Concrete sessions *)

Lemma demo_playing_run :
  handleEvent (SDL_KEYDOWN SDLK_RETURN) Application_init demo_rs
  = Some (demo_playing, []).
Proof. vm_compute. reflexivity. Qed.

Lemma demo_playing_reachable : reachable demo_playing.
Proof. exact (reach_event _ _ _ _ _ reach_init demo_playing_run). Qed.

Lemma demo_eating_run :
  handleEvent (SDL_KEYDOWN SDLK_RETURN) Application_init eat_rs
  = Some (demo_eating, []).
Proof. vm_compute. reflexivity. Qed.

Lemma demo_eating_reachable : reachable demo_eating.
Proof. exact (reach_event _ _ _ _ _ reach_init demo_eating_run). Qed.

Lemma demo_colliding_run :
  handleEvent (SDL_KEYDOWN SDLK_RETURN) Application_init collide_rs
  = Some (demo_colliding, []).
Proof. vm_compute. reflexivity. Qed.

Lemma demo_colliding_reachable : reachable demo_colliding.
Proof. exact (reach_event _ _ _ _ _ reach_init demo_colliding_run). Qed.

Lemma reachable_handleEvents (events : list SDL_Event) :
  forall a rs a' rs',
    reachable a -> handleEvents events a rs = Some (a', rs') ->
    reachable a'.
Proof.
  induction events as [|e es IH]; intros a rs a' rs' Hreach; simpl.
  - unfold ret. now intros [= <- _].
  - unfold bind. destruct (handleEvent e a rs) as [[a1 rs1]|] eqn:He;
      [|discriminate].
    apply IH. exact (reach_event _ _ _ _ _ Hreach He).
Qed.

Lemma demo_turbo_run :
  handleEvents turbo_events Application_init demo_rs = Some (demo_turbo, []).
Proof. vm_compute. reflexivity. Qed.

(** ** Direction changes *)

(** C4. In the Playing state with the snake moving along x (direction
    (1,0) or (-1,0)), left and right leave the state unchanged while up
    and down set the direction to (0,-1) and (0,1); moving along y, up and
    down leave the state unchanged while left and right set the direction
    to (-1,0) and (1,0).  The letter keys behave as the arrows. *)
Theorem direction_change_rule (a : Application) (rs : list Z) :
  state a = PLAYING ->
  unitDirection (direction a) ->
  (pt_y (direction a) = 0 ->
   onKeyDown SDLK_LEFT a rs = Some (a, rs) /\
   onKeyDown SDLK_a a rs = Some (a, rs) /\
   onKeyDown SDLK_RIGHT a rs = Some (a, rs) /\
   onKeyDown SDLK_d a rs = Some (a, rs) /\
   onKeyDown SDLK_UP a rs = Some (set_direction (mkPoint 0 (-1)) a, rs) /\
   onKeyDown SDLK_w a rs = Some (set_direction (mkPoint 0 (-1)) a, rs) /\
   onKeyDown SDLK_DOWN a rs = Some (set_direction (mkPoint 0 1) a, rs) /\
   onKeyDown SDLK_s a rs = Some (set_direction (mkPoint 0 1) a, rs)) /\
  (pt_x (direction a) = 0 ->
   onKeyDown SDLK_UP a rs = Some (a, rs) /\
   onKeyDown SDLK_w a rs = Some (a, rs) /\
   onKeyDown SDLK_DOWN a rs = Some (a, rs) /\
   onKeyDown SDLK_s a rs = Some (a, rs) /\
   onKeyDown SDLK_LEFT a rs = Some (set_direction (mkPoint (-1) 0) a, rs) /\
   onKeyDown SDLK_a a rs = Some (set_direction (mkPoint (-1) 0) a, rs) /\
   onKeyDown SDLK_RIGHT a rs = Some (set_direction (mkPoint 1 0) a, rs) /\
   onKeyDown SDLK_d a rs = Some (set_direction (mkPoint 1 0) a, rs)).
Proof.
  intros Hst Hdir.
  assert (Haxis : (pt_y (direction a) = 0 -> pt_x (direction a) <> 0) /\
                  (pt_x (direction a) = 0 -> pt_y (direction a) <> 0)).
  { destruct Hdir as [-> | [-> | [-> | ->]]]; simpl; split; intros;
      congruence. }
  destruct Haxis as [Hx Hy].
  split; intros Hzero.
  - specialize (Hx Hzero). apply Z.eqb_neq in Hx.
    unfold onKeyDown. rewrite Hst, Hzero, Hx. simpl.
    repeat split; reflexivity.
  - specialize (Hy Hzero). apply Z.eqb_neq in Hy.
    unfold onKeyDown. rewrite Hst, Hzero, Hy. simpl.
    repeat split; reflexivity.
Qed.

Lemma direction_change_rule_witness :
  state demo_playing = PLAYING /\
  unitDirection (direction demo_playing) /\
  onKeyDown SDLK_LEFT demo_playing [] = Some (demo_playing, []) /\
  onKeyDown SDLK_UP demo_playing []
  = Some (set_direction (mkPoint 0 (-1)) demo_playing, []).
Proof.
  assert (Hst : state demo_playing = PLAYING) by reflexivity.
  assert (Hdir : unitDirection (direction demo_playing))
    by (left; reflexivity).
  destruct (direction_change_rule demo_playing [] Hst Hdir) as [Halong _].
  destruct (Halong eq_refl) as (Hleft & _ & _ & _ & Hup & _).
  split; [exact Hst|]. split; [exact Hdir|].
  split; [exact Hleft | exact Hup].
Defined.

(** ** The movement timer *)

Lemma to_u32_small (z : Z) : 0 <= z < 2 ^ 32 -> to_u32 z = z.
Proof. intros Hz. unfold to_u32. now apply Z.mod_small. Qed.

Lemma to_u32_negative (z : Z) : - 2 ^ 32 <= z < 0 -> to_u32 z = z + 2 ^ 32.
Proof.
  intros Hz. unfold to_u32.
  symmetry. apply (Z.mod_unique z (2 ^ 32) (-1) (z + 2 ^ 32)); lia.
Qed.

(** With interval 0 the timer has always elapsed. *)
Lemma zero_interval_elapsed (currentTime : Z) (a : Application) :
  snakeSpeed a = 0 -> intervalElapsed currentTime a.
Proof.
  intros Hz. unfold intervalElapsed. rewrite Hz.
  unfold to_u32. rewrite Z.mod_0_l by lia.
  apply Z.mod_pos_bound. lia.
Qed.

(** With a negative interval [s] the timer has not elapsed until
    [2^32 + s] ticks have passed since the last move. *)
Lemma negative_interval_waits (currentTime : Z) (a : Application) :
  state a = PLAYING ->
  - 2 ^ 32 <= snakeSpeed a < 0 ->
  0 <= currentTime - lastMoveTime a < 2 ^ 32 + snakeSpeed a ->
  update currentTime a
  = ret (set_animationTime (f32_add (animationTime a) (f32_lit 2 2)) a).
Proof.
  intros Hst Hneg Hsmall. apply update_waiting; [exact Hst|].
  unfold intervalElapsed.
  rewrite (to_u32_negative (snakeSpeed a)) by exact Hneg.
  rewrite to_u32_small by lia. lia.
Qed.

(** C5, evaluated on the code: in the session started with the interval
    at its sentinel -20, a state of a run, every update call at a tick
    count below 2^32 - 20 returns before the movement block: it changes
    [animationTime] and nothing else, so the snake does not advance. *)
Theorem negative_interval_stalls :
  reachable demo_turbo /\
  state demo_turbo = PLAYING /\
  snakeSpeed demo_turbo = -20 /\
  forall currentTime rs,
    0 <= currentTime < 2 ^ 32 - 20 ->
    update currentTime demo_turbo rs
    = Some (set_animationTime
              (f32_add (animationTime demo_turbo) (f32_lit 2 2)) demo_turbo,
            rs).
Proof.
  split; [exact (reachable_handleEvents _ _ _ _ _ reach_init demo_turbo_run)|].
  split; [reflexivity|]. split; [reflexivity|].
  intros currentTime rs Ht.
  rewrite negative_interval_waits; [reflexivity | reflexivity | |].
  - change (snakeSpeed demo_turbo) with (-20). lia.
  - change (snakeSpeed demo_turbo) with (-20).
    change (lastMoveTime demo_turbo) with 0. lia.
Qed.

(** ** The configuration menu *)

(** C6. In the configuration menu with the speed item highlighted, an
    increase input (right) lowers the interval by 1 when it is above 1 and
    sets it to -20 when it is 1 or less; a decrease input (left) raises it
    by 1.  Nothing else changes. *)
Theorem speed_item_adjustment (a : Application) (rs : list Z) :
  state a = CONFIG_MENU ->
  configOption a = ConfigOption_to_int SPEED ->
  (1 < snakeSpeed a ->
   onKeyDown SDLK_RIGHT a rs
   = Some (set_snakeSpeed (snakeSpeed a - 1) a, rs) /\
   onKeyDown SDLK_d a rs
   = Some (set_snakeSpeed (snakeSpeed a - 1) a, rs)) /\
  (snakeSpeed a <= 1 ->
   onKeyDown SDLK_RIGHT a rs = Some (set_snakeSpeed (-20) a, rs) /\
   onKeyDown SDLK_d a rs = Some (set_snakeSpeed (-20) a, rs)) /\
  onKeyDown SDLK_LEFT a rs = Some (set_snakeSpeed (snakeSpeed a + 1) a, rs) /\
  onKeyDown SDLK_a a rs = Some (set_snakeSpeed (snakeSpeed a + 1) a, rs).
Proof.
  intros Hst Hopt.
  unfold onKeyDown, adjustConfigOption. rewrite Hst, Hopt. simpl.
  split; [|split].
  - intros Hgt. apply Z.ltb_lt in Hgt. rewrite Hgt. split; reflexivity.
  - intros Hle. apply Z.ltb_ge in Hle. rewrite Hle. split; reflexivity.
  - split; reflexivity.
Qed.

Lemma speed_item_adjustment_witness :
  state demo_config = CONFIG_MENU /\
  configOption demo_config = ConfigOption_to_int SPEED /\
  onKeyDown SDLK_RIGHT demo_config []
  = Some (set_snakeSpeed (snakeSpeed demo_config - 1) demo_config, []) /\
  onKeyDown SDLK_LEFT demo_config []
  = Some (set_snakeSpeed (snakeSpeed demo_config + 1) demo_config, []).
Proof.
  assert (Hst : state demo_config = CONFIG_MENU) by reflexivity.
  assert (Hopt : configOption demo_config = ConfigOption_to_int SPEED)
    by reflexivity.
  destruct (speed_item_adjustment demo_config [] Hst Hopt)
    as (Hup & _ & Hdown & _).
  assert (Hgt : 1 < snakeSpeed demo_config) by (vm_compute; reflexivity).
  split; [exact Hst|]. split; [exact Hopt|].
  split; [exact (proj1 (Hup Hgt)) | exact Hdown].
Defined.

(** ** Confirm input in the menus *)

(** C7 as stated fails in the configuration menu: with "Back to Main
    Menu" highlighted, a confirm input leaves the application where it
    is; no confirm input takes it to the main menu. *)
Lemma confirm_ignored_in_config_menu :
  state demo_config_exit = CONFIG_MENU /\
  configOption demo_config_exit = ConfigOption_to_int EXIT /\
  onKeyDown SDLK_RETURN demo_config_exit [] = Some (demo_config_exit, []) /\
  ~ (exists a' rs',
       onKeyDown SDLK_RETURN demo_config_exit [] = Some (a', rs') /\
       state a' = MAIN_MENU).
Proof.
  split; [reflexivity|]. split; [reflexivity|]. split; [reflexivity|].
  intros (a' & rs' & Hrun & Hst).
  injection Hrun as <- _. discriminate Hst.
Qed.

(** C7, amended.  A confirm input triggers the action of the highlighted
    item in the main menu (start a game, open the configuration menu,
    open the mode menu, quit), in the pause menu (resume, back to the main
    menu) and in the mode menu (commit the highlighted mode and return to
    the main menu).  In the configuration menu a confirm input changes
    nothing; its "Back to Main Menu" item is triggered by a left or right
    input, and a cancel input returns to the main menu from any item. *)
Theorem confirm_triggers_highlighted_item (a : Application) (rs : list Z) :
  (state a = MAIN_MENU ->
   (selectedOption a = 0 -> onKeyDown SDLK_RETURN a rs = startGame a rs) /\
   (selectedOption a = 1 ->
    onKeyDown SDLK_RETURN a rs = Some (set_state CONFIG_MENU a, rs)) /\
   (selectedOption a = 2 ->
    onKeyDown SDLK_RETURN a rs = Some (set_state MODE_MENU a, rs)) /\
   (selectedOption a = 3 ->
    onKeyDown SDLK_RETURN a rs = Some (set_state QUIT a, rs))) /\
  (state a = PAUSED ->
   (pauseMenuOption a = 0 ->
    onKeyDown SDLK_RETURN a rs = Some (set_state PLAYING a, rs)) /\
   (pauseMenuOption a = 1 ->
    onKeyDown SDLK_RETURN a rs = Some (set_state MAIN_MENU a, rs))) /\
  (state a = MODE_MENU ->
   (modeMenuOption a = 0 ->
    onKeyDown SDLK_RETURN a rs
    = Some (set_state MAIN_MENU (set_gameMode NORMAL a), rs)) /\
   (modeMenuOption a = 1 ->
    onKeyDown SDLK_RETURN a rs
    = Some (set_state MAIN_MENU (set_gameMode FLASHLIGHT a), rs))) /\
  (state a = CONFIG_MENU ->
   onKeyDown SDLK_RETURN a rs = Some (a, rs) /\
   onKeyDown SDLK_ESCAPE a rs = Some (set_state MAIN_MENU a, rs) /\
   (configOption a = ConfigOption_to_int EXIT ->
    onKeyDown SDLK_LEFT a rs = Some (set_state MAIN_MENU a, rs) /\
    onKeyDown SDLK_a a rs = Some (set_state MAIN_MENU a, rs) /\
    onKeyDown SDLK_RIGHT a rs = Some (set_state MAIN_MENU a, rs) /\
    onKeyDown SDLK_d a rs = Some (set_state MAIN_MENU a, rs))).
Proof.
  split; [|split; [|split]]; intros Hst; unfold onKeyDown; rewrite Hst.
  - unfold mainMenuSelection.
    repeat split; intros ->; reflexivity.
  - split; intros ->; reflexivity.
  - unfold modeSelection. split; intros ->; reflexivity.
  - split; [reflexivity|]. split; [reflexivity|].
    intros Hopt. unfold adjustConfigOption. rewrite Hopt.
    repeat split; reflexivity.
Qed.

Lemma confirm_triggers_highlighted_item_witness :
  state demo_config_exit = CONFIG_MENU /\
  configOption demo_config_exit = ConfigOption_to_int EXIT /\
  onKeyDown SDLK_RETURN demo_config_exit [] = Some (demo_config_exit, []) /\
  onKeyDown SDLK_LEFT demo_config_exit []
  = Some (set_state MAIN_MENU demo_config_exit, []) /\
  onKeyDown SDLK_ESCAPE demo_config []
  = Some (set_state MAIN_MENU demo_config, []) /\
  onKeyDown SDLK_RETURN Application_init demo_rs
  = startGame Application_init demo_rs.
Proof.
  destruct (confirm_triggers_highlighted_item demo_config_exit [])
    as (_ & _ & _ & Hconfig).
  destruct (Hconfig eq_refl) as (Hconfirm & _ & Hback).
  destruct (Hback eq_refl) as (Hleft & _).
  destruct (confirm_triggers_highlighted_item demo_config [])
    as (_ & _ & _ & Hconfig0).
  destruct (Hconfig0 eq_refl) as (_ & Hcancel & _).
  destruct (confirm_triggers_highlighted_item Application_init demo_rs)
    as (Hmain & _).
  destruct (Hmain eq_refl) as (Hstart & _).
  split; [reflexivity|]. split; [reflexivity|].
  split; [exact Hconfirm|]. split; [exact Hleft|].
  split; [exact Hcancel|].
  exact (Hstart eq_refl).
Defined.

(** ** Spawned cells *)

(** C8. Whenever a spawn call returns, the cells it appended lie on no
    snake segment and on no cell of the other set as they were when the
    call was made: food avoids snake and obstacles, obstacles avoid snake
    and food.  The call changes nothing but the list it appends to. *)
Theorem spawn_avoids_occupied_cells
  (a : Application) (count : Z) (rs : list Z) (a' : Application)
  (rs' : list Z) :
  (spawnFood a rs = Some (a', rs') ->
   exists fresh,
     a' = set_foodItems (foodItems a ++ fresh) a /\
     length fresh = Z.to_nat (numFoodItems a) /\
     forall p, In p fresh -> ~ In p (snake a) /\ ~ In p (obstacles a)) /\
  (spawnObstacles count a rs = Some (a', rs') ->
   exists fresh,
     a' = set_obstacles (obstacles a ++ fresh) a /\
     length fresh = Z.to_nat count /\
     forall p, In p fresh -> ~ In p (snake a) /\ ~ In p (foodItems a)).
Proof.
  split; intros Hrun.
  - apply spawnFood_for_spec in Hrun as (fresh & Ha & Hlen & Hall).
    exists fresh. repeat split; try assumption;
      rewrite Forall_forall in Hall; apply foodValid_spec; auto.
  - apply spawnObstacles_for_spec in Hrun as (fresh & Ha & Hlen & Hall).
    exists fresh. repeat split; try assumption;
      rewrite Forall_forall in Hall; apply obstacleValid_spec; auto.
Qed.

Lemma spawn_avoids_occupied_cells_witness :
  (exists fresh,
     result_of (spawnFood demo_playing demo_rs) demo_playing
     = set_foodItems (foodItems demo_playing ++ fresh) demo_playing /\
     length fresh = Z.to_nat (numFoodItems demo_playing) /\
     forall p, In p fresh ->
       ~ In p (snake demo_playing) /\ ~ In p (obstacles demo_playing)) /\
  (exists fresh,
     result_of (spawnObstacles 5 demo_playing demo_rs) demo_playing
     = set_obstacles (obstacles demo_playing ++ fresh) demo_playing /\
     length fresh = Z.to_nat 5 /\
     forall p, In p fresh ->
       ~ In p (snake demo_playing) /\ ~ In p (foodItems demo_playing)).
Proof.
  split.
  - apply (proj1 (spawn_avoids_occupied_cells demo_playing 5 demo_rs
                    (result_of (spawnFood demo_playing demo_rs) demo_playing)
                    (skipn 20 demo_rs))).
    vm_compute. reflexivity.
  - apply (proj2 (spawn_avoids_occupied_cells demo_playing 5 demo_rs
                    (result_of (spawnObstacles 5 demo_playing demo_rs)
                               demo_playing)
                    (skipn 30 demo_rs))).
    vm_compute. reflexivity.
Defined.

(** C9. Neither spawner looks at the cells it has placed itself: on a
    sequence that draws one free cell again and again, [spawnFood] places
    that cell as many times as the food count and [spawnObstacles] as many
    times as it is asked to, whatever the obstacle list already holds.
    In particular there is a sequence on which starting a game from the
    constructed application puts two food items on one cell and two
    obstacles on one cell. *)
Theorem spawn_can_repeat_a_cell :
  (forall a rx ry,
     foodValid a (randomCell rx ry) = true ->
     spawnFood a (concat (repeat [rx; ry] (Z.to_nat (numFoodItems a))))
     = Some (set_foodItems
               (foodItems a
                ++ repeat (randomCell rx ry) (Z.to_nat (numFoodItems a))) a,
             [])) /\
  (forall a count rx ry,
     obstacleValid a (randomCell rx ry) = true ->
     spawnObstacles count a (concat (repeat [rx; ry] (Z.to_nat count)))
     = Some (set_obstacles
               (obstacles a ++ repeat (randomCell rx ry) (Z.to_nat count)) a,
             [])) /\
  exists rs a' rs' food obs,
    startGame Application_init rs = Some (a', rs') /\
    nth_error (foodItems a') 0 = Some food /\
    nth_error (foodItems a') 1 = Some food /\
    nth_error (obstacles a') 0 = Some obs /\
    nth_error (obstacles a') 1 = Some obs /\
    ~ NoDup (foodItems a') /\ ~ NoDup (obstacles a').
Proof.
  split; [|split].
  - intros a rx ry Hvalid. now apply spawnFood_for_returns.
  - intros a count rx ry Hvalid. now apply spawnObstacles_for_returns.
  - exists (repeat 0 20 ++ repeat 1 30).
    exists (result_of
              (startGame Application_init (repeat 0 20 ++ repeat 1 30))
              Application_init).
    exists [], (mkPoint 0 0), (mkPoint 20 20).
    split; [vm_compute; reflexivity|].
    repeat split; try (vm_compute; reflexivity).
    + intros Hnd. vm_compute in Hnd. inversion Hnd as [|? ? Hnotin _].
      apply Hnotin. left. reflexivity.
    + intros Hnd. vm_compute in Hnd. inversion Hnd as [|? ? Hnotin _].
      apply Hnotin. left. reflexivity.
Qed.

(** ** Sparkles *)

(** C10 as stated fails on a collision tick: the session is Playing, the
    interval has elapsed, twenty sparkles are alive, and the update call
    ages none of them; it leaves forty, all at full life. *)
Lemma collision_tick_skips_sparkle_decay :
  state demo_collided = PLAYING /\
  intervalElapsed 200 demo_collided /\
  update 200 demo_collided collide_rs = Some (demo_collided_twice, []) /\
  length (sparkles demo_collided) = 20%nat /\
  Forall (fun s => sp_life s = f32_of_int 1)
         (sparkles demo_collided_twice) /\
  sparkles demo_collided_twice
  <> filter (fun s => negb (f32_leb (sp_life s) (f32_of_int 0)))
            (map (fun sp => mkSparkle (sp_x sp) (sp_y sp)
                              (f32_sub (sp_life sp) (f32_lit 5 2)))
                 (sparkles demo_collided)).
Proof.
  split; [reflexivity|].
  split; [vm_compute; discriminate|].
  split; [vm_compute; reflexivity|].
  split; [reflexivity|].
  split.
  - vm_compute. repeat constructor.
  - intros Heq. apply (f_equal (@length Sparkle)) in Heq.
    vm_compute in Heq. discriminate Heq.
Qed.

(** * Further properties of the code *)

(** ** How events and updates act on a session *)

Lemma sameSession_refl (a : Application) : sameSession a a.
Proof. repeat split. Qed.

Lemma adjustConfigOption_sameSession (increase : bool) (a : Application) :
  sameSession a (adjustConfigOption increase a) /\
  (state (adjustConfigOption increase a) = state a \/
   state (adjustConfigOption increase a) = MAIN_MENU).
Proof.
  unfold adjustConfigOption.
  destruct (ConfigOption_of_int (configOption a)) as [[]|];
    destruct increase;
    repeat match goal with
           | |- context [?u <? ?v] => destruct (u <? v)
           end;
    (split; [repeat split | ]);
    first [now left | now right].
Qed.

(** A handled event either starts a game from the main menu or leaves
    the session fields and the random sequence alone; it never enters a
    session from a menu otherwise. *)
Lemma handleEvent_cases (event : SDL_Event) (a : Application) rs a' rs' :
  handleEvent event a rs = Some (a', rs') ->
  (event = SDL_KEYDOWN SDLK_RETURN /\ state a = MAIN_MENU /\
   selectedOption a = 0 /\
   resetGame (set_state PLAYING a) rs = Some (a', rs')) \/
  (rs' = rs /\ sameSession a a' /\ staysSession a a').
Proof.
  destruct event as [|key|]; simpl.
  - unfold ret. intros [= <- <-]. right. split; [reflexivity|].
    split; [repeat split|]. intros [H | H]; discriminate H.
  - destruct key; simpl; destruct (state a) eqn:Hst; unfold modeSelection;
      repeat match goal with
             | |- context [if ?c then _ else _] => destruct c
             end;
      try (unfold ret; intros [= <- <-]; right; split; [reflexivity|];
           first
             [ split; [repeat split | session_step Hst]
             | split; [apply adjustConfigOption_sameSession|];
               let H := fresh "H" in
               intros [H | H];
               destruct (adjustConfigOption_sameSession false a)
                 as [_ [Hs | Hs]];
               destruct (adjustConfigOption_sameSession true a)
                 as [_ [Hs' | Hs']];
               congruence ]).
    destruct (mainMenuSelection_cases a)
      as [[Hsel ->] | [[_ ->] | [[_ ->] | [[_ ->] | [_ ->]]]]];
      try (unfold ret; intros [= <- <-]; right; split; [reflexivity|];
           split; [repeat split | session_step Hst]).
    intros Hrun. left. repeat split; assumption.
  - unfold ret. intros [= <- <-]. right. split; [reflexivity|].
    split; [repeat split|]. intros H. split; [exact H | split; reflexivity].
Qed.

(** The five ways an [update] call can return. *)
Lemma update_cases (currentTime : Z) (a : Application) rs a' rs' :
  update currentTime a rs = Some (a', rs') ->
  ((state a <> PLAYING \/ ~ intervalElapsed currentTime a) /\
   rs' = rs /\
   a' = set_animationTime (f32_add (animationTime a) (f32_lit 2 2)) a) \/
  (state a = PLAYING /\ intervalElapsed currentTime a /\ snake a = [] /\
   rs' = rs /\ a' = decaySparkles (ticked currentTime a)) \/
  (exists head tl food obs,
     state a = PLAYING /\ intervalElapsed currentTime a /\
     snake a = head :: tl /\
     (In (newHead head (direction a)) (snake a) \/
      In (newHead head (direction a)) (obstacles a)) /\
     length food = Z.to_nat (numFoodItems a) /\
     length obs = Z.to_nat (numObstacles a) /\
     (forall p, In p food -> p <> centre) /\
     (forall p, In p obs -> p <> centre /\ ~ In p food) /\
     a' = set_obstacles obs
            (set_foodItems food
               (set_score 0
                  (set_direction (mkPoint 1 0)
                     (set_snake [centre]
                        (set_highScore (Z.max (highScore a) (score a))
                           (set_sparkles
                              (sparkles a
                               ++ repeat (collisionSparkle head) 20)
                              (ticked currentTime a)))))))) \/
  (exists head tl food obs,
     state a = PLAYING /\ intervalElapsed currentTime a /\
     snake a = head :: tl /\
     ~ In (newHead head (direction a)) (snake a) /\
     ~ In (newHead head (direction a)) (obstacles a) /\
     In (newHead head (direction a)) (foodItems a) /\
     length food = Z.to_nat (numFoodItems a) /\
     length obs = 5%nat /\
     (forall p, In p food ->
        ~ In p (newHead head (direction a) :: snake a) /\
        ~ In p (obstacles a)) /\
     (forall p, In p obs ->
        ~ In p (newHead head (direction a) :: snake a) /\ ~ In p food) /\
     a' = decaySparkles
            (set_obstacles (obstacles a ++ obs)
               (set_foodItems food
                  (set_highScore (Z.max (highScore a) (score a + 1))
                     (set_score (score a + 1)
                        (set_snake (newHead head (direction a) :: snake a)
                           (ticked currentTime a))))))) \/
  (exists head tl,
     state a = PLAYING /\ intervalElapsed currentTime a /\
     snake a = head :: tl /\
     ~ In (newHead head (direction a)) (snake a) /\
     ~ In (newHead head (direction a)) (obstacles a) /\
     ~ In (newHead head (direction a)) (foodItems a) /\
     rs' = rs /\
     a' = decaySparkles
            (set_snake (removelast (newHead head (direction a) :: snake a))
                       (ticked currentTime a))).
Proof.
  intros Hrun.
  destruct (state a) eqn:Hst;
    try (rewrite update_not_playing in Hrun by congruence;
         injection Hrun as <- <-; left;
         split; [left; congruence | split; reflexivity]).
  destruct (Z_le_gt_dec (to_u32 (snakeSpeed a))
                        (to_u32 (currentTime - lastMoveTime a)))
    as [Hel | Hwait].
  2:{ assert (Hno : ~ intervalElapsed currentTime a)
        by (unfold intervalElapsed; lia).
      rewrite update_waiting in Hrun by assumption.
      injection Hrun as <- <-. left.
      split; [right; exact Hno | split; reflexivity]. }
  assert (Hshape : snake a = [] \/ exists head tl, snake a = head :: tl)
    by (destruct (snake a) as [|head tl]; [now left | right; eauto]).
  destruct Hshape as [Hsn | (head & tl & Hsn)].
  { rewrite update_empty in Hrun by assumption.
    injection Hrun as <- <-. right. left.
    split; [reflexivity|]. split; [exact Hel|]. split; [exact Hsn|].
    split; reflexivity. }
  assert (Hcollide :
            In (newHead head (direction a)) (snake a) \/
            In (newHead head (direction a)) (obstacles a) ->
            exists food obs,
              length food = Z.to_nat (numFoodItems a) /\
              length obs = Z.to_nat (numObstacles a) /\
              (forall p, In p food -> p <> centre) /\
              (forall p, In p obs -> p <> centre /\ ~ In p food) /\
              a' = set_obstacles obs
                     (set_foodItems food
                        (set_score 0
                           (set_direction (mkPoint 1 0)
                              (set_snake [centre]
                                 (set_highScore
                                    (Z.max (highScore a) (score a))
                                    (set_sparkles
                                       (sparkles a
                                        ++ repeat (collisionSparkle head) 20)
                                       (ticked currentTime a)))))))).
  { intros Hhit.
    rewrite (update_collision currentTime a head tl Hst Hel Hsn Hhit)
      in Hrun.
    apply (handleCollision_spec _ head tl) in Hrun; [|exact Hsn].
    destruct Hrun as (food & obs & -> & Hlf & Hlo & Hfc & Hoc).
    exists food, obs. split; [exact Hlf|]. split; [exact Hlo|].
    split; [exact Hfc|]. split; [exact Hoc | reflexivity]. }
  destruct (hits (newHead head (direction a)) (snake a)) eqn:Hself.
  { apply hits_In in Hself.
    destruct (Hcollide (or_introl Hself))
      as (food & obs & Hlf & Hlo & Hfc & Hoc & ->).
    right. right. left. exists head, tl, food, obs.
    split; [reflexivity|]. split; [exact Hel|]. split; [exact Hsn|].
    split; [left; exact Hself|]. split; [exact Hlf|]. split; [exact Hlo|].
    split; [exact Hfc|]. split; [exact Hoc | reflexivity]. }
  destruct (hits (newHead head (direction a)) (obstacles a)) eqn:Hobst.
  { apply hits_In in Hobst.
    destruct (Hcollide (or_intror Hobst))
      as (food & obs & Hlf & Hlo & Hfc & Hoc & ->).
    right. right. left. exists head, tl, food, obs.
    split; [reflexivity|]. split; [exact Hel|]. split; [exact Hsn|].
    split; [right; exact Hobst|]. split; [exact Hlf|]. split; [exact Hlo|].
    split; [exact Hfc|]. split; [exact Hoc | reflexivity]. }
  apply hits_false in Hself, Hobst.
  destruct (hits (newHead head (direction a)) (foodItems a)) eqn:Heat.
  - apply hits_In in Heat.
    destruct (update_eat_spec currentTime a head tl rs a' rs'
                Hst Hel Hsn Hself Hobst Heat Hrun)
      as (food & obs & rs1 & -> & _ & Hlf & Hlo & Hvf & Hvo).
    right. right. right. left. exists head, tl, food, obs.
    split; [reflexivity|]. split; [exact Hel|]. split; [exact Hsn|].
    split; [exact Hself|]. split; [exact Hobst|]. split; [exact Heat|].
    split; [exact Hlf|]. split; [exact Hlo|].
    split; [exact Hvf|]. split; [exact Hvo | reflexivity].
  - apply hits_false in Heat.
    rewrite (update_move currentTime a head tl) in Hrun by assumption.
    injection Hrun as <- <-.
    do 4 right. exists head, tl.
    split; [reflexivity|]. split; [exact Hel|]. split; [exact Hsn|].
    split; [exact Hself|]. split; [exact Hobst|]. split; [exact Heat|].
    split; reflexivity.
Qed.

Lemma NoDup_removelast (l : list Point) : NoDup l -> NoDup (removelast l).
Proof.
  induction l as [|p l IH]; intros Hnd; [constructor|].
  destruct l as [|q l]; [constructor|].
  change (NoDup (p :: removelast (q :: l))).
  inversion Hnd as [|? ? Hnotin Hrest]. subst.
  constructor; [|now apply IH].
  intros Hin. apply In_removelast_In in Hin. now apply Hnotin.
Qed.

Lemma Forall_removelast (P : Point -> Prop) (l : list Point) :
  Forall P l -> Forall P (removelast l).
Proof.
  rewrite !Forall_forall. intros Hall p Hp.
  now apply Hall, In_removelast_In.
Qed.

Lemma chained_removelast (l : list Point) :
  chained l -> chained (removelast l).
Proof.
  induction l as [|p l IH]; [tauto|].
  destruct l as [|q l]; [tauto|].
  destruct l as [|r l]; [intros _; exact I|].
  change (chained (p :: q :: r :: l) ->
          chained (p :: q :: removelast (r :: l))).
  intros [Hstep Hrest]. split; [exact Hstep|]. exact (IH Hrest).
Qed.

Lemma centre_onGrid : onGrid centre.
Proof. split; [exists 20 | exists 15]; reflexivity. Qed.

Lemma newHead_onGrid (head dir : Point) :
  onGrid head -> unitDirection dir -> onGrid (newHead head dir).
Proof.
  unfold onGrid, newHead, SCREEN_WIDTH, SCREEN_HEIGHT, GRID_SIZE.
  intros [[kx Hx] [ky Hy]] Hdir.
  assert (H780 : (20 | 800 - 20)) by (exists 39; reflexivity).
  assert (H580 : (20 | 600 - 20)) by (exists 29; reflexivity).
  assert (H0 : (20 | 0)) by (exists 0; reflexivity).
  destruct Hdir as [-> | [-> | [-> | ->]]]; simpl;
    repeat match goal with
           | |- context [?u <? ?v] => destruct (u <? v)
           | |- context [?u <=? ?v] => destruct (u <=? v)
           end;
    split; try assumption;
    first [ exists (kx + 1); lia | exists (kx - 1); lia | exists kx; lia
          | exists (ky + 1); lia | exists (ky - 1); lia | exists ky; lia ].
Qed.

Lemma SnakeInv_reset (a : Application) (food obs : list Point)
  (s : Z) (d : Point) :
  SnakeInv
    (set_obstacles obs
       (set_foodItems food
          (set_score s (set_direction d (set_snake [centre] a))))).
Proof.
  constructor.
  - change (NoDup [centre]). constructor; [intros [] | constructor].
  - change (Forall onGrid [centre]).
    constructor; [exact centre_onGrid | constructor].
  - exact I.
  - intros _. discriminate.
Qed.

Lemma SnakeInv_handleEvent (event : SDL_Event) (a : Application) rs a' rs' :
  SnakeInv a -> handleEvent event a rs = Some (a', rs') -> SnakeInv a'.
Proof.
  intros [Hnd Hgrid Hch Hne] Hrun.
  destruct (handleEvent_cases _ _ _ _ _ Hrun)
    as [(_ & _ & _ & Hreset) | (_ & Hsame & Hsess)].
  - apply resetGame_spec in Hreset as (food & obs & -> & _).
    apply SnakeInv_reset.
  - destruct Hsame as (Hsn & _).
    constructor; rewrite ?Hsn; auto.
    intros Hin. apply Hne. exact (proj1 (Hsess Hin)).
Qed.

Lemma SnakeInv_update (currentTime : Z) (a : Application) rs a' rs' :
  Inv a -> SnakeInv a ->
  update currentTime a rs = Some (a', rs') -> SnakeInv a'.
Proof.
  intros [_ _ Hdir _ _] [Hnd Hgrid Hch Hne] Hrun.
  destruct (update_cases _ _ _ _ _ Hrun)
    as [(_ & _ & ->)
       | [(Hst & _ & Hsn & _ & ->)
         | [(head & tl & food & obs & _ & _ & _ & _ & _ & _ & _ & _ & ->)
           | [(head & tl & food & obs & _ & _ & Hsn & Hself & _ & _ & _ & _ & _ & _ & ->)
             | (head & tl & _ & _ & Hsn & Hself & _ & _ & _ & ->)]]]].
  - constructor; assumption.
  - exfalso. apply Hne; [now left | exact Hsn].
  - constructor.
    + change (NoDup [centre]). constructor; [intros [] | constructor].
    + change (Forall onGrid [centre]).
      constructor; [exact centre_onGrid | constructor].
    + exact I.
    + intros _. discriminate.
  - assert (Hhead : onGrid head)
      by (rewrite Hsn in Hgrid; now inversion Hgrid).
    constructor.
    + change (NoDup (newHead head (direction a) :: snake a)).
      now constructor.
    + change (Forall onGrid (newHead head (direction a) :: snake a)).
      constructor; [now apply newHead_onGrid | assumption].
    + change (chained (newHead head (direction a) :: snake a)).
      rewrite Hsn. rewrite Hsn in Hch. simpl. split; [|exact Hch].
      exists (direction a). now split.
    + intros _. discriminate.
  - assert (Hhead : onGrid head)
      by (rewrite Hsn in Hgrid; now inversion Hgrid).
    constructor.
    + change (NoDup (removelast (newHead head (direction a) :: snake a))).
      apply NoDup_removelast. now constructor.
    + change (Forall onGrid
                (removelast (newHead head (direction a) :: snake a))).
      apply Forall_removelast.
      constructor; [now apply newHead_onGrid | assumption].
    + change (chained (removelast (newHead head (direction a) :: snake a))).
      apply chained_removelast.
      rewrite Hsn. rewrite Hsn in Hch. simpl. split; [|exact Hch].
      exists (direction a). now split.
    + intros _.
      change (removelast (newHead head (direction a) :: snake a) <> []).
      rewrite Hsn. simpl. discriminate.
Qed.

Lemma SnakeInv_init : SnakeInv Application_init.
Proof.
  constructor.
  - constructor.
  - constructor.
  - exact I.
  - intros [H | H]; discriminate H.
Qed.

Lemma reachable_SnakeInv (a : Application) : reachable a -> SnakeInv a.
Proof.
  induction 1 as [| a event rs a' rs' _ IH Hrun
                  | a currentTime rs a' rs' Hreach IH Hrun].
  - exact SnakeInv_init.
  - exact (SnakeInv_handleEvent _ _ _ _ _ IH Hrun).
  - exact (SnakeInv_update _ _ _ _ _ (reachable_Inv _ Hreach) IH Hrun).
Qed.

Lemma reachable_ScoreInv (a : Application) : reachable a -> ScoreInv a.
Proof.
  unfold ScoreInv.
  induction 1 as [| a event rs a' rs' _ IH Hrun
                  | a currentTime rs a' rs' _ IH Hrun].
  - simpl. lia.
  - destruct (handleEvent_cases _ _ _ _ _ Hrun)
      as [(_ & _ & _ & Hreset) | (_ & Hsame & _)].
    + apply resetGame_spec in Hreset as (food & obs & -> & _).
      change (0 <= 0 <= highScore a). lia.
    + destruct Hsame as (_ & _ & _ & -> & -> & _). exact IH.
  - destruct (update_cases _ _ _ _ _ Hrun)
      as [(_ & _ & ->)
         | [(_ & _ & _ & _ & ->)
           | [(head & tl & food & obs & _ & _ & _ & _ & _ & _ & _ & _ & ->)
             | [(head & tl & food & obs & _ & _ & _ & _ & _ & _ & _ & _ & _ & _ & ->)
               | (head & tl & _ & _ & _ & _ & _ & _ & _ & ->)]]]].
    + exact IH.
    + exact IH.
    + change (0 <= 0 <= Z.max (highScore a) (score a)). lia.
    + change (0 <= score a + 1 <= Z.max (highScore a) (score a + 1)). lia.
    + exact IH.
Qed.

Lemma MenuInv_ext (a b : Application) :
  selectedOption b = selectedOption a ->
  pauseMenuOption b = pauseMenuOption a ->
  configOption b = configOption a ->
  modeMenuOption b = modeMenuOption a ->
  MenuInv a -> MenuInv b.
Proof.
  intros E1 E2 E3 E4 [H1 H2 H3 H4].
  constructor; rewrite ?E1, ?E2, ?E3, ?E4; assumption.
Qed.

Lemma adjustConfigOption_indices (increase : bool) (a : Application) :
  selectedOption (adjustConfigOption increase a) = selectedOption a /\
  pauseMenuOption (adjustConfigOption increase a) = pauseMenuOption a /\
  configOption (adjustConfigOption increase a) = configOption a /\
  modeMenuOption (adjustConfigOption increase a) = modeMenuOption a.
Proof.
  unfold adjustConfigOption.
  destruct (ConfigOption_of_int (configOption a)) as [[]|];
    destruct increase;
    repeat match goal with
           | |- context [?u <? ?v] => destruct (u <? v)
           end;
    repeat split.
Qed.

Lemma MenuInv_set_selectedOption (v : Z) (a : Application) :
  MenuInv a -> 0 <= v < 4 -> MenuInv (set_selectedOption v a).
Proof. intros [H1 H2 H3 H4] Hv. now constructor. Qed.

Lemma MenuInv_set_pauseMenuOption (v : Z) (a : Application) :
  MenuInv a -> v = 0 \/ v = 1 -> MenuInv (set_pauseMenuOption v a).
Proof. intros [H1 H2 H3 H4] Hv. now constructor. Qed.

Lemma MenuInv_set_configOption (v : Z) (a : Application) :
  MenuInv a -> 0 <= v <= 5 -> MenuInv (set_configOption v a).
Proof. intros [H1 H2 H3 H4] Hv. now constructor. Qed.

Lemma MenuInv_set_modeMenuOption (v : Z) (a : Application) :
  MenuInv a -> v = 0 \/ v = 1 -> MenuInv (set_modeMenuOption v a).
Proof. intros [H1 H2 H3 H4] Hv. now constructor. Qed.

Lemma toggle_index (v : Z) : (if v =? 0 then 1 else 0) = 0 \/
                             (if v =? 0 then 1 else 0) = 1.
Proof. destruct (v =? 0); auto. Qed.

Lemma MenuInv_onKeyDown (key : SDL_Keycode) (a : Application) rs a' rs' :
  MenuInv a -> onKeyDown key a rs = Some (a', rs') -> MenuInv a'.
Proof.
  intros HInv.
  assert (Hs := menu_selectedOption a HInv).
  assert (Hc : 0 <= configOption a <= 5) by exact (menu_configOption a HInv).
  destruct key; simpl; destruct (state a) eqn:Hst; unfold modeSelection;
    repeat match goal with
           | |- (if ?c then _ else _) _ = _ -> _ => destruct c
           end;
    try (unfold ret; intros [= <- _];
         first
           [ exact HInv
           | apply (MenuInv_ext a); solve [reflexivity | assumption
                                          | apply adjustConfigOption_indices]
           | apply MenuInv_set_selectedOption;
             [exact HInv | apply Z.rem_bound_pos; lia]
           | apply MenuInv_set_pauseMenuOption;
             [exact HInv | apply toggle_index]
           | apply MenuInv_set_modeMenuOption;
             [exact HInv | apply toggle_index]
           | apply MenuInv_set_configOption;
             [exact HInv
             | first [ pose proof (Z.rem_bound_pos (configOption a + 1) 6);
                       lia
                     | destruct (Z.eqb_spec (configOption a) 0); lia ] ]
           | destruct (modeMenuOption a =? 0); now apply (MenuInv_ext a) ]).
  destruct (mainMenuSelection_cases a)
    as [[_ ->] | [[_ ->] | [[_ ->] | [[_ ->] | [_ ->]]]]];
    try (unfold ret; intros [= <- _];
         first [exact HInv | now apply (MenuInv_ext a)]).
  unfold startGame. intros Hrun.
  apply resetGame_spec in Hrun as (food & obs & -> & _).
  now apply (MenuInv_ext a).
Qed.

Lemma MenuInv_init : MenuInv Application_init.
Proof. constructor; simpl; try lia; now left. Qed.

Lemma reachable_MenuInv (a : Application) : reachable a -> MenuInv a.
Proof.
  induction 1 as [| a event rs a' rs' _ IH Hrun
                  | a currentTime rs a' rs' _ IH Hrun].
  - exact MenuInv_init.
  - destruct event as [|key|]; simpl in Hrun.
    + injection Hrun as <- _. now apply (MenuInv_ext a).
    + exact (MenuInv_onKeyDown _ _ _ _ _ IH Hrun).
    + injection Hrun as <- _. exact IH.
  - destruct (update_cases _ _ _ _ _ Hrun)
      as [(_ & _ & ->)
         | [(_ & _ & _ & _ & ->)
           | [(head & tl & food & obs & _ & _ & _ & _ & _ & _ & _ & _ & ->)
             | [(head & tl & food & obs & _ & _ & _ & _ & _ & _ & _ & _ & _ & _ & ->)
               | (head & tl & _ & _ & _ & _ & _ & _ & _ & ->)]]]];
      now apply (MenuInv_ext a).
Qed.

Lemma length_removelast_cons (p : Point) (l : list Point) :
  length (removelast (p :: l)) = length l.
Proof.
  revert p. induction l as [|q l IH]; intros p; [reflexivity|].
  change (S (length (removelast (q :: l))) = S (length l)).
  now rewrite IH.
Qed.

Lemma reachable_CountInv (a : Application) : reachable a -> CountInv a.
Proof.
  unfold CountInv.
  induction 1 as [| a event rs a' rs' Hreach IH Hrun
                  | a currentTime rs a' rs' Hreach IH Hrun].
  - intros [H | H]; discriminate H.
  - destruct (reachable_Inv _ Hreach) as [Hnf Hno _ _ _].
    destruct (handleEvent_cases _ _ _ _ _ Hrun)
      as [(_ & _ & _ & Hreset) | (_ & Hsame & Hsess)].
    + apply resetGame_spec in Hreset as (food & obs & -> & Hlf & Hlo & _).
      intros _.
      change (Z.of_nat (length [centre]) = 0 + 1 /\
              Z.of_nat (length food) = numFoodItems a /\
              Z.of_nat (length obs) = numObstacles a + 5 * 0).
      change (length food = Z.to_nat (numFoodItems a)) in Hlf.
      change (length obs = Z.to_nat (numObstacles a)) in Hlo.
      rewrite Hlf, Hlo, !Z2Nat.id by assumption.
      simpl. lia.
    + intros Hin. destruct (Hsess Hin) as (Hold & -> & ->).
      destruct Hsame as (-> & -> & -> & -> & _). exact (IH Hold).
  - destruct (reachable_Inv _ Hreach) as [Hnf Hno _ _ _].
    destruct (update_cases _ _ _ _ _ Hrun)
      as [(_ & _ & ->)
         | [(_ & _ & _ & _ & ->)
           | [(head & tl & food & obs & _ & _ & _ & _ & Hlf & Hlo & _ & _
               & ->)
             | [(head & tl & food & obs & Hst & _ & _ & _ & _ & _ & Hlf
                 & Hlo & _ & _ & ->)
               | (head & tl & Hst & _ & _ & _ & _ & _ & _ & ->)]]]].
    + exact IH.
    + exact IH.
    + intros _.
      change (Z.of_nat (length [centre]) = 0 + 1 /\
              Z.of_nat (length food) = numFoodItems a /\
              Z.of_nat (length obs) = numObstacles a + 5 * 0).
      rewrite Hlf, Hlo, !Z2Nat.id by assumption.
      simpl. lia.
    + intros _. destruct (IH (or_introl Hst)) as (Hs & _ & Ho).
      change (Z.of_nat (length (newHead head (direction a) :: snake a))
              = score a + 1 + 1 /\
              Z.of_nat (length food) = numFoodItems a /\
              Z.of_nat (length (obstacles a ++ obs))
              = numObstacles a + 5 * (score a + 1)).
      rewrite length_app, Hlf, Hlo, Z2Nat.id by assumption.
      simpl length. lia.
    + intros _. destruct (IH (or_introl Hst)) as (Hs & Hf & Ho).
      change (Z.of_nat
                (length (removelast (newHead head (direction a) :: snake a)))
              = score a + 1 /\
              Z.of_nat (length (foodItems a)) = numFoodItems a /\
              Z.of_nat (length (obstacles a))
              = numObstacles a + 5 * score a).
      rewrite length_removelast_cons.
      split; [exact Hs|]. split; [exact Hf | exact Ho].
Qed.

Lemma reachable_ObstInv (a : Application) : reachable a -> ObstInv a.
Proof.
  unfold ObstInv.
  induction 1 as [| a event rs a' rs' _ IH Hrun
                  | a currentTime rs a' rs' _ IH Hrun].
  - intros p [].
  - destruct (handleEvent_cases _ _ _ _ _ Hrun)
      as [(_ & _ & _ & Hreset) | (_ & Hsame & _)].
    + apply resetGame_spec in Hreset as (food & obs & -> & _ & _ & _ & Hoc).
      intros p Hp [<- | []]. exact (proj1 (Hoc centre Hp) eq_refl).
    + destruct Hsame as (-> & _ & -> & _). exact IH.
  - destruct (update_cases _ _ _ _ _ Hrun)
      as [(_ & _ & ->)
         | [(_ & _ & _ & _ & ->)
           | [(head & tl & food & obs & _ & _ & _ & _ & _ & _ & _ & Hoc
               & ->)
             | [(head & tl & food & obs & _ & _ & _ & _ & Hobst & _ & _
                 & _ & _ & Hvo & ->)
               | (head & tl & _ & _ & _ & _ & Hobst & _ & _ & ->)]]]].
    + exact IH.
    + exact IH.
    + intros p Hp [<- | []]. exact (proj1 (Hoc centre Hp) eq_refl).
    + intros p Hp.
      change (In p (obstacles a ++ obs)) in Hp.
      change (~ In p (newHead head (direction a) :: snake a)).
      apply in_app_or in Hp. destruct Hp as [Hp | Hp].
      * intros [<- | Hin]; [now apply Hobst | now apply (IH p)].
      * exact (proj1 (Hvo p Hp)).
    + intros p Hp Hin.
      change (In p (obstacles a)) in Hp.
      change (In p (removelast (newHead head (direction a) :: snake a)))
        in Hin.
      apply In_removelast_In in Hin.
      destruct Hin as [<- | Hin]; [now apply Hobst | now apply (IH p)].
Qed.

Lemma demo_eaten_run :
  update 100 demo_eating tick_rs = Some (demo_eaten, skipn 30 tick_rs).
Proof. vm_compute. reflexivity. Qed.

Lemma demo_eaten_reachable : reachable demo_eaten.
Proof.
  exact (reach_update _ _ _ _ _ demo_eating_reachable demo_eaten_run).
Qed.

Lemma demo_config_exit_run :
  handleEvents (key_events [SDLK_DOWN; SDLK_RETURN; SDLK_UP])
               Application_init []
  = Some (demo_config_exit, []).
Proof. vm_compute. reflexivity. Qed.

Lemma demo_config_exit_reachable : reachable demo_config_exit.
Proof.
  exact (reachable_handleEvents _ _ _ _ _ reach_init demo_config_exit_run).
Qed.

(** ** Invariants of runs *)

(** X1. In every state of a run the snake has no repeated segment, every
    segment lies inside the canvas on a multiple of the grid step, each
    segment is one wrapped grid step ahead of the next, and while a
    session is Playing or Paused the snake is not empty (so the
    [!snake.empty()] test of [update] never fails in a run). *)
Theorem run_snake_shape (a : Application) :
  reachable a ->
  NoDup (snake a) /\
  Forall inBounds (snake a) /\
  Forall onGrid (snake a) /\
  chained (snake a) /\
  (state a = PLAYING \/ state a = PAUSED -> snake a <> []).
Proof.
  intros Hreach.
  destruct (reachable_SnakeInv a Hreach) as [Hnd Hgrid Hch Hne].
  destruct (reachable_Inv a Hreach) as [_ _ _ Hbounds _].
  split; [exact Hnd|]. split; [exact Hbounds|]. split; [exact Hgrid|].
  split; [exact Hch | exact Hne].
Qed.

Lemma run_snake_shape_witness :
  NoDup (snake demo_eaten) /\ chained (snake demo_eaten) /\
  snake demo_eaten <> [].
Proof.
  destruct (run_snake_shape demo_eaten demo_eaten_reachable)
    as (Hnd & _ & _ & Hch & Hne).
  split; [exact Hnd|]. split; [exact Hch|].
  apply Hne. left. reflexivity.
Defined.

(** X2. In every Playing or Paused state of a run the snake has
    score + 1 segments, the board holds exactly the configured number of
    food items, and the number of obstacles is the configured number plus
    five per point scored. *)
Theorem run_session_counts (a : Application) :
  reachable a ->
  state a = PLAYING \/ state a = PAUSED ->
  Z.of_nat (length (snake a)) = score a + 1 /\
  Z.of_nat (length (foodItems a)) = numFoodItems a /\
  Z.of_nat (length (obstacles a)) = numObstacles a + 5 * score a.
Proof.
  intros Hreach Hin. exact (reachable_CountInv a Hreach Hin).
Qed.

Lemma run_session_counts_witness :
  Z.of_nat (length (snake demo_eaten)) = score demo_eaten + 1 /\
  Z.of_nat (length (foodItems demo_eaten)) = numFoodItems demo_eaten /\
  Z.of_nat (length (obstacles demo_eaten))
  = numObstacles demo_eaten + 5 * score demo_eaten.
Proof.
  exact (run_session_counts demo_eaten demo_eaten_reachable
           (or_introl eq_refl)).
Defined.

(** X3. In every state of a run the snake, the food and the obstacles
    are pairwise disjoint: no food item lies on a snake segment or on an
    obstacle, and no obstacle lies on a snake segment. *)
Theorem run_cells_disjoint (a : Application) :
  reachable a ->
  (forall p, In p (foodItems a) -> ~ In p (snake a)) /\
  (forall p, In p (foodItems a) -> ~ In p (obstacles a)) /\
  (forall p, In p (obstacles a) -> ~ In p (snake a)).
Proof.
  intros Hreach.
  destruct (reachable_Inv a Hreach) as [_ _ _ _ Hfood].
  split; [intros p Hp; exact (proj1 (Hfood p Hp))|].
  split; [intros p Hp; exact (proj2 (Hfood p Hp))|].
  exact (reachable_ObstInv a Hreach).
Qed.

Lemma run_cells_disjoint_witness :
  (forall p, In p (foodItems demo_eaten) -> ~ In p (snake demo_eaten)) /\
  (forall p, In p (obstacles demo_eaten) -> ~ In p (snake demo_eaten)).
Proof.
  destruct (run_cells_disjoint demo_eaten demo_eaten_reachable)
    as (Hfs & _ & Hos).
  split; [exact Hfs | exact Hos].
Defined.

(** X4. In every state of a run 0 <= score <= high score: the high score
    is raised the moment a point is scored.  So the test
    [score > highScore] of [handleCollision] never succeeds in a run, and
    a collision tick leaves the high score as it is. *)
Theorem run_score_bounds (a : Application) :
  reachable a ->
  0 <= score a <= highScore a /\
  forall currentTime rs a' rs' head tl,
    state a = PLAYING ->
    intervalElapsed currentTime a ->
    snake a = head :: tl ->
    In (newHead head (direction a)) (snake a) \/
    In (newHead head (direction a)) (obstacles a) ->
    update currentTime a rs = Some (a', rs') ->
    highScore a' = highScore a.
Proof.
  intros Hreach. pose proof (reachable_ScoreInv a Hreach) as Hscore.
  split; [exact Hscore|].
  intros currentTime rs a' rs' head tl Hst Hel Hsn Hhit Hrun.
  rewrite (update_collision currentTime a head tl Hst Hel Hsn Hhit) in Hrun.
  apply (handleCollision_spec _ head tl) in Hrun; [|exact Hsn].
  destruct Hrun as (food & obs & -> & _).
  change (Z.max (highScore a) (score a) = highScore a).
  unfold ScoreInv in Hscore. lia.
Qed.

Lemma run_score_bounds_witness :
  0 <= score demo_eaten <= highScore demo_eaten /\
  highScore demo_collided = highScore demo_colliding.
Proof.
  destruct (run_score_bounds demo_eaten demo_eaten_reachable) as [Hb _].
  destruct (run_score_bounds demo_colliding demo_colliding_reachable)
    as [_ Hkeep].
  split; [exact Hb|].
  apply (Hkeep 100 collide_rs demo_collided [] centre []).
  - reflexivity.
  - vm_compute. discriminate.
  - reflexivity.
  - right. vm_compute. left. reflexivity.
  - vm_compute. reflexivity.
Defined.

(** X5. In every state of a run each highlighted index names an item of
    its menu: main menu 0..3, pause menu 0..1, configuration menu 0..5,
    mode menu 0..1.  In particular the cast [(ConfigOption)configOption]
    of [adjustConfigOption] always yields an enumerator. *)
Theorem run_menu_indices (a : Application) :
  reachable a ->
  0 <= selectedOption a < 4 /\
  (pauseMenuOption a = 0 \/ pauseMenuOption a = 1) /\
  0 <= configOption a <= 5 /\
  (modeMenuOption a = 0 \/ modeMenuOption a = 1) /\
  ConfigOption_of_int (configOption a) <> None.
Proof.
  intros Hreach.
  destruct (reachable_MenuInv a Hreach) as [Hs Hp Hc Hm].
  change (0 <= configOption a <= 5) in Hc.
  split; [exact Hs|]. split; [exact Hp|]. split; [exact Hc|].
  split; [exact Hm|].
  assert (Hcases : configOption a = 0 \/ configOption a = 1 \/
                   configOption a = 2 \/ configOption a = 3 \/
                   configOption a = 4 \/ configOption a = 5) by lia.
  destruct Hcases as [-> | [-> | [-> | [-> | [-> | ->]]]]]; discriminate.
Qed.

Lemma run_menu_indices_witness :
  0 <= configOption demo_config_exit <= 5 /\
  ConfigOption_of_int (configOption demo_config_exit) <> None.
Proof.
  destruct (run_menu_indices demo_config_exit demo_config_exit_reachable)
    as (_ & _ & Hc & _ & Hcast).
  split; [exact Hc | exact Hcast].
Defined.

(** ** Moving without eating *)

(** X6. A tick in the Playing state whose new head lies on no snake
    segment, obstacle or food item always returns, reading no random
    value: the new head is put in front and the last segment dropped, so
    the length is unchanged; score, high score, food, obstacles and
    direction are unchanged, and the move time is the current tick. *)
Theorem moving_tick
  (a : Application) (currentTime : Z) (rs : list Z)
  (head : Point) (tl : list Point) :
  state a = PLAYING ->
  intervalElapsed currentTime a ->
  snake a = head :: tl ->
  ~ In (newHead head (direction a)) (snake a) ->
  ~ In (newHead head (direction a)) (obstacles a) ->
  ~ In (newHead head (direction a)) (foodItems a) ->
  exists a',
    update currentTime a rs = Some (a', rs) /\
    snake a' = newHead head (direction a) :: removelast (snake a) /\
    length (snake a') = length (snake a) /\
    score a' = score a /\ highScore a' = highScore a /\
    foodItems a' = foodItems a /\ obstacles a' = obstacles a /\
    direction a' = direction a /\ lastMoveTime a' = currentTime /\
    state a' = PLAYING.
Proof.
  intros Hst Hel Hsn Hself Hobst Hfood.
  rewrite (update_move currentTime a head tl) by assumption.
  eexists. split; [reflexivity|].
  split.
  { change (removelast (newHead head (direction a) :: snake a)
            = newHead head (direction a) :: removelast (snake a)).
    rewrite Hsn. reflexivity. }
  split.
  { change (length (removelast (newHead head (direction a) :: snake a))
            = length (snake a)).
    apply length_removelast_cons. }
  repeat split. exact Hst.
Qed.

Lemma moving_tick_witness :
  exists a',
    update 100 demo_playing [] = Some (a', []) /\
    snake a' = [mkPoint 420 300] /\
    length (snake a') = 1%nat /\ score a' = 0.
Proof.
  assert (Hst : state demo_playing = PLAYING) by reflexivity.
  assert (Hel : intervalElapsed 100 demo_playing)
    by (vm_compute; discriminate).
  assert (Hsn : snake demo_playing = centre :: []) by reflexivity.
  assert (Hself : ~ In (newHead centre (direction demo_playing))
                       (snake demo_playing))
    by (apply hits_false; vm_compute; reflexivity).
  assert (Hobst : ~ In (newHead centre (direction demo_playing))
                       (obstacles demo_playing))
    by (apply hits_false; vm_compute; reflexivity).
  assert (Hfood : ~ In (newHead centre (direction demo_playing))
                       (foodItems demo_playing))
    by (apply hits_false; vm_compute; reflexivity).
  destruct (moving_tick demo_playing 100 [] centre [] Hst Hel Hsn
              Hself Hobst Hfood)
    as (a' & Hrun & Hsnake & Hlen & Hscore & _).
  exists a'. split; [exact Hrun|]. split; [exact Hsnake|].
  split; [exact Hlen | exact Hscore].
Defined.

(** ** Menu navigation *)

Lemma rem_up_down (s n : Z) :
  0 <= s < n -> Z.rem (Z.rem (s + (n - 1)) n + 1) n = s.
Proof.
  intros Hs.
  rewrite (Z.rem_mod_nonneg (s + (n - 1)) n) by lia.
  pose proof (Z.mod_pos_bound (s + (n - 1)) n) as Hb.
  rewrite Z.rem_mod_nonneg by lia.
  destruct (Z.eq_dec s 0) as [-> | Hne].
  - rewrite Z.add_0_l, (Z.mod_small (n - 1)) by lia.
    replace (n - 1 + 1) with n by lia. apply Z.mod_same. lia.
  - replace (s + (n - 1)) with (s - 1 + 1 * n) by lia.
    rewrite Z.mod_add, (Z.mod_small (s - 1)) by lia.
    replace (s - 1 + 1) with s by lia. apply Z.mod_small. lia.
Qed.

Lemma rem_down_up (s n : Z) :
  0 <= s < n -> Z.rem (Z.rem (s + 1) n + (n - 1)) n = s.
Proof.
  intros Hs.
  rewrite (Z.rem_mod_nonneg (s + 1) n) by lia.
  pose proof (Z.mod_pos_bound (s + 1) n) as Hb.
  rewrite Z.rem_mod_nonneg by lia.
  destruct (Z.eq_dec s (n - 1)) as [-> | Hne].
  - replace (n - 1 + 1) with n by lia.
    rewrite Z.mod_same, Z.add_0_l by lia. apply Z.mod_small. lia.
  - rewrite (Z.mod_small (s + 1)) by lia.
    replace (s + 1 + (n - 1)) with (s + 1 * n) by lia.
    rewrite Z.mod_add by lia. apply Z.mod_small. lia.
Qed.

Lemma press2 (k1 k2 : SDL_Keycode) (a a1 a2 : Application) rs rs1 rs2 :
  onKeyDown k1 a rs = Some (a1, rs1) ->
  onKeyDown k2 a1 rs1 = Some (a2, rs2) ->
  handleEvents (key_events [k1; k2]) a rs = Some (a2, rs2).
Proof.
  intros H1 H2. unfold key_events. cbn [map handleEvents handleEvent].
  unfold bind. rewrite H1, H2. reflexivity.
Qed.

Lemma set_selectedOption_back (a : Application) (v w : Z) :
  w = selectedOption a ->
  set_selectedOption w (set_selectedOption v a) = a.
Proof. intros ->. reflexivity. Qed.

Lemma set_pauseMenuOption_back (a : Application) (v w : Z) :
  w = pauseMenuOption a ->
  set_pauseMenuOption w (set_pauseMenuOption v a) = a.
Proof. intros ->. reflexivity. Qed.

Lemma set_configOption_back (a : Application) (v w : Z) :
  w = configOption a ->
  set_configOption w (set_configOption v a) = a.
Proof. intros ->. reflexivity. Qed.

Lemma set_modeMenuOption_back (a : Application) (v w : Z) :
  w = modeMenuOption a ->
  set_modeMenuOption w (set_modeMenuOption v a) = a.
Proof. intros ->. reflexivity. Qed.

Lemma toggle_twice (v : Z) :
  v = 0 \/ v = 1 ->
  (if (if v =? 0 then 1 else 0) =? 0 then 1 else 0) = v.
Proof. intros [-> | ->]; reflexivity. Qed.

(** X7. In every main-menu, configuration-menu, mode-menu or Paused
    state of a run, up followed by down, and down followed by up, leave
    the application exactly as it was: the highlight cycles through the
    items of its menu.  Up from the first item of the main or
    configuration menu highlights the last one, and down from the last
    one the first. *)
Theorem menu_navigation_round_trip (a : Application) (rs : list Z) :
  reachable a ->
  state a = MAIN_MENU \/ state a = CONFIG_MENU \/
  state a = MODE_MENU \/ state a = PAUSED ->
  handleEvents (key_events [SDLK_UP; SDLK_DOWN]) a rs = Some (a, rs) /\
  handleEvents (key_events [SDLK_DOWN; SDLK_UP]) a rs = Some (a, rs) /\
  (state a = MAIN_MENU ->
   (selectedOption a = 0 ->
    onKeyDown SDLK_UP a rs = Some (set_selectedOption 3 a, rs)) /\
   (selectedOption a = 3 ->
    onKeyDown SDLK_DOWN a rs = Some (set_selectedOption 0 a, rs))) /\
  (state a = CONFIG_MENU ->
   (configOption a = 0 ->
    onKeyDown SDLK_UP a rs = Some (set_configOption 5 a, rs)) /\
   (configOption a = 5 ->
    onKeyDown SDLK_DOWN a rs = Some (set_configOption 0 a, rs))).
Proof.
  intros Hreach Hmenu.
  destruct (reachable_MenuInv a Hreach) as [Hs Hp Hc Hm].
  change (0 <= configOption a <= 5) in Hc.
  split; [|split; [|split]].
  - destruct Hmenu as [Hst | [Hst | [Hst | Hst]]].
    + eapply press2.
      * unfold onKeyDown. rewrite Hst. reflexivity.
      * unfold onKeyDown. cbn [state set_selectedOption]. rewrite Hst.
        unfold ret. do 2 f_equal. apply set_selectedOption_back.
        exact (rem_up_down (selectedOption a) 4 Hs).
    + eapply press2.
      * unfold onKeyDown. rewrite Hst. reflexivity.
      * unfold onKeyDown. cbn [state set_configOption]. rewrite Hst.
        unfold ret. do 2 f_equal. apply set_configOption_back.
        cbn [configOption set_configOption ConfigOption_to_int].
        destruct (Z.eqb_spec (configOption a) 0) as [-> | Hne];
          [reflexivity|].
        replace (configOption a - 1 + 1) with (configOption a) by lia.
        apply Z.rem_small. lia.
    + eapply press2.
      * unfold onKeyDown. rewrite Hst. reflexivity.
      * unfold onKeyDown. cbn [state set_modeMenuOption]. rewrite Hst.
        unfold ret. do 2 f_equal. apply set_modeMenuOption_back.
        exact (toggle_twice _ Hm).
    + eapply press2.
      * unfold onKeyDown. rewrite Hst. reflexivity.
      * unfold onKeyDown. cbn [state set_pauseMenuOption]. rewrite Hst.
        unfold ret. do 2 f_equal. apply set_pauseMenuOption_back.
        exact (toggle_twice _ Hp).
  - destruct Hmenu as [Hst | [Hst | [Hst | Hst]]].
    + eapply press2.
      * unfold onKeyDown. rewrite Hst. reflexivity.
      * unfold onKeyDown. cbn [state set_selectedOption]. rewrite Hst.
        unfold ret. do 2 f_equal. apply set_selectedOption_back.
        exact (rem_down_up (selectedOption a) 4 Hs).
    + eapply press2.
      * unfold onKeyDown. rewrite Hst. reflexivity.
      * unfold onKeyDown. cbn [state set_configOption]. rewrite Hst.
        unfold ret. do 2 f_equal. apply set_configOption_back.
        cbn [configOption set_configOption ConfigOption_to_int].
        destruct (Z.eq_dec (configOption a) 5) as [-> | Hne];
          [reflexivity|].
        rewrite Z.rem_small by lia.
        destruct (Z.eqb_spec (configOption a + 1) 0); lia.
    + eapply press2.
      * unfold onKeyDown. rewrite Hst. reflexivity.
      * unfold onKeyDown. cbn [state set_modeMenuOption]. rewrite Hst.
        unfold ret. do 2 f_equal. apply set_modeMenuOption_back.
        exact (toggle_twice _ Hm).
    + eapply press2.
      * unfold onKeyDown. rewrite Hst. reflexivity.
      * unfold onKeyDown. cbn [state set_pauseMenuOption]. rewrite Hst.
        unfold ret. do 2 f_equal. apply set_pauseMenuOption_back.
        exact (toggle_twice _ Hp).
  - intros Hst. unfold onKeyDown. rewrite Hst.
    split; intros ->; reflexivity.
  - intros Hst. unfold onKeyDown. rewrite Hst.
    split; intros ->; reflexivity.
Qed.

Lemma menu_navigation_round_trip_witness :
  handleEvents (key_events [SDLK_UP; SDLK_DOWN]) demo_config_exit []
  = Some (demo_config_exit, []) /\
  handleEvents (key_events [SDLK_DOWN; SDLK_UP]) demo_config_exit []
  = Some (demo_config_exit, []).
Proof.
  destruct (menu_navigation_round_trip demo_config_exit []
              demo_config_exit_reachable (or_intror (or_introl eq_refl)))
    as (Hud & Hdu & _).
  split; [exact Hud | exact Hdu].
Defined.

Lemma animationTime_after_S (n : nat) (v : f32) :
  animationTime_after n (f32_add v (f32_lit 2 2))
  = animationTime_after (S n) v.
Proof.
  unfold animationTime_after. induction n as [|n IH]; [reflexivity|].
  simpl in *. now rewrite IH.
Qed.

(** Outside the Playing state, frames without events only move the
    animation clock; the loop runs them all unless it has been told to
    stop. *)
Lemma run_idle (ticks : list Z) : forall (a : Application) (rs : list Z),
  state a <> PLAYING ->
  exists n,
    (n <= length ticks)%nat /\
    (running a = true -> state a <> QUIT -> n = length ticks) /\
    run (idle_frames ticks) a rs
    = Some (set_animationTime (animationTime_after n (animationTime a)) a,
            rs).
Proof.
  induction ticks as [|t ticks IH]; intros a rs Hst.
  - exists 0%nat. split; [apply Nat.le_refl|]. split; reflexivity.
  - cbn [idle_frames map run].
    destruct (running a && negb (GameState_eqb (state a) QUIT)) eqn:Hgo.
    + unfold frame, bind. cbn [handleEvents]. unfold ret at 1.
      rewrite update_not_playing by exact Hst. unfold ret at 1.
      destruct (IH (set_animationTime
                      (f32_add (animationTime a) (f32_lit 2 2)) a) rs Hst)
        as (n & Hle & Hall & Hrun).
      exists (S n). split; [simpl; lia|].
      split.
      * intros Hr Hq. simpl. f_equal. exact (Hall Hr Hq).
      * fold (idle_frames ticks). rewrite Hrun.
        cbn [animationTime set_animationTime].
        rewrite animationTime_after_S. reflexivity.
    + exists 0%nat. split; [apply Nat.le_0_l|].
      split; [|reflexivity].
      intros Hr Hq. rewrite Hr in Hgo. simpl in Hgo.
      destruct (state a); try discriminate Hgo. now elim Hq.
Qed.

Lemma resume_back (a : Application) (v : f32) (s : GameState) :
  state a = PLAYING ->
  set_state PLAYING (set_animationTime v (set_state s a))
  = set_animationTime v a.
Proof. intros <-. reflexivity. Qed.

(** ** Pause and resume *)

(** X8. Pausing a running session with the cancel key, letting any
    number of frames go by, and resuming with the cancel key gives back
    exactly the session that was paused: only the animation clock has
    moved, by one step per frame, and no random value is read.  The
    move time is among the fields kept, so the time spent paused counts
    towards the movement interval. *)
Theorem pause_freezes_session
  (a : Application) (ticks : list Z) (rs : list Z) :
  state a = PLAYING ->
  running a = true ->
  (a1 <- onKeyDown SDLK_ESCAPE a ;;
   a2 <- run (idle_frames ticks) a1 ;;
   onKeyDown SDLK_ESCAPE a2) rs
  = Some (set_animationTime
            (animationTime_after (length ticks) (animationTime a)) a,
          rs).
Proof.
  intros Hst Hrun.
  unfold bind. unfold onKeyDown at 1. rewrite Hst. unfold ret at 1.
  destruct (run_idle ticks (set_state PAUSED a) rs) as (n & _ & Hall & ->);
    [discriminate|].
  rewrite (Hall Hrun) by discriminate.
  unfold onKeyDown. cbn [state set_animationTime set_state]. unfold ret.
  do 2 f_equal. now apply resume_back.
Qed.

Lemma pause_freezes_session_witness :
  (a1 <- onKeyDown SDLK_ESCAPE demo_eaten ;;
   a2 <- run (idle_frames [150; 400; 9000]) a1 ;;
   onKeyDown SDLK_ESCAPE a2) []
  = Some (set_animationTime
            (animationTime_after 3 (animationTime demo_eaten)) demo_eaten,
          []).
Proof.
  exact (pause_freezes_session demo_eaten [150; 400; 9000] []
           eq_refl eq_refl).
Defined.

(** ** Quit *)

Lemma quit_handleEvent (event : SDL_Event) (a : Application) rs :
  state a = QUIT ->
  exists r, handleEvent event a rs = Some (set_running r a, rs) /\
            (running a = false -> r = false).
Proof.
  intros Hst. destruct event as [|key|].
  - exists false. split; [|reflexivity]. simpl. unfold ret. do 2 f_equal.
    rewrite <- Hst. reflexivity.
  - exists (running a). split; [|easy]. simpl.
    destruct key; simpl; try rewrite Hst; reflexivity.
  - exists (running a). split; [reflexivity|easy].
Qed.

Lemma quit_handleEvents (events : list SDL_Event) :
  forall (a : Application) rs,
    state a = QUIT ->
    exists r, handleEvents events a rs = Some (set_running r a, rs) /\
              (running a = false -> r = false).
Proof.
  induction events as [|e es IH]; intros a rs Hst.
  - exists (running a). split; [reflexivity|easy].
  - cbn [handleEvents]. unfold bind.
    destruct (quit_handleEvent e a rs Hst) as (r1 & -> & H1).
    destruct (IH (set_running r1 a) rs Hst) as (r & -> & H2).
    exists r. split; [reflexivity|].
    intros Hr. apply H2. exact (H1 Hr).
Qed.

Lemma run_quit (a : Application) frames rs :
  state a = QUIT -> run frames a rs = Some (a, rs).
Proof.
  intros Hst. destruct frames as [|[events t] rest]; [reflexivity|].
  cbn [run]. rewrite Hst. cbn [GameState_eqb negb].
  rewrite andb_false_r. reflexivity.
Qed.

(** X9. Quit is terminal.  From a state in Quit the loop of [run]
    returns at once whatever frames are offered; and whatever events
    and update calls were still applied to it, the state stays Quit and
    nothing changes but the [running] flag and the animation clock. *)
Theorem quit_is_terminal (a : Application) :
  state a = QUIT ->
  (forall frames rs, run frames a rs = Some (a, rs)) /\
  (forall b, steps a b ->
     exists r v, b = set_running r (set_animationTime v a)).
Proof.
  intros Hst. split.
  - intros frames rs. now apply run_quit.
  - intros b Hsteps.
    induction Hsteps as [a | a event rs a1 rs1 b Hev _ IH
                           | a t rs a1 rs1 b Hup _ IH].
    + exists (running a), (animationTime a). reflexivity.
    + destruct (quit_handleEvent event a rs Hst) as (r1 & Heq & _).
      rewrite Heq in Hev. injection Hev as <- _.
      destruct (IH Hst) as (r & v & ->). exists r, v. reflexivity.
    + rewrite update_not_playing in Hup by congruence.
      injection Hup as <- _.
      destruct (IH Hst) as (r & v & ->). exists r, v. reflexivity.
Qed.

Lemma quit_is_terminal_witness :
  run [([SDL_KEYDOWN SDLK_RETURN], 5)] (set_state QUIT demo_eaten) demo_rs
  = Some (set_state QUIT demo_eaten, demo_rs).
Proof.
  exact (proj1 (quit_is_terminal (set_state QUIT demo_eaten) eq_refl)
           [([SDL_KEYDOWN SDLK_RETURN], 5)] demo_rs).
Defined.

(** X10. A close request ends the loop with the frame it arrives in:
    whatever events follow it in the same poll and whatever frames
    follow, [run] returns the application in Quit with [running] false,
    the session untouched; the [update] call that ends the frame only
    moves the animation clock. *)
Theorem close_request_ends_run
  (a : Application) (events : list SDL_Event) (currentTime : Z)
  (rest : list (list SDL_Event * Z)) (rs : list Z) :
  running a = true ->
  state a <> QUIT ->
  run ((SDL_QUIT :: events, currentTime) :: rest) a rs
  = Some (set_animationTime (f32_add (animationTime a) (f32_lit 2 2))
            (set_state QUIT (set_running false a)),
          rs).
Proof.
  intros Hrun Hst. cbn [run]. rewrite Hrun.
  assert (Hgo : negb (GameState_eqb (state a) QUIT) = true)
    by (destruct (state a); try reflexivity; now elim Hst).
  rewrite Hgo. cbn [andb].
  unfold frame, bind at 1 2. cbn [handleEvents handleEvent].
  unfold bind at 1. unfold ret at 1.
  destruct (quit_handleEvents events
              (set_state QUIT (set_running false a)) rs eq_refl)
    as (r & -> & Hr).
  rewrite (Hr eq_refl).
  rewrite update_not_playing by discriminate. unfold ret at 1.
  now rewrite run_quit.
Qed.

Lemma close_request_ends_run_witness :
  run [([SDL_QUIT; SDL_KEYDOWN SDLK_RETURN], 7);
       ([SDL_KEYDOWN SDLK_RETURN], 8)] demo_eaten demo_rs
  = Some (set_animationTime
            (f32_add (animationTime demo_eaten) (f32_lit 2 2))
            (set_state QUIT (set_running false demo_eaten)),
          demo_rs).
Proof.
  apply (close_request_ends_run demo_eaten [SDL_KEYDOWN SDLK_RETURN] 7
           [([SDL_KEYDOWN SDLK_RETURN], 8)] demo_rs).
  - reflexivity.
  - discriminate.
Defined.

(** ** The frame loop stays within the runs *)

Lemma steps_trans (a b c : Application) :
  steps a b -> steps b c -> steps a c.
Proof.
  induction 1 as [a | a event rs a1 rs1 b Hev _ IH
                    | a currentTime rs a1 rs1 b Hup _ IH]; intros Hbc.
  - exact Hbc.
  - exact (steps_event _ _ _ _ _ _ Hev (IH Hbc)).
  - exact (steps_update _ _ _ _ _ _ Hup (IH Hbc)).
Qed.

Lemma reachable_steps (a b : Application) :
  steps a b -> reachable a -> reachable b.
Proof.
  induction 1 as [a | a event rs a1 rs1 b Hev _ IH
                    | a currentTime rs a1 rs1 b Hup _ IH]; intros Hr.
  - exact Hr.
  - exact (IH (reach_event _ _ _ _ _ Hr Hev)).
  - exact (IH (reach_update _ _ _ _ _ Hr Hup)).
Qed.

Lemma handleEvents_steps (events : list SDL_Event) :
  forall a rs a' rs',
    handleEvents events a rs = Some (a', rs') -> steps a a'.
Proof.
  induction events as [|e es IH]; intros a rs a' rs'; cbn [handleEvents].
  - unfold ret. intros [= <- _]. apply steps_refl.
  - unfold bind. destruct (handleEvent e a rs) as [[a1 rs1]|] eqn:He;
      [|discriminate].
    intros Hrest. exact (steps_event _ _ _ _ _ _ He (IH _ _ _ _ Hrest)).
Qed.

Lemma frame_steps (events : list SDL_Event) (currentTime : Z)
  (a : Application) rs a' rs' :
  frame events currentTime a rs = Some (a', rs') -> steps a a'.
Proof.
  unfold frame, bind.
  destruct (handleEvents events a rs) as [[a1 rs1]|] eqn:He; [|discriminate].
  intros Hup. apply (steps_trans a a1 a').
  - exact (handleEvents_steps _ _ _ _ _ He).
  - exact (steps_update _ _ _ _ _ _ Hup (steps_refl a')).
Qed.

Lemma run_steps (frames : list (list SDL_Event * Z)) :
  forall a rs a' rs', run frames a rs = Some (a', rs') -> steps a a'.
Proof.
  induction frames as [|[events t] rest IH]; intros a rs a' rs'; cbn [run].
  - unfold ret. intros [= <- _]. apply steps_refl.
  - destruct (running a && negb (GameState_eqb (state a) QUIT)).
    + unfold bind.
      destruct (frame events t a rs) as [[a1 rs1]|] eqn:Hf; [|discriminate].
      intros Hrest. apply (steps_trans a a1 a').
      * exact (frame_steps _ _ _ _ _ _ Hf).
      * exact (IH _ _ _ _ Hrest).
    + unfold ret. intros [= <- _]. apply steps_refl.
Qed.

Lemma demo_frames_run :
  run demo_frames Application_init (eat_rs ++ tick_rs)
  = Some (demo_frames_result, skipn 30 tick_rs).
Proof. vm_compute. reflexivity. Qed.

(** X11. Whatever frames the loop of [run] is given, the state it
    returns is a state of a run when the state it started from is one,
    so every invariant of runs holds of it; and the high score it
    returns is never below the one it started with. *)
Theorem run_keeps_high_score
  (frames : list (list SDL_Event * Z)) (a : Application) rs a' rs' :
  reachable a ->
  run frames a rs = Some (a', rs') ->
  reachable a' /\ SnakeInv a' /\ ScoreInv a' /\
  highScore a <= highScore a'.
Proof.
  intros Hr Hrun. apply run_steps in Hrun.
  assert (Hr' : reachable a') by exact (reachable_steps _ _ Hrun Hr).
  split; [exact Hr'|].
  split; [now apply reachable_SnakeInv|].
  split; [now apply reachable_ScoreInv|].
  now apply steps_highScore.
Qed.

Lemma run_keeps_high_score_witness :
  reachable demo_frames_result /\ SnakeInv demo_frames_result /\
  ScoreInv demo_frames_result /\
  highScore Application_init <= highScore demo_frames_result.
Proof.
  exact (run_keeps_high_score demo_frames Application_init
           (eat_rs ++ tick_rs) demo_frames_result (skipn 30 tick_rs)
           reach_init demo_frames_run).
Defined.

(** ** The movement timer across a wrap of the tick counter *)

Lemma to_u32_elapsed (last elapsed : Z) :
  0 <= elapsed < 2 ^ 32 ->
  to_u32 (to_u32 (last + elapsed) - last) = elapsed.
Proof.
  intros He. unfold to_u32.
  rewrite Zminus_mod_idemp_l.
  replace (last + elapsed - last) with elapsed by ring.
  now apply Z.mod_small.
Qed.

(** X12. The movement timer is not disturbed when the 32-bit tick
    counter wraps.  With a valid interval, [elapsed] milliseconds after
    the last move (the tick counter read modulo 2^32, wrapped or not),
    the timer has elapsed exactly when [elapsed] has reached the
    interval; before that [update] only moves the animation clock. *)
Theorem timer_survives_tick_wrap
  (a : Application) (elapsed : Z) (rs : list Z) :
  state a = PLAYING ->
  0 <= snakeSpeed a < 2 ^ 32 ->
  0 <= elapsed < 2 ^ 32 ->
  (intervalElapsed (to_u32 (lastMoveTime a + elapsed)) a
   <-> snakeSpeed a <= elapsed) /\
  (elapsed < snakeSpeed a ->
   update (to_u32 (lastMoveTime a + elapsed)) a rs
   = Some (set_animationTime (f32_add (animationTime a) (f32_lit 2 2)) a,
           rs)).
Proof.
  intros Hst Hsp He.
  assert (Hiff : intervalElapsed (to_u32 (lastMoveTime a + elapsed)) a
                 <-> snakeSpeed a <= elapsed).
  { unfold intervalElapsed.
    rewrite to_u32_elapsed by exact He.
    rewrite to_u32_small by exact Hsp. reflexivity. }
  split; [exact Hiff|].
  intros Hlt. rewrite update_waiting; [reflexivity | exact Hst |].
  rewrite Hiff. lia.
Qed.

Lemma timer_survives_tick_wrap_witness :
  (intervalElapsed 70 (set_lastMoveTime (2 ^ 32 - 50) demo_playing)
   <-> 100 <= 120) /\
  (120 < 100 ->
   update 70 (set_lastMoveTime (2 ^ 32 - 50) demo_playing) []
   = Some (set_animationTime
             (f32_add (animationTime demo_playing) (f32_lit 2 2))
             (set_lastMoveTime (2 ^ 32 - 50) demo_playing),
           [])).
Proof.
  apply (timer_survives_tick_wrap
           (set_lastMoveTime (2 ^ 32 - 50) demo_playing) 120 []).
  - reflexivity.
  - vm_compute. split; [discriminate | reflexivity].
  - lia.
Defined.

Lemma randomCell_fieldCell (rx ry : Z) :
  0 <= rx -> 0 <= ry -> fieldCell (randomCell rx ry).
Proof.
  intros Hx Hy. unfold fieldCell, inBounds, onGrid, randomCell.
  cbn [pt_x pt_y].
  change (Z.quot SCREEN_WIDTH GRID_SIZE) with 40.
  change (Z.quot SCREEN_HEIGHT GRID_SIZE) with 30.
  change SCREEN_WIDTH with 800. change SCREEN_HEIGHT with 600.
  change GRID_SIZE with 20.
  rewrite !Z.rem_mod_nonneg by lia.
  pose proof (Z.mod_pos_bound rx 40 ltac:(lia)).
  pose proof (Z.mod_pos_bound ry 30 ltac:(lia)).
  repeat split; try lia.
  - exists (rx mod 40). reflexivity.
  - exists (ry mod 30). reflexivity.
Qed.

Lemma spawn_while_fieldCell (valid : Point -> bool) (rs : list Z) p rs' :
  randValues rs ->
  spawn_while valid rs = Some (p, rs') ->
  fieldCell p /\ randValues rs'.
Proof.
  unfold randValues.
  induction rs as [| r | rx ry rs IH] using list_pair_ind;
    simpl; try discriminate.
  intros Hrs. inversion Hrs as [|? ? Hx Hrs1]; subst.
  inversion Hrs1 as [|? ? Hy Hrs2]; subst.
  destruct (valid (randomCell rx ry)); [|exact (IH Hrs2)].
  intros [= <- <-]. split; [now apply randomCell_fieldCell | exact Hrs2].
Qed.

Lemma spawnFood_for_field (n : nat) : forall a rs a' rs',
  randValues rs -> FieldInv a ->
  spawnFood_for n a rs = Some (a', rs') ->
  FieldInv a' /\ randValues rs'.
Proof.
  induction n as [|n IH]; intros a rs a' rs' Hrs Hinv; simpl.
  - intros [= <- <-]. now split.
  - unfold bind.
    destruct (spawn_while (foodValid a) rs) as [[p rs1]|] eqn:Hp;
      [|discriminate].
    destruct (spawn_while_fieldCell _ _ _ _ Hrs Hp) as [Hcell Hrs1].
    apply IH; [exact Hrs1|].
    destruct Hinv as [Hf Ho]. split; [|exact Ho].
    change (Forall fieldCell (foodItems a ++ [p])).
    apply Forall_app. split; [exact Hf | now constructor].
Qed.

Lemma spawnObstacles_for_field (n : nat) : forall a rs a' rs',
  randValues rs -> FieldInv a ->
  spawnObstacles_for n a rs = Some (a', rs') ->
  FieldInv a' /\ randValues rs'.
Proof.
  induction n as [|n IH]; intros a rs a' rs' Hrs Hinv; simpl.
  - intros [= <- <-]. now split.
  - unfold bind.
    destruct (spawn_while (obstacleValid a) rs) as [[p rs1]|] eqn:Hp;
      [|discriminate].
    destruct (spawn_while_fieldCell _ _ _ _ Hrs Hp) as [Hcell Hrs1].
    apply IH; [exact Hrs1|].
    destruct Hinv as [Hf Ho]. split; [exact Hf|].
    change (Forall fieldCell (obstacles a ++ [p])).
    apply Forall_app. split; [exact Ho | now constructor].
Qed.

Lemma resetGame_field (a : Application) rs a' rs' :
  randValues rs ->
  resetGame a rs = Some (a', rs') ->
  FieldInv a' /\ randValues rs'.
Proof.
  intros Hrs. unfold resetGame, bind, spawnFood, spawnObstacles.
  match goal with
  | |- context [spawnFood_for ?n ?b rs] =>
      destruct (spawnFood_for n b rs) as [[a1 rs1]|] eqn:Hf; [|discriminate];
      destruct (spawnFood_for_field n b rs a1 rs1 Hrs) as [Hinv1 Hrs1];
      [split; constructor | exact Hf |]
  end.
  now apply spawnObstacles_for_field.
Qed.

Lemma handleCollision_field (a : Application) rs a' rs' :
  randValues rs ->
  handleCollision a rs = Some (a', rs') ->
  FieldInv a' /\ randValues rs'.
Proof.
  intros Hrs. unfold handleCollision.
  destruct (snake a) as [|head tl]; [discriminate|].
  now apply resetGame_field.
Qed.

Lemma handleEvent_field (event : SDL_Event) (a : Application) rs a' rs' :
  randValues rs -> FieldInv a ->
  handleEvent event a rs = Some (a', rs') ->
  FieldInv a' /\ randValues rs'.
Proof.
  intros Hrs Hinv Hev.
  destruct (handleEvent_cases _ _ _ _ _ Hev)
    as [(_ & _ & _ & Hreset) | (-> & Hsame & _)].
  - exact (resetGame_field _ _ _ _ Hrs Hreset).
  - split; [|exact Hrs].
    destruct Hsame as (_ & Hf & Ho & _). unfold FieldInv.
    split; [rewrite Hf | rewrite Ho]; apply Hinv.
Qed.

Lemma update_field (currentTime : Z) (a : Application) rs a' rs' :
  randValues rs -> FieldInv a ->
  update currentTime a rs = Some (a', rs') ->
  FieldInv a' /\ randValues rs'.
Proof.
  intros Hrs Hinv Hrun.
  destruct (state a) eqn:Hst;
    try (rewrite update_not_playing in Hrun by congruence;
         injection Hrun as <- <-; now split).
  destruct (Z_le_gt_dec (to_u32 (snakeSpeed a))
                        (to_u32 (currentTime - lastMoveTime a)))
    as [Hel | Hwait].
  2:{ rewrite update_waiting in Hrun
        by (try assumption; unfold intervalElapsed; lia).
      injection Hrun as <- <-. now split. }
  destruct (snake a) as [|head tl] eqn:Hsn.
  { rewrite update_empty in Hrun by assumption.
    injection Hrun as <- <-. now split. }
  assert (Hcollide :
            In (newHead head (direction a)) (snake a) \/
            In (newHead head (direction a)) (obstacles a) ->
            FieldInv a' /\ randValues rs').
  { intros Hhit.
    rewrite (update_collision currentTime a head tl Hst Hel Hsn Hhit)
      in Hrun.
    exact (handleCollision_field _ _ _ _ Hrs Hrun). }
  destruct (hits (newHead head (direction a)) (snake a)) eqn:Hself;
    [apply hits_In in Hself; now apply Hcollide; left|].
  destruct (hits (newHead head (direction a)) (obstacles a)) eqn:Hobst;
    [apply hits_In in Hobst; now apply Hcollide; right|].
  apply hits_false in Hself, Hobst.
  destruct (hits (newHead head (direction a)) (foodItems a)) eqn:Heat.
  - apply hits_In in Heat.
    rewrite (update_eat currentTime a head tl) in Hrun by assumption.
    unfold bind, spawnFood, spawnObstacles in Hrun.
    match type of Hrun with
    | context [spawnFood_for ?n ?b rs] =>
        destruct (spawnFood_for n b rs) as [[a1 rs1]|] eqn:Hf;
        [|discriminate Hrun];
        destruct (spawnFood_for_field n b rs a1 rs1 Hrs) as [Hinv1 Hrs1];
        [split; [constructor | exact (proj2 Hinv)] | exact Hf |]
    end.
    match type of Hrun with
    | context [spawnObstacles_for ?n ?b rs1] =>
        destruct (spawnObstacles_for n b rs1) as [[a2 rs2]|] eqn:Ho;
        [|discriminate Hrun];
        destruct (spawnObstacles_for_field n b rs1 a2 rs2 Hrs1 Hinv1 Ho)
          as [Hinv2 Hrs2]
    end.
    injection Hrun as <- <-. now split.
  - apply hits_false in Heat.
    rewrite (update_move currentTime a head tl) in Hrun by assumption.
    injection Hrun as <- <-. now split.
Qed.

Lemma handleEvents_field (events : list SDL_Event) :
  forall a rs a' rs',
    randValues rs -> FieldInv a ->
    handleEvents events a rs = Some (a', rs') ->
    FieldInv a' /\ randValues rs'.
Proof.
  induction events as [|e es IH]; intros a rs a' rs' Hrs Hinv;
    cbn [handleEvents].
  - unfold ret. intros [= <- <-]. now split.
  - unfold bind. destruct (handleEvent e a rs) as [[a1 rs1]|] eqn:He;
      [|discriminate].
    destruct (handleEvent_field _ _ _ _ _ Hrs Hinv He) as [Hinv1 Hrs1].
    now apply IH.
Qed.

Lemma run_field (frames : list (list SDL_Event * Z)) :
  forall a rs a' rs',
    randValues rs -> FieldInv a ->
    run frames a rs = Some (a', rs') ->
    FieldInv a' /\ randValues rs'.
Proof.
  induction frames as [|[events t] rest IH]; intros a rs a' rs' Hrs Hinv;
    cbn [run].
  - unfold ret. intros [= <- <-]. now split.
  - destruct (running a && negb (GameState_eqb (state a) QUIT)).
    + unfold bind, frame at 1. unfold bind.
      destruct (handleEvents events a rs) as [[a1 rs1]|] eqn:He;
        [|discriminate].
      destruct (handleEvents_field _ _ _ _ _ Hrs Hinv He) as [Hinv1 Hrs1].
      destruct (update t a1 rs1) as [[a2 rs2]|] eqn:Hu; [|discriminate].
      destruct (update_field _ _ _ _ _ Hrs1 Hinv1 Hu) as [Hinv2 Hrs2].
      now apply IH.
    + unfold ret. intros [= <- <-]. now split.
Qed.

(** X13. In a run of the frame loop from the constructed application
    on [std::rand()] values, which are never negative, every food item
    and every obstacle lies on a grid cell inside the canvas, and so
    does the snake: nothing is ever placed where it cannot be drawn or
    reached. *)
Theorem run_field_in_canvas
  (frames : list (list SDL_Event * Z)) (rs : list Z) a rs' :
  randValues rs ->
  run frames Application_init rs = Some (a, rs') ->
  Forall fieldCell (foodItems a) /\
  Forall fieldCell (obstacles a) /\
  Forall fieldCell (snake a).
Proof.
  intros Hrs Hrun.
  destruct (run_field frames Application_init rs a rs' Hrs) as [[Hf Ho] _];
    [split; constructor | exact Hrun |].
  split; [exact Hf|]. split; [exact Ho|].
  assert (Hr : reachable a)
    by exact (reachable_steps _ _ (run_steps _ _ _ _ _ Hrun) reach_init).
  pose proof (inv_snake a (reachable_Inv a Hr)) as Hb.
  pose proof (snake_onGrid a (reachable_SnakeInv a Hr)) as Hg.
  rewrite Forall_forall in *. intros p Hp. split; auto.
Qed.

Lemma run_field_in_canvas_witness :
  Forall fieldCell (foodItems demo_frames_result) /\
  Forall fieldCell (obstacles demo_frames_result) /\
  Forall fieldCell (snake demo_frames_result).
Proof.
  apply (run_field_in_canvas demo_frames (eat_rs ++ tick_rs)
           demo_frames_result (skipn 30 tick_rs)).
  - unfold randValues. apply Forall_forall. intros r Hr.
    apply Z.leb_le.
    revert r Hr. apply forallb_forall. vm_compute. reflexivity.
  - exact demo_frames_run.
Defined.

(** ** The count items of the configuration menu *)

Lemma set_numFoodItems_back (a : Application) (v w : Z) :
  v = numFoodItems a -> set_numFoodItems v (set_numFoodItems w a) = a.
Proof. intros ->. reflexivity. Qed.

Lemma set_numObstacles_back (a : Application) (v w : Z) :
  v = numObstacles a -> set_numObstacles v (set_numObstacles w a) = a.
Proof. intros ->. reflexivity. Qed.

(** X14. On the food-count and obstacle-count items of the
    configuration menu of a run, "increase" followed by "decrease"
    gives back the state it started from, and "decrease" lowers the
    highlighted count by one but never below zero, leaving the other
    count alone. *)
Theorem count_items_adjustment (a : Application) (rs : list Z) :
  reachable a ->
  state a = CONFIG_MENU ->
  configOption a = 1 \/ configOption a = 2 ->
  handleEvents (key_events [SDLK_RIGHT; SDLK_LEFT]) a rs = Some (a, rs) /\
  exists a',
    onKeyDown SDLK_LEFT a rs = Some (a', rs) /\
    numFoodItems a'
    = (if configOption a =? 1 then Z.max 0 (numFoodItems a - 1)
       else numFoodItems a) /\
    numObstacles a'
    = (if configOption a =? 2 then Z.max 0 (numObstacles a - 1)
       else numObstacles a).
Proof.
  intros Hr Hst Hopt.
  pose proof (inv_numFoodItems a (reachable_Inv a Hr)) as Hf.
  pose proof (inv_numObstacles a (reachable_Inv a Hr)) as Ho.
  assert (Hright : onKeyDown SDLK_RIGHT a rs
                   = Some (adjustConfigOption true a, rs))
    by (unfold onKeyDown; rewrite Hst; reflexivity).
  assert (Hleft : onKeyDown SDLK_LEFT a rs
                  = Some (adjustConfigOption false a, rs))
    by (unfold onKeyDown; rewrite Hst; reflexivity).
  destruct Hopt as [Hopt | Hopt].
  - split.
    + apply (press2 _ _ _ _ _ _ _ _ Hright).
      unfold adjustConfigOption at 1. rewrite Hopt.
      cbn [ConfigOption_of_int].
      unfold onKeyDown. cbn [state set_numFoodItems]. rewrite Hst.
      unfold adjustConfigOption.
      cbn [configOption numFoodItems set_numFoodItems]. rewrite Hopt.
      cbn [ConfigOption_of_int].
      destruct (Z.ltb_spec 0 (numFoodItems a + 1)) as [_ | Hle]; [|lia].
      unfold ret. do 2 f_equal.
      apply set_numFoodItems_back. lia.
    + exists (adjustConfigOption false a). split; [exact Hleft|].
      unfold adjustConfigOption. rewrite Hopt.
      cbn [ConfigOption_of_int Z.eqb Pos.eqb].
      destruct (Z.ltb_spec 0 (numFoodItems a)) as [Hpos | Hle];
        cbn [numFoodItems numObstacles set_numFoodItems]; lia.
  - split.
    + apply (press2 _ _ _ _ _ _ _ _ Hright).
      unfold adjustConfigOption at 1. rewrite Hopt.
      cbn [ConfigOption_of_int].
      unfold onKeyDown. cbn [state set_numObstacles]. rewrite Hst.
      unfold adjustConfigOption.
      cbn [configOption numObstacles set_numObstacles]. rewrite Hopt.
      cbn [ConfigOption_of_int].
      destruct (Z.ltb_spec 0 (numObstacles a + 1)) as [_ | Hle]; [|lia].
      unfold ret. do 2 f_equal.
      apply set_numObstacles_back. lia.
    + exists (adjustConfigOption false a). split; [exact Hleft|].
      unfold adjustConfigOption. rewrite Hopt.
      cbn [ConfigOption_of_int Z.eqb Pos.eqb].
      destruct (Z.ltb_spec 0 (numObstacles a)) as [Hpos | Hle];
        cbn [numFoodItems numObstacles set_numObstacles]; lia.
Qed.

Lemma count_items_adjustment_witness :
  handleEvents (key_events [SDLK_RIGHT; SDLK_LEFT])
               (set_configOption 2 (set_numObstacles 0 demo_config)) []
  = Some (set_configOption 2 (set_numObstacles 0 demo_config), []) /\
  exists a',
    onKeyDown SDLK_LEFT (set_configOption 2 (set_numObstacles 0 demo_config))
              []
    = Some (a', []) /\
    numFoodItems a' = 10 /\ numObstacles a' = 0.
Proof.
  assert (Hrun : handleEvents
                   (key_events ([SDLK_DOWN; SDLK_RETURN; SDLK_DOWN; SDLK_DOWN]
                                ++ repeat SDLK_LEFT 15))
                   Application_init []
                 = Some (set_configOption 2 (set_numObstacles 0 demo_config),
                         []))
    by (vm_compute; reflexivity).
  exact (count_items_adjustment
           (set_configOption 2 (set_numObstacles 0 demo_config)) []
           (reachable_handleEvents _ _ _ _ _ reach_init Hrun)
           eq_refl (or_intror eq_refl)).
Defined.

(** ** The grass items of the configuration menu *)

Lemma f32_max_zero (x : f32) :
  f32_leb (f32_of_int 0) (f32_max (f32_of_int 0) x) = true.
Proof.
  unfold f32_max, f32_ltb, f32_leb, SFltb, SFleb.
  set (zero := f32_of_int 0).
  destruct (SFcompare zero x) as [[| |]|] eqn:Hc;
    try (subst zero; vm_compute; reflexivity).
  now rewrite Hc.
Qed.

(** X15. "Decrease" on the wave-amplitude or the wave-speed item never
    leaves a negative value or a NaN, whatever the value was before
    (a NaN or an infinity included): the new value compares greater
    than or equal to zero.  No other item is touched. *)
Theorem grass_items_floor (a : Application) :
  (configOption a = 3 ->
   f32_leb (f32_of_int 0) (grassWaveAmplitude (adjustConfigOption false a))
   = true /\
   adjustConfigOption false a
   = set_grassWaveAmplitude (grassWaveAmplitude (adjustConfigOption false a))
       a) /\
  (configOption a = 4 ->
   f32_leb (f32_of_int 0) (grassWaveSpeed (adjustConfigOption false a))
   = true /\
   adjustConfigOption false a
   = set_grassWaveSpeed (grassWaveSpeed (adjustConfigOption false a)) a).
Proof.
  split; intros Hopt; unfold adjustConfigOption; rewrite Hopt;
    cbn [ConfigOption_of_int grassWaveAmplitude grassWaveSpeed
         set_grassWaveAmplitude set_grassWaveSpeed];
    (split; [apply f32_max_zero | reflexivity]).
Qed.

Lemma newHead_back (neck d : Point) :
  inBounds neck -> onGrid neck -> unitDirection d ->
  newHead (newHead neck d) (opposite d) = neck.
Proof.
  unfold inBounds, onGrid, newHead, opposite, SCREEN_WIDTH, SCREEN_HEIGHT,
    GRID_SIZE.
  destruct neck as [x y]. cbn [pt_x pt_y].
  intros [Hx Hy] [[kx Hkx] [ky Hky]] [-> | [-> | [-> | ->]]];
    cbn [pt_x pt_y];
    repeat match goal with
           | |- context [?u <? ?v] => destruct (Z.ltb_spec u v)
           | |- context [?u <=? ?v] => destruct (Z.leb_spec u v)
           | H : context [?u <? ?v] |- _ => destruct (Z.ltb_spec u v)
           | H : context [?u <=? ?v] |- _ => destruct (Z.leb_spec u v)
           end;
    f_equal; lia.
Qed.

(** X16. The guard on direction changes looks at the current direction
    only, so two key presses between two ticks reverse the snake: in a
    run, with the head one step ahead of the second segment along the
    current direction, the opposite key alone is refused, but a side
    key followed by the opposite key leaves the direction reversed, and
    the next tick whose interval has elapsed then finds the new head on
    the second segment and is a collision tick. *)
Theorem quick_reversal_collides
  (a : Application) (head neck : Point) (tl : list Point)
  (currentTime : Z) (rs : list Z) :
  reachable a ->
  state a = PLAYING ->
  snake a = head :: neck :: tl ->
  head = newHead neck (direction a) ->
  intervalElapsed currentTime a ->
  onKeyDown (backKey (direction a)) a rs = Some (a, rs) /\
  exists a2,
    handleEvents (key_events [sideKey (direction a); backKey (direction a)])
                 a rs
    = Some (a2, rs) /\
    direction a2 = opposite (direction a) /\
    snake a2 = snake a /\
    update currentTime a2 = handleCollision (ticked currentTime a2).
Proof.
  intros Hr Hst Hsn Hhead Hel.
  pose proof (reachable_Inv a Hr) as Hinv.
  pose proof (reachable_SnakeInv a Hr) as Hsinv.
  assert (Hneck : inBounds neck /\ onGrid neck).
  { pose proof (inv_snake a Hinv) as Hb.
    pose proof (snake_onGrid a Hsinv) as Hg.
    rewrite Hsn in Hb, Hg. rewrite Forall_forall in Hb, Hg.
    split; [apply Hb | apply Hg]; right; left; reflexivity. }
  destruct Hneck as [Hnb Hng].
  pose proof (inv_direction a Hinv) as Hdir.
  pose proof (newHead_back neck (direction a) Hnb Hng Hdir) as Hback.
  rewrite <- Hhead in Hback.
  assert (Hcollide :
            forall a2, state a2 = PLAYING ->
                       snake a2 = snake a ->
                       lastMoveTime a2 = lastMoveTime a ->
                       snakeSpeed a2 = snakeSpeed a ->
                       direction a2 = opposite (direction a) ->
                       update currentTime a2
                       = handleCollision (ticked currentTime a2)).
  { intros a2 Hst2 Hsn2 Hlast2 Hsp2 Hd2.
    apply (update_collision currentTime a2 head (neck :: tl)).
    - exact Hst2.
    - unfold intervalElapsed. rewrite Hlast2, Hsp2. exact Hel.
    - now rewrite Hsn2.
    - left. rewrite Hd2, Hback, Hsn2, Hsn. right. left. reflexivity. }
  destruct (direction a) as [dx dy] eqn:Hd.
  assert (Hcases : (dx = 1 /\ dy = 0) \/ (dx = -1 /\ dy = 0) \/
                   (dx = 0 /\ dy = 1) \/ (dx = 0 /\ dy = -1)).
  { destruct Hdir as [H | [H | [H | H]]]; injection H as -> ->; lia. }
  destruct Hcases as [[-> ->] | [[-> ->] | [[-> ->] | [-> ->]]]];
    cbn [sideKey backKey pt_x pt_y Z.eqb Z.ltb Z.compare].
  - split.
    + unfold onKeyDown. rewrite Hst, Hd. reflexivity.
    + exists (set_direction (mkPoint (-1) 0)
                (set_direction (mkPoint 0 (-1)) a)).
      split.
      * eapply (press2 _ _ a (set_direction (mkPoint 0 (-1)) a));
          unfold onKeyDown; cbn [state direction set_direction];
          rewrite Hst; try rewrite Hd; reflexivity.
      * split; [reflexivity|]. split; [reflexivity|].
        apply Hcollide; try reflexivity; exact Hst.
  - split.
    + unfold onKeyDown. rewrite Hst, Hd. reflexivity.
    + exists (set_direction (mkPoint 1 0)
                (set_direction (mkPoint 0 (-1)) a)).
      split.
      * eapply (press2 _ _ a (set_direction (mkPoint 0 (-1)) a));
          unfold onKeyDown; cbn [state direction set_direction];
          rewrite Hst; try rewrite Hd; reflexivity.
      * split; [reflexivity|]. split; [reflexivity|].
        apply Hcollide; try reflexivity; exact Hst.
  - split.
    + unfold onKeyDown. rewrite Hst, Hd. reflexivity.
    + exists (set_direction (mkPoint 0 (-1))
                (set_direction (mkPoint (-1) 0) a)).
      split.
      * eapply (press2 _ _ a (set_direction (mkPoint (-1) 0) a));
          unfold onKeyDown; cbn [state direction set_direction];
          rewrite Hst; try rewrite Hd; reflexivity.
      * split; [reflexivity|]. split; [reflexivity|].
        apply Hcollide; try reflexivity; exact Hst.
  - split.
    + unfold onKeyDown. rewrite Hst, Hd. reflexivity.
    + exists (set_direction (mkPoint 0 1)
                (set_direction (mkPoint (-1) 0) a)).
      split.
      * eapply (press2 _ _ a (set_direction (mkPoint (-1) 0) a));
          unfold onKeyDown; cbn [state direction set_direction];
          rewrite Hst; try rewrite Hd; reflexivity.
      * split; [reflexivity|]. split; [reflexivity|].
        apply Hcollide; try reflexivity; exact Hst.
Qed.

Lemma quick_reversal_collides_witness :
  onKeyDown SDLK_LEFT demo_eaten [] = Some (demo_eaten, []) /\
  exists a2,
    handleEvents (key_events [SDLK_UP; SDLK_LEFT]) demo_eaten []
    = Some (a2, []) /\
    direction a2 = mkPoint (-1) 0 /\
    snake a2 = snake demo_eaten /\
    update 200 a2 = handleCollision (ticked 200 a2).
Proof.
  apply (quick_reversal_collides demo_eaten (mkPoint 420 300)
           (mkPoint 400 300) [] 200 []).
  - exact demo_eaten_reachable.
  - reflexivity.
  - reflexivity.
  - reflexivity.
  - vm_compute. discriminate.
Defined.

(** ** The flashlight mask *)

Lemma grid_loop_In (fuel : nat) : forall i stop x,
  (Z.to_nat (stop - i) <= fuel)%nat ->
  In x (grid_loop fuel i stop) <->
  i <= x < stop /\ (GRID_SIZE | x - i).
Proof.
  unfold GRID_SIZE.
  induction fuel as [|fuel IH]; intros i stop x Hfuel; cbn [grid_loop]; unfold GRID_SIZE.
  - split; [intros [] | intros [Hx _]; exfalso; lia].
  - destruct (Z.ltb_spec i stop) as [Hlt | Hge].
    + cbn [In]. rewrite IH by lia. split.
      * intros [<- | [Hx [k Hk]]].
        -- split; [lia|]. exists 0. lia.
        -- split; [lia|]. exists (k + 1). lia.
      * intros [Hx [k Hk]].
        destruct (Z.eq_dec x i) as [-> | Hne]; [now left|].
        right. split; [lia|]. exists (k - 1). lia.
    + split; [intros [] | intros [Hx _]; exfalso; lia].
Qed.

Lemma grid_steps_In (stop x : Z) :
  In x (grid_steps stop) <-> 0 <= x < stop /\ (GRID_SIZE | x).
Proof.
  unfold grid_steps. rewrite grid_loop_In by lia.
  now rewrite Z.sub_0_r.
Qed.

(** X17. What the flashlight covers.  With a snake on the board,
    [renderFlashlight] blacks out exactly the grid cells of the canvas
    whose distance to the head cell is more than five cells, measured
    in a straight line on the canvas: the head cell is never covered,
    a cell five steps straight ahead is still lit, and a cell that is
    near only across an edge of the board is covered although the
    snake can step onto it. *)
Theorem flashlight_mask (a : Application) (head : Point) (tl : list Point) :
  snake a = head :: tl ->
  exists blocks,
    renderFlashlight a = Some blocks /\
    forall r,
      In r blocks <->
      (rect_w r = GRID_SIZE /\ rect_h r = GRID_SIZE /\
       fieldCell (mkPoint (rect_x r) (rect_y r)) /\
       (FLASHLIGHT_RADIUS_BLOCKS * GRID_SIZE)
       * (FLASHLIGHT_RADIUS_BLOCKS * GRID_SIZE)
       < (rect_x r - pt_x head) * (rect_x r - pt_x head)
         + (rect_y r - pt_y head) * (rect_y r - pt_y head)).
Proof.
  intros Hsn. unfold renderFlashlight. rewrite Hsn.
  eexists. split; [reflexivity|].
  intros [x y w h]. cbn [rect_x rect_y rect_w rect_h].
  unfold fieldCell, inBounds, onGrid. cbn [pt_x pt_y].
  rewrite in_flat_map. split.
  - intros (y0 & Hy0 & Hin). rewrite in_flat_map in Hin.
    destruct Hin as (x0 & Hx0 & Hin).
    apply grid_steps_In in Hy0, Hx0.
    cbv zeta in Hin.
    match type of Hin with
    | In _ (if ?c then _ else _) => destruct c eqn:Hc; [|destruct Hin]
    end.
    destruct Hin as [Heq | []]. injection Heq as <- <- <- <-.
    apply Z.ltb_lt in Hc.
    repeat split; try tauto.
    replace (x0 - pt_x head)
      with (x0 + Z.quot GRID_SIZE 2 - (pt_x head + Z.quot GRID_SIZE 2))
      by ring.
    replace (y0 - pt_y head)
      with (y0 + Z.quot GRID_SIZE 2 - (pt_y head + Z.quot GRID_SIZE 2))
      by ring.
    exact Hc.
  - intros (-> & -> & [[Hx Hy] [Hgx Hgy]] & Hfar).
    exists y. split; [apply grid_steps_In; now split|].
    rewrite in_flat_map.
    exists x. split; [apply grid_steps_In; now split|].
    cbv zeta.
    match goal with
    | |- In _ (if ?c then _ else _) => assert (Hc : c = true)
    end.
    { apply Z.ltb_lt.
      replace (x + Z.quot GRID_SIZE 2 - (pt_x head + Z.quot GRID_SIZE 2))
        with (x - pt_x head) by ring.
      replace (y + Z.quot GRID_SIZE 2 - (pt_y head + Z.quot GRID_SIZE 2))
        with (y - pt_y head) by ring.
      exact Hfar. }
    rewrite Hc. now left.
Qed.

Lemma flashlight_mask_witness :
  exists blocks,
    renderFlashlight demo_eaten = Some blocks /\
    forall r,
      In r blocks <->
      (rect_w r = 20 /\ rect_h r = 20 /\
       fieldCell (mkPoint (rect_x r) (rect_y r)) /\
       100 * 100
       < (rect_x r - 420) * (rect_x r - 420)
         + (rect_y r - 300) * (rect_y r - 300)).
Proof.
  exact (flashlight_mask demo_eaten (mkPoint 420 300) [mkPoint 400 300]
           eq_refl).
Defined.

(** ** The grass field *)

Lemma generateGrass_for_short (n : nat) : forall grassBlades rs,
  (length rs < 5 * n)%nat ->
  generateGrass_for n grassBlades rs = None.
Proof.
  induction n as [|n IH]; intros acc rs Hlen; [simpl in Hlen; lia|].
  cbn [generateGrass_for].
  destruct rs as [|r1 [|r2 [|r3 [|r4 [|r5 rs]]]]]; try reflexivity.
  apply IH. cbn [length] in Hlen. lia.
Qed.

Lemma generateGrass_for_spec (n : nat) : forall grassBlades rs,
  (5 * n <= length rs)%nat ->
  exists blades,
    generateGrass_for n grassBlades rs
    = Some (grassBlades ++ blades, skipn (5 * n) rs) /\
    length blades = n /\
    forall i, (i < n)%nat ->
      nth_error blades i
      = Some (randomBlade (nth (5 * i) rs 0) (nth (5 * i + 1) rs 0)
                          (nth (5 * i + 2) rs 0) (nth (5 * i + 3) rs 0)
                          (nth (5 * i + 4) rs 0)).
Proof.
  induction n as [|n IH]; intros acc rs Hlen.
  - exists []. rewrite app_nil_r. split; [reflexivity|].
    split; [reflexivity|]. intros i Hi. lia.
  - destruct rs as [|r1 [|r2 [|r3 [|r4 [|r5 rs]]]]];
      cbn [length] in Hlen; try lia.
    cbn [generateGrass_for].
    destruct (IH (acc ++ [randomBlade r1 r2 r3 r4 r5]) rs ltac:(lia))
      as (blades & Hrun & Hlen' & Hnth).
    exists (randomBlade r1 r2 r3 r4 r5 :: blades).
    split; [|split].
    + rewrite Hrun. rewrite <- app_assoc.
      replace (5 * S n)%nat with (S (S (S (S (S (5 * n)))))) by lia.
      reflexivity.
    + cbn [length]. now rewrite Hlen'.
    + intros [|i] Hi; [reflexivity|].
      cbn [nth_error]. rewrite Hnth by lia.
      replace (5 * S i)%nat with (S (S (S (S (S (5 * i)))))) by lia.
      reflexivity.
Qed.

(** X18. [generateGrass] reads exactly five random values per blade,
    15000 in all, and leaves 3000 blades, blade [i] built from the
    values at positions [5i] to [5i+4]; with fewer values left in the
    sequence it does not return. *)
Theorem generateGrass_reads (rs : list Z) :
  ((length rs < 5 * 3000)%nat -> generateGrass rs = None) /\
  ((5 * 3000 <= length rs)%nat ->
   exists blades,
     generateGrass rs = Some (blades, skipn (5 * 3000) rs) /\
     length blades = 3000%nat /\
     forall i, (i < 3000)%nat ->
       nth_error blades i
       = Some (randomBlade (nth (5 * i) rs 0) (nth (5 * i + 1) rs 0)
                           (nth (5 * i + 2) rs 0) (nth (5 * i + 3) rs 0)
                           (nth (5 * i + 4) rs 0))).
Proof.
  unfold generateGrass. split.
  - apply generateGrass_for_short.
  - intros Hlen. exact (generateGrass_for_spec 3000 [] rs Hlen).
Qed.

Lemma life_after_alive (k : nat) :
  (k < 19)%nat -> f32_leb (life_after (S k)) (f32_of_int 0) = false.
Proof.
  intros Hk.
  do 19 (destruct k as [|k]; [vm_compute; reflexivity|]).
  lia.
Qed.

Lemma life_after_dead : f32_leb (life_after 20) (f32_of_int 0) = true.
Proof. vm_compute. reflexivity. Qed.

Lemma decaySparkles_aged (n : nat) (a : Application) :
  agedFrom n a -> agedFrom (S n) (decaySparkles a).
Proof.
  unfold agedFrom, decaySparkles. cbn [sparkles set_sparkles].
  rewrite !Forall_forall. intros Hall s Hin.
  apply filter_In in Hin. destruct Hin as [Hin Halive].
  apply in_map_iff in Hin. destruct Hin as (s0 & <- & Hin0).
  destruct (Hall s0 Hin0) as (k & Hk & Hlife).
  cbn [sp_life] in *. rewrite Hlife in *.
  change (f32_sub (life_after k) (f32_lit 5 2)) with (life_after (S k))
    in *.
  exists (S k). split; [|reflexivity].
  destruct (Nat.eq_dec (S k) 20) as [Heq | Hne]; [|lia].
  rewrite Heq, life_after_dead in Halive. discriminate Halive.
Qed.

Lemma agedFrom_iter (n : nat) (a : Application) :
  agedFrom 0 a -> agedFrom n (Nat.iter n decaySparkles a).
Proof.
  intros H0. induction n as [|n IH]; [exact H0|].
  cbn [Nat.iter nat_rect]. now apply decaySparkles_aged.
Qed.

Lemma agedFrom_set (a b : Application) :
  sparkles b = sparkles a -> agedFrom 0 a -> agedFrom 0 b.
Proof. unfold agedFrom. now intros ->. Qed.

Lemma agedFrom_weaken (n : nat) (a : Application) :
  agedFrom n a -> agedFrom 0 a.
Proof.
  unfold agedFrom. apply Forall_impl. intros s (k & Hk & Hlife).
  exists k. split; [lia | exact Hlife].
Qed.

Lemma reachable_agedFrom (a : Application) : reachable a -> agedFrom 0 a.
Proof.
  induction 1 as [| a event rs a' rs' _ IH Hrun
                  | a currentTime rs a' rs' _ IH Hrun].
  - constructor.
  - destruct (handleEvent_cases _ _ _ _ _ Hrun)
      as [(_ & _ & _ & Hreset) | (_ & Hsame & _)].
    + apply resetGame_spec in Hreset.
      destruct Hreset as (food & obs & -> & _). exact IH.
    + destruct Hsame as (_ & _ & _ & _ & _ & Hsp & _).
      exact (agedFrom_set a a' Hsp IH).
  - destruct (update_cases _ _ _ _ _ Hrun)
      as [(_ & _ & ->)
         | [(_ & _ & _ & _ & ->)
           | [(head & tl & food & obs & _ & _ & _ & _ & _ & _ & _ & _ & ->)
             | [(head & tl & food & obs & _ & _ & _ & _ & _ & _ & _ & _
                 & _ & _ & ->)
               | (head & tl & _ & _ & _ & _ & _ & _ & _ & ->)]]]].
    + exact IH.
    + apply agedFrom_weaken with (n := 1%nat).
      apply decaySparkles_aged. exact IH.
    + unfold agedFrom.
      change (Forall
                (fun s => exists k, (0 <= k < 20)%nat /\
                                    sp_life s = life_after k)
                (sparkles a ++ repeat (collisionSparkle head) 20)).
      apply Forall_app. split; [exact IH|].
      apply Forall_forall. intros s Hs. apply repeat_spec in Hs. subst s.
      exists 0%nat. split; [lia | reflexivity].
    + apply agedFrom_weaken with (n := 1%nat).
      apply decaySparkles_aged. exact IH.
    + apply agedFrom_weaken with (n := 1%nat).
      apply decaySparkles_aged. exact IH.
Qed.

Lemma decay_single (x y : f32) (a : Application) (n : nat) :
  (n <= 19)%nat ->
  sparkles (Nat.iter n decaySparkles
              (set_sparkles [mkSparkle x y (f32_of_int 1)] a))
  = [mkSparkle x y (life_after n)].
Proof.
  induction n as [|n IH]; intros Hn; [reflexivity|].
  cbn [Nat.iter nat_rect]. unfold decaySparkles at 1.
  cbn [sparkles set_sparkles].
  change (nat_rect (fun _ => Application) ?z (fun _ => decaySparkles) n)
    with (Nat.iter n decaySparkles z).
  rewrite IH by lia. cbn [map filter sp_x sp_y sp_life].
  change (f32_sub (life_after n) (f32_lit 5 2)) with (life_after (S n)).
  rewrite life_after_alive by lia. reflexivity.
Qed.

Lemma demo_collided_run :
  update 100 demo_colliding collide_rs = Some (demo_collided, []).
Proof. vm_compute. reflexivity. Qed.

Lemma demo_collided_reachable : reachable demo_collided.
Proof.
  exact (reach_update _ _ _ _ _ demo_colliding_reachable demo_collided_run).
Qed.

(** X19. A sparkle lives for nineteen decay passes.  In every state of
    a run each sparkle's life is the burst value 1.0 lowered by 0.05
    some number of times below twenty; twenty decay passes (twenty
    moving ticks without a collision) leave no sparkle at all, while a
    fresh sparkle is still there after nineteen.  The binary32 rounding
    of 0.05 does not push the twentieth value above zero. *)
Theorem sparkle_lifetime (a : Application) :
  reachable a ->
  (forall s, In s (sparkles a) ->
     exists k, (k < 20)%nat /\ sp_life s = life_after k) /\
  sparkles (Nat.iter 20 decaySparkles a) = [] /\
  (forall x y,
     sparkles (Nat.iter 19 decaySparkles
                 (set_sparkles [mkSparkle x y (f32_of_int 1)] a))
     = [mkSparkle x y (life_after 19)]).
Proof.
  intros Hr. pose proof (reachable_agedFrom a Hr) as H0.
  split; [|split].
  - intros s Hs. unfold agedFrom in H0. rewrite Forall_forall in H0.
    destruct (H0 s Hs) as (k & Hk & Hlife). exists k. split; [lia|].
    exact Hlife.
  - pose proof (agedFrom_iter 20 a H0) as H20. unfold agedFrom in H20.
    destruct (sparkles (Nat.iter 20 decaySparkles a)) as [|s l];
      [reflexivity|].
    inversion H20 as [|? ? (k & Hk & _) _]. lia.
  - intros x y. apply decay_single. lia.
Qed.

Lemma sparkle_lifetime_witness :
  (forall s, In s (sparkles demo_collided) ->
     exists k, (k < 20)%nat /\ sp_life s = life_after k) /\
  sparkles (Nat.iter 20 decaySparkles demo_collided) = [] /\
  (forall x y,
     sparkles (Nat.iter 19 decaySparkles
                 (set_sparkles [mkSparkle x y (f32_of_int 1)] demo_collided))
     = [mkSparkle x y (life_after 19)]).
Proof. exact (sparkle_lifetime demo_collided demo_collided_reachable). Defined.

Lemma spawnFood_for_gameMode (m : GameMode) (n : nat) : forall a rs,
  spawnFood_for n (set_gameMode m a) rs
  = with_gameMode m (spawnFood_for n a rs).
Proof.
  induction n as [|n IH]; intros a rs; [reflexivity|].
  cbn [spawnFood_for]. unfold bind.
  change (foodValid (set_gameMode m a)) with (foodValid a).
  destruct (spawn_while (foodValid a) rs) as [[p rs1]|]; [|reflexivity].
  exact (IH (set_foodItems (foodItems a ++ [p]) a) rs1).
Qed.

Lemma spawnObstacles_for_gameMode (m : GameMode) (n : nat) : forall a rs,
  spawnObstacles_for n (set_gameMode m a) rs
  = with_gameMode m (spawnObstacles_for n a rs).
Proof.
  induction n as [|n IH]; intros a rs; [reflexivity|].
  cbn [spawnObstacles_for]. unfold bind.
  change (obstacleValid (set_gameMode m a)) with (obstacleValid a).
  destruct (spawn_while (obstacleValid a) rs) as [[p rs1]|]; [|reflexivity].
  exact (IH (set_obstacles (obstacles a ++ [p]) a) rs1).
Qed.

Lemma resetGame_gameMode (m : GameMode) (a : Application) rs :
  resetGame (set_gameMode m a) rs = with_gameMode m (resetGame a rs).
Proof.
  unfold resetGame, bind, spawnFood, spawnObstacles.
  match goal with
  | |- match spawnFood_for ?n' ?b rs with _ => _ end
       = with_gameMode m (match spawnFood_for ?n ?c rs with _ => _ end) =>
      change (spawnFood_for n' b rs)
        with (spawnFood_for n (set_gameMode m c) rs);
      rewrite (spawnFood_for_gameMode m n c rs);
      destruct (spawnFood_for n c rs) as [[a1 rs1]|]; [|reflexivity]
  end.
  cbn [with_gameMode].
  exact (spawnObstacles_for_gameMode m _ a1 rs1).
Qed.

Lemma handleCollision_gameMode (m : GameMode) (a : Application) rs :
  handleCollision (set_gameMode m a) rs
  = with_gameMode m (handleCollision a rs).
Proof.
  unfold handleCollision. cbn [snake set_gameMode].
  destruct (snake a) as [|head tl]; [reflexivity|].
  match goal with
  | |- resetGame (if ?c1 then _ else _) rs
       = with_gameMode m (resetGame (if ?c2 then ?x2 else ?y2) rs) =>
      change c1 with c2; destruct c2;
      [exact (resetGame_gameMode m x2 rs) | exact (resetGame_gameMode m y2 rs)]
  end.
Qed.

Lemma eat_tail_gameMode (m : GameMode) (a : Application) rs :
  (a1 <- spawnFood (set_gameMode m a) ;;
   a2 <- spawnObstacles 5 a1 ;;
   ret (decaySparkles a2)) rs
  = with_gameMode m
      ((a1 <- spawnFood a ;;
        a2 <- spawnObstacles 5 a1 ;;
        ret (decaySparkles a2)) rs).
Proof.
  unfold bind, spawnFood, spawnObstacles.
  change (numFoodItems (set_gameMode m a)) with (numFoodItems a).
  rewrite spawnFood_for_gameMode.
  destruct (spawnFood_for (Z.to_nat (numFoodItems a)) a rs) as [[a1 rs1]|];
    [|reflexivity].
  cbn [with_gameMode]. rewrite spawnObstacles_for_gameMode.
  destruct (spawnObstacles_for (Z.to_nat 5) a1 rs1) as [[a2 rs2]|];
    reflexivity.
Qed.

Lemma update_gameMode (m : GameMode) (currentTime : Z) (a : Application) rs :
  update currentTime (set_gameMode m a) rs
  = with_gameMode m (update currentTime a rs).
Proof.
  destruct (state a) eqn:Hst;
    try (rewrite (update_not_playing currentTime a) by congruence;
         rewrite (update_not_playing currentTime (set_gameMode m a))
           by (change (state a <> PLAYING); congruence);
         reflexivity).
  assert (Hst' : state (set_gameMode m a) = PLAYING) by exact Hst.
  destruct (Z_le_gt_dec (to_u32 (snakeSpeed a))
                        (to_u32 (currentTime - lastMoveTime a)))
    as [Hel | Hwait].
  2:{ assert (Hno : ~ intervalElapsed currentTime a)
        by (unfold intervalElapsed; lia).
      rewrite (update_waiting currentTime a Hst Hno).
      rewrite (update_waiting currentTime (set_gameMode m a) Hst' Hno).
      reflexivity. }
  assert (Hel' : intervalElapsed currentTime (set_gameMode m a)) by exact Hel.
  assert (Hshape : snake a = [] \/ exists head tl, snake a = head :: tl)
    by (destruct (snake a) as [|head tl]; [now left | right; eauto]).
  destruct Hshape as [Hsn | (head & tl & Hsn)].
  { rewrite (update_empty currentTime a Hst Hel Hsn).
    rewrite (update_empty currentTime (set_gameMode m a) Hst' Hel' Hsn).
    reflexivity. }
  assert (Hcollide :
            In (newHead head (direction a)) (snake a) \/
            In (newHead head (direction a)) (obstacles a) ->
            update currentTime (set_gameMode m a) rs
            = with_gameMode m (update currentTime a rs)).
  { intros Hhit.
    rewrite (update_collision currentTime a head tl Hst Hel Hsn Hhit).
    rewrite (update_collision currentTime (set_gameMode m a) head tl
               Hst' Hel' Hsn Hhit).
    exact (handleCollision_gameMode m (ticked currentTime a) rs). }
  destruct (hits (newHead head (direction a)) (snake a)) eqn:Hself;
    [apply hits_In in Hself; now apply Hcollide; left|].
  destruct (hits (newHead head (direction a)) (obstacles a)) eqn:Hobst;
    [apply hits_In in Hobst; now apply Hcollide; right|].
  apply hits_false in Hself, Hobst.
  destruct (hits (newHead head (direction a)) (foodItems a)) eqn:Heat.
  - apply hits_In in Heat.
    rewrite (update_eat currentTime a head tl Hst Hel Hsn Hself Hobst Heat).
    rewrite (update_eat currentTime (set_gameMode m a) head tl
               Hst' Hel' Hsn Hself Hobst Heat).
    match goal with
    | |- _ = with_gameMode m ((a1 <- spawnFood ?c ;; _) rs) =>
        exact (eat_tail_gameMode m c rs)
    end.
  - apply hits_false in Heat.
    rewrite (update_move currentTime a head tl Hst Hel Hsn Hself Hobst Heat).
    rewrite (update_move currentTime (set_gameMode m a) head tl
               Hst' Hel' Hsn Hself Hobst Heat).
    reflexivity.
Qed.

Lemma adjustConfigOption_gameMode (m : GameMode) (increase : bool)
  (a : Application) :
  adjustConfigOption increase (set_gameMode m a)
  = set_gameMode m (adjustConfigOption increase a).
Proof.
  unfold adjustConfigOption. cbn [configOption set_gameMode].
  destruct (ConfigOption_of_int (configOption a)) as [[| | | | |]|];
    try reflexivity; destruct increase; try reflexivity;
    cbn [numFoodItems numObstacles set_gameMode];
    match goal with
    | |- context [if ?c then _ else _] => destruct c
    end; reflexivity.
Qed.

Lemma onKeyDown_gameMode (m : GameMode) (key : SDL_Keycode)
  (a : Application) rs :
  state a <> MODE_MENU ->
  onKeyDown key (set_gameMode m a) rs
  = with_gameMode m (onKeyDown key a rs).
Proof.
  intros Hst. unfold onKeyDown. cbn [state set_gameMode].
  destruct key; destruct (state a) eqn:Hs; try reflexivity;
    try (now elim Hst);
    cbn [direction pauseMenuOption set_gameMode];
    try (match goal with
         | |- context [if ?c then _ else _] => destruct c
         end; reflexivity);
    try (unfold ret; cbn [with_gameMode];
         now rewrite adjustConfigOption_gameMode).
  unfold mainMenuSelection. cbn [selectedOption set_gameMode].
  destruct (selectedOption a) as [|[[|[]|]|[|[]|]|]|]; try reflexivity.
  unfold startGame.
  exact (resetGame_gameMode m (set_state PLAYING a) rs).
Qed.

(** X20. The game mode is display only.  [update] and, outside the
    mode menu, every handled event do the same in both modes: run on a
    state with the mode overwritten, they give the result of the run on
    the original state with the mode overwritten, having read the same
    random values.  So switching the flashlight on changes no move, no
    score and no spawned cell. *)
Theorem gameMode_is_display_only
  (m : GameMode) (a : Application) (rs : list Z) :
  (forall currentTime,
     update currentTime (set_gameMode m a) rs
     = with_gameMode m (update currentTime a rs)) /\
  (forall event,
     state a <> MODE_MENU ->
     handleEvent event (set_gameMode m a) rs
     = with_gameMode m (handleEvent event a rs)).
Proof.
  split.
  - intros currentTime. apply update_gameMode.
  - intros [|key|] Hst; [reflexivity | | reflexivity].
    now apply onKeyDown_gameMode.
Qed.

Lemma cellAt_S (rx ry : Z) (rs : list Z) (k : nat) :
  cellAt (rx :: ry :: rs) (S k) = cellAt rs k.
Proof.
  unfold cellAt.
  replace (2 * S k)%nat with (S (S (2 * k))) by lia.
  replace (S (S (2 * k)) + 1)%nat with (S (S (2 * k + 1))) by lia.
  reflexivity.
Qed.

Lemma spawn_while_Some (valid : Point -> bool) (rs : list Z) :
  forall p rs',
    spawn_while valid rs = Some (p, rs') <->
    exists k,
      (2 * k + 2 <= length rs)%nat /\
      (forall j, (j < k)%nat -> valid (cellAt rs j) = false) /\
      valid (cellAt rs k) = true /\
      p = cellAt rs k /\
      rs' = skipn (2 * k + 2) rs.
Proof.
  induction rs as [| r | rx ry rs IH] using list_pair_ind; intros p rs'.
  - split; [discriminate|]. intros (k & Hlen & _). simpl in Hlen. lia.
  - split; [discriminate|]. intros (k & Hlen & _). simpl in Hlen. lia.
  - cbn [spawn_while]. cbv zeta.
    destruct (valid (randomCell rx ry)) eqn:Hv.
    + split.
      * intros [= <- <-]. exists 0%nat.
        split; [simpl; lia|]. split; [intros j Hj; lia|].
        split; [exact Hv|]. split; reflexivity.
      * intros (k & Hlen & Hbefore & Hk & -> & ->).
        destruct k as [|k]; [reflexivity|].
        specialize (Hbefore 0%nat ltac:(lia)).
        change (cellAt (rx :: ry :: rs) 0) with (randomCell rx ry)
          in Hbefore.
        congruence.
    + rewrite IH. split.
      * intros (k & Hlen & Hbefore & Hk & -> & ->).
        exists (S k). split; [simpl; lia|].
        split.
        -- intros [|j] Hj; [exact Hv|]. rewrite cellAt_S.
           apply Hbefore. lia.
        -- rewrite cellAt_S. split; [exact Hk|]. split; [reflexivity|].
           replace (2 * S k + 2)%nat with (S (S (2 * k + 2))) by lia.
           reflexivity.
      * intros (k & Hlen & Hbefore & Hk & -> & ->).
        destruct k as [|k].
        -- change (cellAt (rx :: ry :: rs) 0) with (randomCell rx ry) in Hk.
           congruence.
        -- exists k. split; [simpl in Hlen; lia|].
           split.
           ++ intros j Hj. rewrite <- (cellAt_S rx ry). apply Hbefore. lia.
           ++ rewrite cellAt_S in Hk. split; [exact Hk|].
              split; [apply cellAt_S|].
              replace (2 * S k + 2)%nat with (S (S (2 * k + 2))) by lia.
              reflexivity.
Qed.

(** X21. The sampling loop of the spawners returns the first free
    cell it draws: it reads the random values two at a time, skips
    every drawn cell that fails the test, returns the first one that
    passes together with the values not yet read, and does not return
    when no complete pair of the sequence gives a cell that passes. *)
Theorem spawn_while_first_valid (valid : Point -> bool) (rs : list Z) :
  (forall p rs',
     spawn_while valid rs = Some (p, rs') <->
     exists k,
       (2 * k + 2 <= length rs)%nat /\
       (forall j, (j < k)%nat -> valid (cellAt rs j) = false) /\
       valid (cellAt rs k) = true /\
       p = cellAt rs k /\
       rs' = skipn (2 * k + 2) rs) /\
  (spawn_while valid rs = None <->
   forall k, (2 * k + 2 <= length rs)%nat -> valid (cellAt rs k) = false).
Proof.
  split; [apply spawn_while_Some|].
  split.
  - intros Hnone k Hlen.
    induction k as [k IHk] using lt_wf_ind.
    destruct (valid (cellAt rs k)) eqn:Hv; [|reflexivity].
    assert (Hsome : spawn_while valid rs
                    = Some (cellAt rs k, skipn (2 * k + 2) rs)).
    { apply spawn_while_Some. exists k.
      split; [exact Hlen|].
      split; [intros j Hj; apply IHk; [exact Hj | lia]|].
      split; [exact Hv|]. split; reflexivity. }
    congruence.
  - intros Hall.
    destruct (spawn_while valid rs) as [[p rs']|] eqn:Hrun; [|reflexivity].
    apply spawn_while_Some in Hrun.
    destruct Hrun as (k & Hlen & _ & Hk & _).
    rewrite (Hall k Hlen) in Hk. discriminate Hk.
Qed.

(** * Ticks that sample cells *)

(** ** The sampling loops as draws from the sequence *)

Lemma spawn_while_drawn (valid : Point -> bool) (rs : list Z) :
  spawn_while valid rs
  = match filter valid (cells rs) with
    | [] => None
    | p :: _ => Some (p, skip_valid valid rs)
    end.
Proof.
  induction rs as [| r | rx ry rs IH] using list_pair_ind;
    try reflexivity.
  cbn [spawn_while cells skip_valid filter]. cbv zeta.
  destruct (valid (randomCell rx ry)); [reflexivity | exact IH].
Qed.

Lemma filter_cells_skip (valid : Point -> bool) (rs : list Z) :
  filter valid (cells (skip_valid valid rs)) = tl (filter valid (cells rs)).
Proof.
  induction rs as [| r | rx ry rs IH] using list_pair_ind;
    try reflexivity.
  cbn [cells skip_valid filter].
  destruct (valid (randomCell rx ry)); [reflexivity | exact IH].
Qed.

Lemma unread_S (valid : Point -> bool) (n : nat) (rs : list Z) :
  unread valid (S n) rs = unread valid n (skip_valid valid rs).
Proof. unfold unread. apply Nat.iter_succ_r. Qed.

Lemma drawn_0 (valid : Point -> bool) (rs : list Z) :
  drawn valid 0 rs = Some ([], rs).
Proof. reflexivity. Qed.

Lemma drawn_S (valid : Point -> bool) (n : nat) (rs : list Z) :
  drawn valid (S n) rs
  = match filter valid (cells rs) with
    | [] => None
    | p :: _ =>
        match drawn valid n (skip_valid valid rs) with
        | Some (cs, rs') => Some (p :: cs, rs')
        | None => None
        end
    end.
Proof.
  unfold drawn. cbv zeta. rewrite filter_cells_skip, unread_S.
  destruct (filter valid (cells rs)) as [|p free]; [reflexivity|].
  cbn [tl length firstn Nat.leb].
  destruct (n <=? length free)%nat; reflexivity.
Qed.

Lemma skip_valid_ext (v w : Point -> bool) (rs : list Z) :
  (forall p, v p = w p) -> skip_valid v rs = skip_valid w rs.
Proof.
  intros Hext.
  induction rs as [| r | rx ry rs IH] using list_pair_ind;
    try reflexivity.
  cbn [skip_valid]. now rewrite Hext, IH.
Qed.

Lemma drawn_ext (v w : Point -> bool) (n : nat) : forall rs,
  (forall p, v p = w p) -> drawn v n rs = drawn w n rs.
Proof.
  induction n as [|n IH]; intros rs Hext; [reflexivity|].
  rewrite !drawn_S.
  rewrite (filter_ext v w Hext), (skip_valid_ext v w rs Hext).
  now rewrite (IH _ Hext).
Qed.

Lemma drawn_Some (valid : Point -> bool) (n : nat) : forall rs cs rs',
  drawn valid n rs = Some (cs, rs') ->
  length cs = n /\ forall p, In p cs -> valid p = true.
Proof.
  induction n as [|n IH]; intros rs cs rs'.
  - rewrite drawn_0. intros [= <- _]. split; [reflexivity | intros p []].
  - rewrite drawn_S.
    destruct (filter valid (cells rs)) as [|p free] eqn:Hf; [discriminate|].
    destruct (drawn valid n (skip_valid valid rs)) as [[cs0 rs0]|] eqn:Hd;
      [|discriminate].
    intros [= <- _]. destruct (IH _ _ _ Hd) as [Hlen Hall].
    split; [simpl; now rewrite Hlen|].
    intros q [<- | Hq]; [|now apply Hall].
    assert (Hin : In p (filter valid (cells rs)))
      by (rewrite Hf; now left).
    apply filter_In in Hin. exact (proj2 Hin).
Qed.

Lemma spawnFood_for_drawn (n : nat) : forall a rs,
  spawnFood_for n a rs
  = match drawn (foodValid a) n rs with
    | Some (cs, rs') => Some (set_foodItems (foodItems a ++ cs) a, rs')
    | None => None
    end.
Proof.
  induction n as [|n IH]; intros a rs.
  - rewrite drawn_0. cbn [spawnFood_for]. unfold ret.
    rewrite app_nil_r. reflexivity.
  - cbn [spawnFood_for]. unfold bind.
    rewrite spawn_while_drawn, drawn_S.
    destruct (filter (foodValid a) (cells rs)) as [|p free]; [reflexivity|].
    rewrite IH.
    change (foodValid (set_foodItems (foodItems a ++ [p]) a))
      with (foodValid a).
    destruct (drawn (foodValid a) n (skip_valid (foodValid a) rs))
      as [[cs rs']|]; [|reflexivity].
    cbn [foodItems set_foodItems]. rewrite <- app_assoc. reflexivity.
Qed.

Lemma spawnObstacles_for_drawn (n : nat) : forall a rs,
  spawnObstacles_for n a rs
  = match drawn (obstacleValid a) n rs with
    | Some (cs, rs') => Some (set_obstacles (obstacles a ++ cs) a, rs')
    | None => None
    end.
Proof.
  induction n as [|n IH]; intros a rs.
  - rewrite drawn_0. cbn [spawnObstacles_for]. unfold ret.
    rewrite app_nil_r. reflexivity.
  - cbn [spawnObstacles_for]. unfold bind.
    rewrite spawn_while_drawn, drawn_S.
    destruct (filter (obstacleValid a) (cells rs)) as [|p free];
      [reflexivity|].
    rewrite IH.
    change (obstacleValid (set_obstacles (obstacles a ++ [p]) a))
      with (obstacleValid a).
    destruct (drawn (obstacleValid a) n (skip_valid (obstacleValid a) rs))
      as [[cs rs']|]; [|reflexivity].
    cbn [obstacles set_obstacles]. rewrite <- app_assoc. reflexivity.
Qed.

(** ** Reset and eating as draws *)

Lemma resetGame_draws (a : Application) (rs : list Z) :
  resetGame a rs
  = match resetDraws a rs with
    | Some (food, obs, rs2) =>
        Some (set_obstacles obs
                (set_foodItems food
                   (set_score 0
                      (set_direction (mkPoint 1 0) (set_snake [centre] a)))),
              rs2)
    | None => None
    end.
Proof.
  unfold resetGame, bind, spawnFood, spawnObstacles, resetDraws.
  rewrite spawnFood_for_drawn.
  match goal with
  | |- context [drawn (foodValid ?b) ?n rs] =>
      rewrite (drawn_ext (foodValid b) (fun p => negb (Point_eqb p centre)) n
                 rs);
      [change n with (Z.to_nat (numFoodItems a))|]
  end.
  2:{ intros p. unfold foodValid, hits. cbn [snake obstacles set_snake
        set_direction set_score set_foodItems set_obstacles existsb].
      now rewrite orb_false_r, andb_true_r. }
  destruct (drawn (fun p => negb (Point_eqb p centre))
                  (Z.to_nat (numFoodItems a)) rs) as [[food rs1]|];
    [|reflexivity].
  rewrite spawnObstacles_for_drawn.
  match goal with
  | |- context [drawn (obstacleValid ?b) ?n rs1] =>
      rewrite (drawn_ext (obstacleValid b)
                 (fun p => negb (Point_eqb p centre) && negb (hits p food))
                 n rs1);
      [change n with (Z.to_nat (numObstacles a))|]
  end.
  2:{ intros p. unfold obstacleValid. cbn [snake foodItems set_snake
        set_direction set_score set_foodItems set_obstacles app].
      unfold hits at 1. cbn [existsb]. now rewrite orb_false_r. }
  destruct (drawn _ (Z.to_nat (numObstacles a)) rs1) as [[obs rs2]|];
    reflexivity.
Qed.

Lemma resetDraws_Some (a : Application) rs food obs rs2 :
  resetDraws a rs = Some (food, obs, rs2) ->
  length food = Z.to_nat (numFoodItems a) /\
  length obs = Z.to_nat (numObstacles a) /\
  ~ In centre food /\
  ~ In centre obs /\
  (forall p, In p obs -> ~ In p food).
Proof.
  unfold resetDraws.
  destruct (drawn (fun p => negb (Point_eqb p centre))
                  (Z.to_nat (numFoodItems a)) rs) as [[food0 rs1]|] eqn:Hf;
    [|discriminate].
  destruct (drawn (fun p => negb (Point_eqb p centre)
                            && negb (hits p food0))
                  (Z.to_nat (numObstacles a)) rs1) as [[obs0 rs3]|] eqn:Ho;
    [|discriminate].
  intros [= <- <- <-].
  destruct (drawn_Some _ _ _ _ _ Hf) as [Hlf Hvf].
  destruct (drawn_Some _ _ _ _ _ Ho) as [Hlo Hvo].
  assert (Hcentre : Point_eqb centre centre = true)
    by now apply Point_eqb_eq.
  split; [exact Hlf|]. split; [exact Hlo|].
  split; [|split].
  - intros Hin. specialize (Hvf _ Hin). cbv beta in Hvf.
    rewrite Hcentre in Hvf. discriminate Hvf.
  - intros Hin. specialize (Hvo _ Hin). cbv beta in Hvo.
    rewrite Hcentre in Hvo. discriminate Hvo.
  - intros p Hp Hin. specialize (Hvo _ Hp). cbv beta in Hvo.
    apply andb_true_iff in Hvo. destruct Hvo as [_ Hvo].
    apply negb_true_iff, hits_false in Hvo. contradiction.
Qed.


(** A collision tick is a reset on the draws of the sequence. *)
Lemma update_collision_draws (currentTime : Z) (a : Application)
  (head : Point) (tl : list Point) (rs : list Z) :
  state a = PLAYING -> intervalElapsed currentTime a ->
  snake a = head :: tl ->
  In (newHead head (direction a)) (snake a) \/
  In (newHead head (direction a)) (obstacles a) ->
  update currentTime a rs
  = match resetDraws a rs with
    | Some (food, obs, rs2) =>
        Some (set_obstacles obs
                (set_foodItems food
                   (set_score 0
                      (set_direction (mkPoint 1 0)
                         (set_snake [centre]
                            (set_highScore (Z.max (highScore a) (score a))
                               (set_sparkles
                                  (sparkles a
                                   ++ repeat (collisionSparkle head) 20)
                                  (ticked currentTime a))))))),
              rs2)
    | None => None
    end.
Proof.
  intros Hst Hel Hsn Hhit.
  rewrite (update_collision currentTime a head tl Hst Hel Hsn Hhit).
  unfold handleCollision.
  change (snake (ticked currentTime a)) with (snake a). rewrite Hsn.
  cbv zeta. rewrite highScore_commit. rewrite resetGame_draws.
  reflexivity.
Qed.

(** An eating tick on the draws of the sequence. *)
Lemma update_eat_draws (currentTime : Z) (a : Application)
  (head : Point) (tl : list Point) (rs : list Z) :
  state a = PLAYING -> intervalElapsed currentTime a ->
  snake a = head :: tl ->
  ~ In (newHead head (direction a)) (snake a) ->
  ~ In (newHead head (direction a)) (obstacles a) ->
  In (newHead head (direction a)) (foodItems a) ->
  update currentTime a rs
  = match eatDraws a (newHead head (direction a)) rs with
    | Some (food, obs, rs2) =>
        Some (decaySparkles
                (set_obstacles (obstacles a ++ obs)
                   (set_foodItems food
                      (set_highScore (Z.max (highScore a) (score a + 1))
                         (set_score (score a + 1)
                            (set_snake (newHead head (direction a) :: snake a)
                               (ticked currentTime a)))))),
              rs2)
    | None => None
    end.
Proof.
  intros Hst Hel Hsn Hself Hobst Hfood.
  rewrite (update_eat currentTime a head tl Hst Hel Hsn Hself Hobst Hfood).
  unfold bind, spawnFood, spawnObstacles, eatDraws.
  rewrite spawnFood_for_drawn.
  match goal with
  | |- context [drawn (foodValid ?b) ?n rs] =>
      change (drawn (foodValid b) n rs)
        with (drawn (fun p => negb (hits p (newHead head (direction a)
                                            :: snake a))
                              && negb (hits p (obstacles a)))
                    (Z.to_nat (numFoodItems a)) rs)
  end.
  destruct (drawn _ (Z.to_nat (numFoodItems a)) rs) as [[food rs1]|];
    [|reflexivity].
  rewrite spawnObstacles_for_drawn.
  match goal with
  | |- context [drawn (obstacleValid ?b) ?n rs1] =>
      change (drawn (obstacleValid b) n rs1)
        with (drawn (fun p => negb (hits p (newHead head (direction a)
                                            :: snake a))
                              && negb (hits p food))
                    5%nat rs1)
  end.
  destruct (drawn _ 5%nat rs1) as [[obs rs2]|]; reflexivity.
Qed.

(** ** A board with no free cell *)

Lemma board_In (p : Point) : In p board <-> fieldCell p.
Proof.
  unfold board, fieldCell, inBounds, onGrid. rewrite in_flat_map. split.
  - intros (x & Hx & Hin). apply in_map_iff in Hin.
    destruct Hin as (y & <- & Hy).
    apply grid_steps_In in Hx, Hy. cbn [pt_x pt_y]. tauto.
  - intros [[Hx Hy] [Hgx Hgy]]. exists (pt_x p).
    split; [apply grid_steps_In; tauto|].
    apply in_map_iff. exists (pt_y p).
    split; [now destruct p | apply grid_steps_In; tauto].
Qed.

Lemma cells_board (rs : list Z) :
  randValues rs -> forall p, In p (cells rs) -> In p board.
Proof.
  unfold randValues.
  induction rs as [| r | rx ry rs IH] using list_pair_ind;
    intros Hrs p; cbn [cells]; [intros [] | intros [] |].
  inversion Hrs as [|? ? Hx Hrs1]; subst.
  inversion Hrs1 as [|? ? Hy Hrs2]; subst.
  intros [<- | Hin]; [|exact (IH Hrs2 p Hin)].
  apply board_In. now apply randomCell_fieldCell.
Qed.









Lemma randValues_check (rs : list Z) :
  forallb (fun r => 0 <=? r) rs = true -> randValues rs.
Proof.
  intros Hall. unfold randValues. apply Forall_forall. intros r Hr.
  apply Z.leb_le. rewrite forallb_forall in Hall. now apply Hall.
Qed.

(** ** Eating *)




(** ** Collision and reset *)




Lemma demo_edge_run :
  run (idle_frames edge_ticks) demo_playing [] = Some (demo_edge, []).
Proof. vm_compute. reflexivity. Qed.

Lemma demo_edge_reachable : reachable demo_edge.
Proof.
  exact (reachable_steps _ _ (run_steps _ _ _ _ _ demo_edge_run)
           demo_playing_reachable).
Qed.

(** ** Wrap-around *)

(** C3. On a tick of a run in the Playing state the head computed for
    the advance lies inside the canvas; computed from a head on the last
    column moving right it is on column 0 of the same row, and likewise
    on the other three edges.  When it lies on no snake segment and on
    no obstacle, it is the head of the snake [update] returns, all of
    whose segments lie inside the canvas: a tick that does not eat
    always returns, with the last segment dropped; a tick that eats
    returns exactly when the values draw the cells it needs, with the
    whole old snake behind the new head. *)
Theorem advance_wraps_toroidally
  (a : Application) (currentTime : Z) (rs : list Z)
  (head : Point) (tl : list Point) :
  reachable a ->
  state a = PLAYING ->
  intervalElapsed currentTime a ->
  snake a = head :: tl ->
  inBounds (newHead head (direction a)) /\
  (direction a = mkPoint 1 0 ->
   pt_x head = SCREEN_WIDTH - GRID_SIZE ->
   newHead head (direction a) = mkPoint 0 (pt_y head)) /\
  (direction a = mkPoint (-1) 0 ->
   pt_x head = 0 ->
   newHead head (direction a)
   = mkPoint (SCREEN_WIDTH - GRID_SIZE) (pt_y head)) /\
  (direction a = mkPoint 0 1 ->
   pt_y head = SCREEN_HEIGHT - GRID_SIZE ->
   newHead head (direction a) = mkPoint (pt_x head) 0) /\
  (direction a = mkPoint 0 (-1) ->
   pt_y head = 0 ->
   newHead head (direction a)
   = mkPoint (pt_x head) (SCREEN_HEIGHT - GRID_SIZE)) /\
  (~ In (newHead head (direction a)) (snake a) ->
   ~ In (newHead head (direction a)) (obstacles a) ->
   (~ In (newHead head (direction a)) (foodItems a) ->
    exists a',
      update currentTime a rs = Some (a', rs) /\
      snake a' = newHead head (direction a) :: removelast (snake a) /\
      Forall inBounds (snake a')) /\
   (In (newHead head (direction a)) (foodItems a) ->
    match eatDraws a (newHead head (direction a)) rs with
    | None => update currentTime a rs = None
    | Some (_, _, rs') =>
        exists a',
          update currentTime a rs = Some (a', rs') /\
          snake a' = newHead head (direction a) :: snake a /\
          Forall inBounds (snake a')
    end)).
Proof.
  intros Hreach Hst Hel Hsn.
  pose proof (reachable_Inv a Hreach) as Hinv.
  destruct Hinv as [_ _ Hdir Hsnake _].
  assert (Hhead : inBounds head)
    by (rewrite Hsn in Hsnake; now inversion Hsnake).
  assert (Hnew : inBounds (newHead head (direction a)))
    by now apply newHead_inBounds.
  split; [exact Hnew|].
  assert (Hedges :
    (pt_x head = SCREEN_WIDTH - GRID_SIZE ->
     newHead head (mkPoint 1 0) = mkPoint 0 (pt_y head)) /\
    (pt_x head = 0 ->
     newHead head (mkPoint (-1) 0)
     = mkPoint (SCREEN_WIDTH - GRID_SIZE) (pt_y head)) /\
    (pt_y head = SCREEN_HEIGHT - GRID_SIZE ->
     newHead head (mkPoint 0 1) = mkPoint (pt_x head) 0) /\
    (pt_y head = 0 ->
     newHead head (mkPoint 0 (-1))
     = mkPoint (pt_x head) (SCREEN_HEIGHT - GRID_SIZE))).
  { clear Hnew Hsn Hsnake. destruct Hhead as [Hx Hy].
    destruct head as [hx hy].
    unfold newHead, SCREEN_WIDTH, SCREEN_HEIGHT, GRID_SIZE in *.
    simpl in *.
    repeat split; intros ->; simpl;
      repeat match goal with
             | |- context [?u <? ?v] => destruct (Z.ltb_spec u v)
             | |- context [?u <=? ?v] => destruct (Z.leb_spec u v)
             end; try lia; f_equal; lia. }
  destruct Hedges as (Hright & Hleft & Hdown & Hup).
  split; [intros ->; exact Hright|].
  split; [intros ->; exact Hleft|].
  split; [intros ->; exact Hdown|].
  split; [intros ->; exact Hup|].
  intros Hself Hobst. split.
  - intros Hfood.
    rewrite (update_move currentTime a head tl Hst Hel Hsn Hself Hobst
               Hfood).
    eexists. split; [reflexivity|].
    change (removelast (newHead head (direction a) :: snake a)
            = newHead head (direction a) :: removelast (snake a) /\
            Forall inBounds
              (removelast (newHead head (direction a) :: snake a))).
    split; [rewrite Hsn; reflexivity|].
    apply Forall_forall. intros p Hp. apply In_removelast_In in Hp.
    rewrite Forall_forall in Hsnake.
    destruct Hp as [<- | Hp]; [exact Hnew | now apply Hsnake].
  - intros Hfood.
    pose proof (update_eat_draws currentTime a head tl rs
                  Hst Hel Hsn Hself Hobst Hfood) as Hrun.
    destruct (eatDraws a (newHead head (direction a)) rs)
      as [[[food obs] rs']|]; [|exact Hrun].
    eexists. split; [exact Hrun|]. split; [reflexivity|].
    change (Forall inBounds (newHead head (direction a) :: snake a)).
    now constructor.
Qed.

Lemma advance_wraps_toroidally_witness :
  snake demo_edge = [mkPoint 780 300] /\
  direction demo_edge = mkPoint 1 0 /\
  newHead (mkPoint 780 300) (direction demo_edge) = mkPoint 0 300 /\
  exists a',
    update 2000 demo_edge [] = Some (a', []) /\
    snake a' = [mkPoint 0 300] /\
    Forall inBounds (snake a').
Proof.
  destruct (advance_wraps_toroidally demo_edge 2000 [] (mkPoint 780 300) []
              demo_edge_reachable eq_refl)
    as (_ & Hright & _ & _ & _ & Hadvance).
  - vm_compute. discriminate.
  - reflexivity.
  - split; [reflexivity|]. split; [reflexivity|].
    split; [exact (Hright eq_refl eq_refl)|].
    assert (Hself : ~ In (newHead (mkPoint 780 300) (direction demo_edge))
                         (snake demo_edge))
      by (apply hits_false; vm_compute; reflexivity).
    assert (Hobst : ~ In (newHead (mkPoint 780 300) (direction demo_edge))
                         (obstacles demo_edge))
      by (apply hits_false; vm_compute; reflexivity).
    assert (Hfood : ~ In (newHead (mkPoint 780 300) (direction demo_edge))
                         (foodItems demo_edge))
      by (apply hits_false; vm_compute; reflexivity).
    destruct (proj1 (Hadvance Hself Hobst) Hfood)
      as (a' & Hrun & Hsnake & Hin).
    exists a'. split; [exact Hrun|]. split; [exact Hsnake | exact Hin].
Defined.

(** ** Sparkles, call by call *)

(** C10, amended.  Outside the Playing state and before the interval
    has elapsed, an update call returns with the sparkle list unchanged.
    A tick that advances without eating (or finds the snake empty)
    returns, and every sparkle has lost 0.05 of life, those at or below
    0 being removed.  A tick that eats returns exactly when the values
    draw the cells it needs, with the sparkles aged in the same way.  A
    collision tick returns exactly when the values draw the cells of the
    reset; no sparkle has aged then, and twenty sparkles of life 1.0 at
    the centre of the head cell are appended.  A tick that does not
    return changes nothing. *)
Theorem sparkles_frame (a : Application) (currentTime : Z) (rs : list Z) :
  (state a <> PLAYING \/ ~ intervalElapsed currentTime a ->
   exists a',
     update currentTime a rs = Some (a', rs) /\
     sparkles a' = sparkles a) /\
  (state a = PLAYING -> intervalElapsed currentTime a ->
   (snake a = [] ->
    exists a',
      update currentTime a rs = Some (a', rs) /\
      sparkles a'
      = filter (fun s => negb (f32_leb (sp_life s) (f32_of_int 0)))
               (map (fun sp => mkSparkle (sp_x sp) (sp_y sp)
                                 (f32_sub (sp_life sp) (f32_lit 5 2)))
                    (sparkles a))) /\
   (forall head tl,
      snake a = head :: tl ->
      ~ In (newHead head (direction a)) (snake a) ->
      ~ In (newHead head (direction a)) (obstacles a) ->
      (~ In (newHead head (direction a)) (foodItems a) ->
       exists a',
         update currentTime a rs = Some (a', rs) /\
         sparkles a'
         = filter (fun s => negb (f32_leb (sp_life s) (f32_of_int 0)))
                  (map (fun sp => mkSparkle (sp_x sp) (sp_y sp)
                                    (f32_sub (sp_life sp) (f32_lit 5 2)))
                       (sparkles a))) /\
      (In (newHead head (direction a)) (foodItems a) ->
       match eatDraws a (newHead head (direction a)) rs with
       | None => update currentTime a rs = None
       | Some (_, _, rs') =>
           exists a',
             update currentTime a rs = Some (a', rs') /\
             sparkles a'
             = filter (fun s => negb (f32_leb (sp_life s) (f32_of_int 0)))
                      (map (fun sp => mkSparkle (sp_x sp) (sp_y sp)
                                        (f32_sub (sp_life sp) (f32_lit 5 2)))
                           (sparkles a))
       end)) /\
   (forall head tl,
      snake a = head :: tl ->
      In (newHead head (direction a)) (snake a) \/
      In (newHead head (direction a)) (obstacles a) ->
      match resetDraws a rs with
      | None => update currentTime a rs = None
      | Some (_, _, rs') =>
          exists a',
            update currentTime a rs = Some (a', rs') /\
            sparkles a' = sparkles a ++ repeat (collisionSparkle head) 20
      end)).
Proof.
  split.
  - intros [Hst | Hwait].
    + rewrite update_not_playing by exact Hst.
      eexists. split; reflexivity.
    + destruct (state a) eqn:Hst;
        try (rewrite update_not_playing by congruence;
             eexists; split; reflexivity).
      rewrite update_waiting by assumption.
      eexists. split; reflexivity.
  - intros Hst Hel. split; [|split].
    + intros Hsn. rewrite update_empty by assumption.
      eexists. split; reflexivity.
    + intros head tl Hsn Hself Hobst. split.
      * intros Hfood.
        rewrite (update_move currentTime a head tl) by assumption.
        eexists. split; reflexivity.
      * intros Hfood.
        pose proof (update_eat_draws currentTime a head tl rs
                      Hst Hel Hsn Hself Hobst Hfood) as Hrun.
        destruct (eatDraws a (newHead head (direction a)) rs)
          as [[[food obs] rs']|]; [|exact Hrun].
        eexists. split; [exact Hrun | reflexivity].
    + intros head tl Hsn Hhit.
      pose proof (update_collision_draws currentTime a head tl rs
                    Hst Hel Hsn Hhit) as Hrun.
      destruct (resetDraws a rs) as [[[food obs] rs']|]; [|exact Hrun].
      eexists. split; [exact Hrun | reflexivity].
Qed.

Lemma sparkles_frame_witness :
  (exists a',
     update 200 demo_collided collide_rs = Some (a', []) /\
     sparkles a'
     = sparkles demo_collided ++ repeat (collisionSparkle centre) 20) /\
  (exists a',
     update 100 demo_eating tick_rs = Some (a', skipn 30 tick_rs) /\
     sparkles a'
     = filter (fun s => negb (f32_leb (sp_life s) (f32_of_int 0)))
              (map (fun sp => mkSparkle (sp_x sp) (sp_y sp)
                                (f32_sub (sp_life sp) (f32_lit 5 2)))
                   (sparkles demo_eating))).
Proof.
  split.
  - destruct (sparkles_frame demo_collided 200 collide_rs)
      as (_ & Hplaying).
    assert (Hel : intervalElapsed 200 demo_collided)
      by (vm_compute; discriminate).
    destruct (Hplaying eq_refl Hel) as (_ & _ & Hburst).
    assert (Hhit : In (newHead centre (direction demo_collided))
                      (obstacles demo_collided))
      by (vm_compute; left; reflexivity).
    specialize (Hburst centre [] eq_refl (or_intror Hhit)).
    destruct (resetDraws demo_collided collide_rs)
      as [[[food obs] rs']|] eqn:Hd.
    + assert (Hrs : rs' = [])
        by (vm_compute in Hd; injection Hd as _ _ <-; reflexivity).
      rewrite Hrs in Hburst. exact Hburst.
    + vm_compute in Hd. discriminate Hd.
  - destruct (sparkles_frame demo_eating 100 tick_rs) as (_ & Hplaying).
    assert (Hel : intervalElapsed 100 demo_eating)
      by (vm_compute; discriminate).
    destruct (Hplaying eq_refl Hel) as (_ & Hadvance & _).
    assert (Hself : ~ In (newHead centre (direction demo_eating))
                         (snake demo_eating))
      by (apply hits_false; vm_compute; reflexivity).
    assert (Hobst : ~ In (newHead centre (direction demo_eating))
                         (obstacles demo_eating))
      by (apply hits_false; vm_compute; reflexivity).
    assert (Hfood : In (newHead centre (direction demo_eating))
                       (foodItems demo_eating))
      by (vm_compute; left; reflexivity).
    pose proof (proj2 (Hadvance centre [] eq_refl Hself Hobst) Hfood)
      as Heat.
    destruct (eatDraws demo_eating (newHead centre (direction demo_eating))
                tick_rs) as [[[food obs] rs']|] eqn:Hd.
    + assert (Hrs : rs' = skipn 30 tick_rs)
        by (vm_compute in Hd; injection Hd as _ _ <-; reflexivity).
      rewrite Hrs in Heat. exact Heat.
    + vm_compute in Hd. discriminate Hd.
Defined.

(** ** Starting a game *)

Lemma drawn_fieldCell (valid : Point -> bool) (n : nat) :
  forall rs cs rs',
    randValues rs ->
    drawn valid n rs = Some (cs, rs') ->
    Forall fieldCell cs /\ randValues rs'.
Proof.
  induction n as [|n IH]; intros rs cs rs' Hrs.
  - rewrite drawn_0. intros [= <- <-]. split; [constructor | exact Hrs].
  - rewrite drawn_S.
    destruct (filter valid (cells rs)) as [|p free] eqn:Hf; [discriminate|].
    destruct (drawn valid n (skip_valid valid rs)) as [[cs0 rs0]|] eqn:Hd;
      [|discriminate].
    intros [= <- <-].
    assert (Hskip : randValues (skip_valid valid rs)).
    { clear Hf Hd. unfold randValues in *.
      induction rs as [| r | rx ry rs IHrs] using list_pair_ind;
        cbn [skip_valid]; try constructor.
      inversion Hrs as [|? ? _ Hrs1]; subst.
      inversion Hrs1 as [|? ? _ Hrs2]; subst.
      destruct (valid (randomCell rx ry)); [exact Hrs2 | exact (IHrs Hrs2)]. }
    destruct (IH _ _ _ Hskip Hd) as [Hcs Hrs0].
    split; [|exact Hrs0]. constructor; [|exact Hcs].
    apply board_In. apply (cells_board rs Hrs).
    assert (Hin : In p (filter valid (cells rs))) by (rewrite Hf; now left).
    apply filter_In in Hin. exact (proj1 Hin).
Qed.

(** X22. Confirming "Start Game" in the main menu, on [std::rand()]
    values, returns exactly when the values draw the configured number
    of food cells off the centre and then the configured number of
    obstacle cells off the centre and off that food.  It then gives a
    session in the Playing state with the one-segment snake at the
    centre heading right, score 0, those cells as food and obstacles,
    all of them cells of the board; the configuration, the game mode,
    the high score, the sparkles and the time of the last move are
    carried over. *)
Theorem start_game_fresh_session (a : Application) (rs : list Z) :
  randValues rs ->
  state a = MAIN_MENU ->
  selectedOption a = 0 ->
  match resetDraws a rs with
  | None => handleEvent (SDL_KEYDOWN SDLK_RETURN) a rs = None
  | Some (food, obs, rs') =>
      handleEvent (SDL_KEYDOWN SDLK_RETURN) a rs
      = Some (set_obstacles obs
                (set_foodItems food
                   (set_score 0
                      (set_direction (mkPoint 1 0)
                         (set_snake [centre] (set_state PLAYING a))))),
              rs') /\
      length food = Z.to_nat (numFoodItems a) /\
      length obs = Z.to_nat (numObstacles a) /\
      Forall fieldCell food /\
      Forall fieldCell obs /\
      ~ In centre food /\
      ~ In centre obs /\
      (forall p, In p obs -> ~ In p food)
  end.
Proof.
  intros Hrs Hst Hsel.
  assert (Hrun : handleEvent (SDL_KEYDOWN SDLK_RETURN) a rs
                 = resetGame (set_state PLAYING a) rs).
  { cbn [handleEvent]. unfold onKeyDown. rewrite Hst.
    unfold mainMenuSelection. rewrite Hsel. reflexivity. }
  rewrite resetGame_draws in Hrun.
  change (resetDraws (set_state PLAYING a) rs) with (resetDraws a rs)
    in Hrun.
  destruct (resetDraws a rs) as [[[food obs] rs']|] eqn:Hd; [|exact Hrun].
  destruct (resetDraws_Some _ _ _ _ _ Hd) as (Hlf & Hlo & Hfc & Hoc & Hof).
  split; [exact Hrun|]. split; [exact Hlf|]. split; [exact Hlo|].
  unfold resetDraws in Hd.
  destruct (drawn (fun p => negb (Point_eqb p centre))
                  (Z.to_nat (numFoodItems a)) rs) as [[food0 rs1]|] eqn:Hdf;
    [|discriminate].
  destruct (drawn (fun p => negb (Point_eqb p centre)
                            && negb (hits p food0))
                  (Z.to_nat (numObstacles a)) rs1) as [[obs0 rs2]|] eqn:Hdo;
    [|discriminate].
  injection Hd as <- <- <-.
  destruct (drawn_fieldCell _ _ _ _ _ Hrs Hdf) as [Hff Hrs1].
  destruct (drawn_fieldCell _ _ _ _ _ Hrs1 Hdo) as [Hfo _].
  split; [exact Hff|]. split; [exact Hfo|].
  split; [exact Hfc|]. split; [exact Hoc | exact Hof].
Qed.

Lemma start_game_fresh_session_witness :
  exists food obs,
    handleEvent (SDL_KEYDOWN SDLK_RETURN) Application_init demo_rs
    = Some (set_obstacles obs
              (set_foodItems food
                 (set_score 0
                    (set_direction (mkPoint 1 0)
                       (set_snake [centre]
                          (set_state PLAYING Application_init))))),
            []) /\
    length food = 10%nat /\ length obs = 15%nat /\
    Forall fieldCell food /\ Forall fieldCell obs /\
    ~ In centre food /\ ~ In centre obs.
Proof.
  assert (Hrs : randValues demo_rs)
    by (apply randValues_check; vm_compute; reflexivity).
  pose proof (start_game_fresh_session Application_init demo_rs Hrs
                eq_refl eq_refl) as Hcase.
  destruct (resetDraws Application_init demo_rs)
    as [[[food obs] rs']|] eqn:Hd.
  - assert (Hnil : rs' = [])
      by (vm_compute in Hd; injection Hd as _ _ <-; reflexivity).
    destruct Hcase as (Hrun & Hlf & Hlo & Hff & Hfo & Hfc & Hoc & _).
    exists food, obs. rewrite <- Hnil. split; [exact Hrun|].
    split; [exact Hlf|]. split; [exact Hlo|]. split; [exact Hff|].
    split; [exact Hfo|]. split; [exact Hfc | exact Hoc].
  - vm_compute in Hd. discriminate Hd.
Defined.
